(** * EDF codec: header (de)serialisation, sample scaling, record writer and
    signal reader of the [edf] Go package, embedded as Rocq functions.

    Go values are modelled as the code has them: [int] and [int64] as [Z]
    with 64-bit two's-complement wrap-around written out, [float64] as the
    kernel's binary64 floats, [string] and [[]byte] as lists of 8-bit
    characters, [error] results as a sum type. *)

From Stdlib Require Import ZArith List Ascii Bool Lia PrimFloat Uint63 SpecFloat FloatOps.
From Stdlib Require String.
Import ListNotations.

Import String.StringSyntax.
Delimit Scope string_scope with string.

Local Open Scope Z_scope.

(** ** Go's fixed-width integers *)

Module GoInt.

(** Reduction of an integer to the signed [w]-bit range, as Go's integer
    arithmetic and integer conversions do. *)
Definition wrap (w : Z) (z : Z) : Z :=
  (z + 2 ^ (w - 1)) mod 2 ^ w - 2 ^ (w - 1).

Definition wrap64 : Z -> Z := wrap 64.
Definition wrap16 : Z -> Z := wrap 16.

Definition minInt : Z := - 2 ^ 63.
Definition maxInt : Z := 2 ^ 63 - 1.

Definition inInt (z : Z) : Prop := minInt <= z <= maxInt.

Definition add (a b : Z) : Z := wrap64 (a + b).
Definition sub (a b : Z) : Z := wrap64 (a - b).
Definition mul (a b : Z) : Z := wrap64 (a * b).

(** [float64(z)] for an [int] (or [int16]) value [z]: the nearest binary64,
    ties to even. *)
Definition toFloat64 (z : Z) : float :=
  if z =? minInt then PrimFloat.opp 0x1p63%float
  else if z <? 0 then PrimFloat.opp (PrimFloat.of_uint63 (Uint63.of_Z (- z)))
  else PrimFloat.of_uint63 (Uint63.of_Z z).

End GoInt.

(** ** Go strings: byte sequences *)

Abbreviation byte := ascii (only parsing).
Abbreviation gostring := (list ascii) (only parsing).

(** A string literal as a Go string. *)
Definition str (s : String.string) : gostring := String.list_ascii_of_string s.
Arguments str s%_string.

Definition byteVal (c : byte) : Z := Z.of_N (N_of_ascii c).
Definition byteOf (z : Z) : byte := ascii_of_N (Z.to_N (z mod 256)).

Definition space : byte := " "%char.

Module Utf8.

(** [utf8.RuneSelf]: bytes below it are single-byte runes. *)
Definition RuneSelf : Z := 128.

Definition isASCII (c : byte) : bool := byteVal c <? RuneSelf.

(** The [first] table of [unicode/utf8] together with [acceptRanges]: for a
    leading byte of a multi-byte sequence, the sequence's size and the
    range the second byte must lie in; [None] for ASCII and invalid
    leading bytes, which always stand for a rune of one byte. *)
Definition first (c : byte) : option (nat * Z * Z) :=
  let v := byteVal c in
  if v <? 194 then None
  else if v <=? 223 then Some (2%nat, 128, 191)
  else if v =? 224 then Some (3%nat, 160, 191)
  else if v <=? 236 then Some (3%nat, 128, 191)
  else if v =? 237 then Some (3%nat, 128, 159)
  else if v <=? 239 then Some (3%nat, 128, 191)
  else if v =? 240 then Some (4%nat, 144, 191)
  else if v <=? 243 then Some (4%nat, 128, 191)
  else if v =? 244 then Some (4%nat, 128, 143)
  else None.

Definition within (lo hi : Z) (c : byte) : bool :=
  (lo <=? byteVal c) && (byteVal c <=? hi).

(** Continuation byte: [locb <= c <= hicb]. *)
Definition isCont : byte -> bool := within 128 191.

(** [utf8.RuneCountInString]: every ASCII byte, every well-formed
    multi-byte sequence and every byte that starts no well-formed
    sequence counts as one rune. *)
Fixpoint RuneCountInString (s : gostring) : nat :=
  match s with
  | [] => 0%nat
  | c :: r1 =>
      match first c with
      | None => S (RuneCountInString r1)
      | Some (size, lo, hi) =>
          match r1 with
          | [] => S (RuneCountInString r1)
          | c1 :: r2 =>
              if negb (within lo hi c1) then S (RuneCountInString r1)
              else if (size =? 2)%nat then S (RuneCountInString r2)
              else
                match r2 with
                | [] => S (RuneCountInString r1)
                | c2 :: r3 =>
                    if negb (isCont c2) then S (RuneCountInString r1)
                    else if (size =? 3)%nat then S (RuneCountInString r3)
                    else
                      match r3 with
                      | [] => S (RuneCountInString r1)
                      | c3 :: r4 =>
                          if negb (isCont c3) then S (RuneCountInString r1)
                          else S (RuneCountInString r4)
                      end
                end
          end
      end
  end.

End Utf8.

(** Strings made of ASCII bytes only. *)
Definition allASCII (s : gostring) : bool := forallb Utf8.isASCII s.

(** ** The parts of Go's library and runtime the package calls

    The package formats and parses floating-point numbers, calendar times
    and durations through [fmt], [strconv], [time] and [math], trims
    Unicode white space through [strings] and [unicode], and converts
    [float64] to [int16] with a conversion whose out-of-range results the
    language leaves to the implementation.  These are the package's
    interface to Go, kept as an interface here. *)

Class TimeRep : Type := {
  (** The representation of [time.Time]. *)
  Time : Type
}.

Class GoLib {T : TimeRep} : Type := {
  (** [fmt.Sprintf("%.2f", v)] and [fmt.Sprintf("%.0f", v)]. *)
  Sprintf_2f : float -> gostring;
  Sprintf_0f : float -> gostring;
  (** [strconv.ParseFloat(s, 64)], [None] when it returns an error. *)
  ParseFloat : gostring -> option float;
  (** The conversion [int16(x)] of a [float64]. *)
  int16_of_float64 : float -> Z;
  (** [Format] and [time.Parse] at the layouts ["02.01.06"] and
      ["15.04.05"], [time.Date(y, m, d, H, M, S, 0, time.UTC)] and the
      calendar accessors. *)
  Format_date : Time -> gostring;
  Format_clock : Time -> gostring;
  Parse_date : gostring -> option Time;
  Parse_clock : gostring -> option Time;
  Date_UTC : Z -> Z -> Z -> Z -> Z -> Z -> Time;
  Year : Time -> Z;
  Month : Time -> Z;
  Day : Time -> Z;
  Hour : Time -> Z;
  Minute : Time -> Z;
  Second : Time -> Z;
  (** [int(math.Ceil(d.Seconds()))] for a [time.Duration] [d], an [int64]
      count of nanoseconds. *)
  ceilSeconds : Z -> Z;
  (** [time.ParseDuration(s)], [None] when it returns an error. *)
  ParseDuration : gostring -> option Z;
  (** [strings.TrimFunc(s, unicode.IsSpace)] and
      [strings.TrimRightFunc(s, unicode.IsSpace)], which [strings.TrimSpace]
      falls back to when it meets a byte that is not ASCII. *)
  TrimFunc_IsSpace : gostring -> gostring;
  TrimRightFunc_IsSpace : gostring -> gostring
}.

(** ** [strings], [strconv] and [fmt] on ASCII text *)

Module Strings.
Section WithLib.
Context {T : TimeRep} {L : GoLib}.

(** The [asciiSpace] table: tab, line feed, vertical tab, form feed,
    carriage return and space. *)
Definition asciiSpace (c : byte) : bool :=
  let v := byteVal c in
  (v =? 9) || (v =? 10) || (v =? 11) || (v =? 12) || (v =? 13) || (v =? 32).

(** The second loop of [strings.TrimSpace]: strip ASCII white space from
    the end, handing over to the Unicode-aware trim at the first byte
    that is not ASCII.  The string is held reversed. *)
Fixpoint trimRightRev (rs : gostring) : gostring :=
  match rs with
  | [] => []
  | c :: rest =>
      if negb (Utf8.isASCII c) then TrimRightFunc_IsSpace (rev rs)
      else if asciiSpace c then trimRightRev rest
      else rev rs
  end.

(** [strings.TrimSpace]. *)
Fixpoint TrimSpace (s : gostring) : gostring :=
  match s with
  | [] => []
  | c :: rest =>
      if negb (Utf8.isASCII c) then TrimFunc_IsSpace s
      else if asciiSpace c then TrimSpace rest
      else trimRightRev (rev s)
  end.

(** [fmt.Sprintf("%-*s", width, s)]: [s] followed by the padding that
    brings its rune count up to [width]; never shortened. *)
Definition padRight (width : nat) (s : gostring) : gostring :=
  s ++ repeat space (width - Utf8.RuneCountInString s).

End WithLib.
End Strings.

Module Strconv.

Definition digitChar (d : Z) : byte := byteOf (48 + d).

Definition isDigit (c : byte) : bool :=
  (48 <=? byteVal c) && (byteVal c <=? 57).

(** The digit loop of [fmt]'s integer formatting: the least significant
    digit is produced first and stored in front of the digits already
    there. *)
Fixpoint digitsFuel (fuel : nat) (n : Z) (acc : gostring) : gostring :=
  match fuel with
  | O => acc
  | S f =>
      if n <? 10 then digitChar n :: acc
      else digitsFuel f (n / 10) (digitChar (n mod 10) :: acc)
  end.

Definition formatUint (n : Z) : gostring :=
  digitsFuel (S (Z.to_nat (Z.log2 n))) n [].

(** [fmt.Sprintf("%d", z)]. *)
Definition formatInt (z : Z) : gostring :=
  if z <? 0 then "-"%char :: formatUint (- z) else formatUint z.

(** The digit loop of [strconv.Atoi]: [n = n*10 + int(ch - '0')], a
    syntax error at the first byte that is not a digit. *)
Fixpoint atoiDigits (s : gostring) (n : Z) : option Z :=
  match s with
  | [] => Some n
  | ch :: rest =>
      if isDigit ch then atoiDigits rest (n * 10 + (byteVal ch - 48))
      else None
  end.

(** [strconv.Atoi], [None] when it returns an error: an optional sign,
    then at least one decimal digit and nothing else; a value outside
    [int] is a range error. *)
Definition Atoi (s : gostring) : option Z :=
  match s with
  | [] => None
  | c :: rest =>
      let signed := (byteVal c =? 45) || (byteVal c =? 43) in
      let digits := if signed then rest else s in
      match digits with
      | [] => None
      | _ =>
          match atoiDigits digits 0 with
          | None => None
          | Some n =>
              let v := if byteVal c =? 45 then - n else n in
              if (GoInt.minInt <=? v) && (v <=? GoInt.maxInt) then Some v
              else None
          end
      end
  end.

End Strconv.

(** ** The header model (the package's [Header] and [Signal] structs) *)

Section Model.
Context {T : TimeRep}.

Record Signal : Type := mkSignal {
  Label : gostring;
  TransducerType : gostring;
  PhysicalDimension : gostring;
  PhysicalMin : float;
  PhysicalMax : float;
  DigitalMin : Z;
  DigitalMax : Z;
  Prefiltering : gostring;
  SamplesPerRecord : Z;
  Reserved : gostring
}.

Record Header : Type := mkHeader {
  Version : gostring;
  PatientID : gostring;
  RecordingID : gostring;
  StartTime : Time;
  HeaderBytes : Z;
  DataRecordDuration : Z;
  DataRecords : Z;
  SignalCount : Z;
  Signals : list Signal
}.

(** The zero value of [Signal], as [make([]Signal, n)] fills a slice. *)
Definition zeroSignal : Signal :=
  mkSignal [] [] [] 0%float 0%float 0 0 [] 0 [].

Definition set_HeaderBytes (v : Z) (h : Header) : Header :=
  mkHeader (Version h) (PatientID h) (RecordingID h) (StartTime h) v
           (DataRecordDuration h) (DataRecords h) (SignalCount h) (Signals h).

Definition set_DataRecords (v : Z) (h : Header) : Header :=
  mkHeader (Version h) (PatientID h) (RecordingID h) (StartTime h)
           (HeaderBytes h) (DataRecordDuration h) v (SignalCount h) (Signals h).

End Model.

(** ** The scaling between digital and physical values *)

Section SampleCodec.
Context {T : TimeRep} {L : GoLib}.

(** [convertPhysicalToDigital] of writer.go. *)
Definition convertPhysicalToDigital
    (physical pmin pmax : float) (dmin dmax : Z) : Z :=
  if PrimFloat.eqb pmax pmin then 0
  else
    let digital :=
      PrimFloat.add
        (PrimFloat.div
           (PrimFloat.mul (PrimFloat.sub physical pmin)
                          (GoInt.toFloat64 (GoInt.sub dmax dmin)))
           (PrimFloat.sub pmax pmin))
        (GoInt.toFloat64 dmin) in
    int16_of_float64 digital.

(** [convertDigitalToPhysical] of the reader. *)
Definition convertDigitalToPhysical
    (digital : Z) (dmin dmax : Z) (pmin pmax : float) : float :=
  if dmax =? dmin then 0%float
  else
    PrimFloat.add pmin
      (PrimFloat.div
         (PrimFloat.mul
            (PrimFloat.sub (GoInt.toFloat64 digital) (GoInt.toFloat64 dmin))
            (PrimFloat.sub pmax pmin))
         (GoInt.toFloat64 (GoInt.sub dmax dmin))).

End SampleCodec.

(** ** Byte stores: [io.WriteSeeker], [io.ReadSeeker] and [bufio.Writer]

    A byte store is a random-access file held in memory: its contents and
    the offset of the next sequential transfer.  Its operations do not
    fail. *)

Module IO.

Record File : Type := mkFile {
  contents : list byte;
  offset : nat
}.

(** The contents after [bs] is stored at offset [off]: bytes there are
    overwritten, the file grows as needed, a gap is zero-filled. *)
Definition writeAt (data : list byte) (off : nat) (bs : list byte) : list byte :=
  firstn off data ++ repeat Ascii.zero (off - length data) ++ bs
    ++ skipn (off + length bs) data.

Definition Write (f : File) (bs : list byte) : File :=
  mkFile (writeAt (contents f) (offset f) bs) (offset f + length bs).

(** [Seek(0, io.SeekStart)]. *)
Definition Rewind (f : File) : File := mkFile (contents f) 0.

(** [bufio.Writer]: the store it wraps and the bytes accepted but not yet
    handed on. *)
Record BufWriter : Type := mkBufWriter {
  wr : File;
  buf : list byte
}.

(** [defaultBufSize]. *)
Definition bufSize : nat := 4096.

Definition NewWriter (f : File) : BufWriter := mkBufWriter f [].

(** [Flush]: hand the buffer to the store.  With an empty buffer this is
    a write of no bytes, which leaves a store whose offset is within its
    contents as it is. *)
Definition Flush (b : BufWriter) : BufWriter :=
  mkBufWriter (Write (wr b) (buf b)) [].

(** [WriteString]: while the string does not fit in the free part of the
    buffer, fill the buffer, flush it and go on with the rest. *)
Fixpoint WriteStringFuel (fuel : nat) (b : BufWriter) (s : gostring) : BufWriter :=
  let avail := (bufSize - length (buf b))%nat in
  if (length s <=? avail)%nat then mkBufWriter (wr b) (buf b ++ s)
  else
    match fuel with
    | O => b
    | S fuel' =>
        WriteStringFuel fuel'
          (Flush (mkBufWriter (wr b) (buf b ++ firstn avail s)))
          (skipn avail s)
    end.

Definition WriteString (b : BufWriter) (s : gostring) : BufWriter :=
  WriteStringFuel (S (length s)) b s.

(** What the store holds once everything accepted so far is flushed. *)
Definition flushed (b : BufWriter) : File := wr (Flush b).

(** Reading [n] bytes at absolute offset [pos] ([Seek(pos, io.SeekStart)]
    followed by [io.ReadFull]): [None] when the seek is refused (a
    negative offset) or fewer than [n] bytes are left. *)
Definition readAt (data : list byte) (pos : Z) (n : nat) : option (list byte) :=
  if pos <? 0 then None
  else
    let rest := skipn (Z.to_nat pos) data in
    if (n <=? length rest)%nat then Some (firstn n rest) else None.

End IO.

(** ** Errors

    One constructor per place where the package builds an error; [io.EOF]
    is the library's end-of-data value. *)

Inductive error : Type :=
  | ErrTooLong (fieldName value : gostring) (len width : Z)
      (* "%s '%s' is too long (%d > %d)" *)
  | ErrPhysicalValue (val : float)
      (* "physical value %.2f too long to fit in 8 bytes" *)
  | ErrSignalField (i : Z) (fieldName : gostring) (e : error)
      (* "Signal[%d].PhysicalMin: %w", "Signal[%d].PhysicalMax: %w" *)
  | ErrWritingHeader (e : error)        (* "error writing header: %w" *)
  | ErrExpectedSignals (expected got : Z) (* "expected %d signals, got %d" *)
  | ErrRecordTooLarge (bytes : Z)
      (* "data record too large: %d bytes, max is 61440 bytes" *)
  | ErrReadingHeader                    (* "error reading header: %w" *)
  | ErrParsingStartDate                 (* "error parsing start date: %w" *)
  | ErrParsingStartTime                 (* "error parsing start time: %w" *)
  | ErrParsingHeaderBytes               (* "error parsing header bytes: %w" *)
  | ErrParsingDataRecords
      (* "error parsing number of data records: %w" *)
  | ErrParsingDuration
      (* "error parsing data record duration: %w" *)
  | ErrParsingSignalCount               (* "error parsing signal count: %w" *)
  | ErrReadingSignalHeaders             (* "error reading signal headers: %w" *)
  | ErrSignalIndex                      (* "signal index out of range" *)
  | ErrSeeking                          (* "error seeking to position: %w" *)
  | ErrReadingSample                    (* "error reading sample data: %w" *)
  | EOF.                                (* io.EOF *)

(** The kinds under which the specification files these errors. *)
Inductive ErrorKind : Type :=
  | FieldTooLong | MalformedHeader | SignalCountMismatch | RecordTooLarge
  | SignalIndexOutOfRange | IOFailure | EndOfData.

Fixpoint kindOf (e : error) : ErrorKind :=
  match e with
  | ErrTooLong _ _ _ _ => FieldTooLong
  | ErrPhysicalValue _ => FieldTooLong
  | ErrSignalField _ _ e' => kindOf e'
  | ErrWritingHeader e' => kindOf e'
  | ErrExpectedSignals _ _ => SignalCountMismatch
  | ErrRecordTooLarge _ => RecordTooLarge
  | ErrReadingHeader => IOFailure
  | ErrParsingStartDate => MalformedHeader
  | ErrParsingStartTime => MalformedHeader
  | ErrParsingHeaderBytes => MalformedHeader
  | ErrParsingDataRecords => MalformedHeader
  | ErrParsingDuration => MalformedHeader
  | ErrParsingSignalCount => MalformedHeader
  | ErrReadingSignalHeaders => IOFailure
  | ErrSignalIndex => SignalIndexOutOfRange
  | ErrSeeking => IOFailure
  | ErrReadingSample => IOFailure
  | EOF => EndOfData
  end.

(** The outcome of a call: a value, a returned error, or a run-time panic
    (an index out of range, a negative slice length). *)
Inductive result (A : Type) : Type :=
  | Ok (a : A)
  | Err (e : error)
  | Panic.
Arguments Ok {A} a.
Arguments Err {A} e.
Arguments Panic {A}.

(** ** The record writer *)

Section WriterState.
Context {T : TimeRep} {L : GoLib}.

Record Writer : Type := mkWriter {
  w : IO.File;
  hdr : Header;
  dataRecords : Z
}.

(** A [int16] in little-endian byte order, as [binary.Write] stores it. *)
Definition int16le (v : Z) : list byte := [byteOf v; byteOf (v / 256)].

(** The two loops of [WriteRecord] over the channels and their samples:
    channel [i] is scaled with [hdr.Signals[i]], an index the header does
    not have panics. *)
Fixpoint writeChannels (sigs : list Signal) (chans : list (list float))
    (b : IO.BufWriter) : IO.BufWriter * result unit :=
  match chans with
  | [] => (b, Ok tt)
  | ch :: chans' =>
      match sigs with
      | [] => (b, Panic)
      | signal :: sigs' =>
          writeChannels sigs' chans'
            (fold_left
               (fun b sample =>
                  let digitalValue :=
                    convertPhysicalToDigital sample
                      (PhysicalMin signal) (PhysicalMax signal)
                      (DigitalMin signal) (DigitalMax signal) in
                  IO.WriteString b (int16le digitalValue))
               ch b)
      end
  end.

(** The sum of the channels' lengths, in [int]. *)
Definition totalSamples (signals : list (list float)) : Z :=
  fold_left (fun total signal => GoInt.add total (Z.of_nat (length signal)))
            signals 0.

(** [WriteRecord]: the writer afterwards and what the call returned. *)
Definition WriteRecord (ew : Writer) (signals : list (list float))
    : Writer * result unit :=
  if negb (Z.of_nat (length signals) =? SignalCount (hdr ew)) then
    (ew, Err (ErrExpectedSignals (SignalCount (hdr ew))
                                 (Z.of_nat (length signals))))
  else
    let total := totalSamples signals in
    if GoInt.mul total 2 >? 61440 then
      (ew, Err (ErrRecordTooLarge (GoInt.mul total 2)))
    else
      let writer := IO.NewWriter (w ew) in
      match writeChannels (Signals (hdr ew)) signals writer with
      | (writer', Ok _) =>
          (mkWriter (IO.wr (IO.Flush writer')) (hdr ew)
                    (GoInt.add (dataRecords ew) 1), Ok tt)
      | (writer', r) => (mkWriter (IO.wr writer') (hdr ew) (dataRecords ew), r)
      end.

(** [WriteRecord] for each record in turn, as long as it returns no
    error: the writer after the last one. *)
Fixpoint writeAll (ew : Writer) (records : list (list (list float)))
    : option Writer :=
  match records with
  | [] => Some ew
  | signals :: rest =>
      match WriteRecord ew signals with
      | (ew', Ok _) => writeAll ew' rest
      | _ => None
      end
  end.

(** [Create] and [Close] over a header encoder [writeHeader], which the
    two revisions of the writer define differently. *)
Section Lifecycle.
Variable writeHeader : Writer -> Writer * option error.

(** [Create]: the store afterwards and the writer or error returned. *)
Definition CreateWith (sink : IO.File) (h : Header)
    : IO.File * result Writer :=
  let h := set_DataRecords (-1) h in
  let ew := mkWriter sink h 0 in
  match writeHeader ew with
  | (ew', Some err) => (w ew', Err (ErrWritingHeader err))
  | (ew', None) => (w ew', Ok ew')
  end.

Definition CloseWith (ew : Writer) : Writer * option error :=
  let ew := mkWriter (w ew) (set_DataRecords (dataRecords ew) (hdr ew))
                     (dataRecords ew) in
  match writeHeader ew with
  | (ew', Some err) => (ew', Some (ErrWritingHeader err))
  | (ew', None) => (ew', None)
  end.
End Lifecycle.

End WriterState.

(** *** writer.go: [writeHeader] with plain [fmt.Sprintf] padding *)

Module WriterGo.
Section WithLib.
Context {T : TimeRep} {L : GoLib}.

Import Strings Strconv.

(** The package-level [formatPhysicalValue] of writer.go. *)
Definition formatPhysicalValue (val : float) : gostring :=
  let s := Sprintf_2f val in
  let s := if (8 <? length s)%nat then Sprintf_0f val else s in
  padRight 8 s.

(** One [for _, signal := range ew.hdr.Signals] loop writing a field of
    every signal. *)
Definition forSignals (field : Signal -> gostring) (sigs : list Signal)
    (writer : IO.BufWriter) : IO.BufWriter :=
  fold_left (fun b signal => IO.WriteString b (field signal)) sigs writer.

Definition writeHeader (ew : Writer) : Writer * option error :=
  let h := hdr ew in
  let f := IO.Rewind (w ew) in
  let writer := IO.NewWriter f in
  let writer := IO.WriteString writer (padRight 8 (Version h)) in
  let writer := IO.WriteString writer (padRight 80 (PatientID h)) in
  let writer := IO.WriteString writer (padRight 80 (RecordingID h)) in
  let dateStr := Format_date (StartTime h) in
  let timeStr := Format_clock (StartTime h) in
  let writer := IO.WriteString writer (padRight 8 dateStr) in
  let writer := IO.WriteString writer (padRight 8 timeStr) in
  let h := set_HeaderBytes (GoInt.add 256 (GoInt.mul (SignalCount h) 256)) h in
  let writer := IO.WriteString writer (padRight 8 (formatInt (HeaderBytes h))) in
  let writer := IO.WriteString writer (padRight 44 []) in
  let writer := IO.WriteString writer (padRight 8 (formatInt (DataRecords h))) in
  let writer :=
    IO.WriteString writer
      (padRight 8 (formatInt (ceilSeconds (DataRecordDuration h)))) in
  let writer := IO.WriteString writer (padRight 4 (formatInt (SignalCount h))) in
  let sigs := Signals h in
  let writer := forSignals (fun s => padRight 16 (Label s)) sigs writer in
  let writer := forSignals (fun s => padRight 80 (TransducerType s)) sigs writer in
  let writer := forSignals (fun s => padRight 8 (PhysicalDimension s)) sigs writer in
  let writer := forSignals (fun s => formatPhysicalValue (PhysicalMin s)) sigs writer in
  let writer := forSignals (fun s => formatPhysicalValue (PhysicalMax s)) sigs writer in
  let writer := forSignals (fun s => padRight 8 (formatInt (DigitalMin s))) sigs writer in
  let writer := forSignals (fun s => padRight 8 (formatInt (DigitalMax s))) sigs writer in
  let writer := forSignals (fun s => padRight 80 (Prefiltering s)) sigs writer in
  let writer := forSignals (fun s => padRight 8 (formatInt (SamplesPerRecord s))) sigs writer in
  let writer := forSignals (fun _ => padRight 32 []) sigs writer in
  let writer := IO.Flush writer in
  (mkWriter (IO.wr writer) h (dataRecords ew), None).

Definition Create := CreateWith writeHeader.
Definition Close := CloseWith writeHeader.

End WithLib.
End WriterGo.

(** *** The revised writer: [writeHeader] through [writeChecked] *)

Module WriterChecked.
Section WithLib.
Context {T : TimeRep} {L : GoLib}.

Import Strings Strconv.

(** Writing through the buffered writer with early return on error. *)
Definition W (A : Type) : Type := IO.BufWriter -> IO.BufWriter * (error + A).

Definition ret {A} (a : A) : W A := fun b => (b, inr a).
Definition bind {A B} (m : W A) (k : A -> W B) : W B :=
  fun b => match m b with
           | (b', inl e) => (b', inl e)
           | (b', inr a) => k a b'
           end.

Notation "m ;; k" := (bind m (fun _ => k))
  (at level 61, right associativity).

(** The closure [writeChecked]. *)
Definition writeChecked (fieldName value : gostring) (width : nat) : W unit :=
  fun b =>
    if (width <? length value)%nat then
      (b, inl (ErrTooLong fieldName value (Z.of_nat (length value))
                          (Z.of_nat width)))
    else (IO.WriteString b (padRight width value), inr tt).

(** The closure [formatPhysicalValue]. *)
Definition formatPhysicalValue (val : float) : error + gostring :=
  let s := Sprintf_2f val in
  if (8 <? length s)%nat then
    let s := Sprintf_0f val in
    if (8 <? length s)%nat then inl (ErrPhysicalValue val)
    else inr (padRight 8 s)
  else inr (padRight 8 s).

(** [fmt.Sprintf("Signal[%d].<name>", i)]. *)
Definition signalField (i : Z) (name : String.string) : gostring :=
  str "Signal[" ++ formatInt i ++ str "]." ++ str name.
Arguments signalField i name%_string.

(** One [for i, signal := range ew.hdr.Signals] loop, left at the first
    error. *)
Fixpoint forSignals (body : Z -> Signal -> W unit) (i : Z)
    (sigs : list Signal) : W unit :=
  match sigs with
  | [] => ret tt
  | signal :: rest => body i signal ;; forSignals body (i + 1) rest
  end.

Definition writePhysical (name : String.string) (val : Signal -> float)
    (i : Z) (signal : Signal) : W unit :=
  fun b =>
    match formatPhysicalValue (val signal) with
    | inl err => (b, inl (ErrSignalField i (str name) err))
    | inr s => (IO.WriteString b s, inr tt)
    end.
Arguments writePhysical name%_string val i signal.

(** The fields written before [ew.hdr.HeaderBytes] is assigned. *)
Definition encodeStart (h : Header) : W unit :=
  writeChecked (str "Version") (Version h) 8 ;;
  writeChecked (str "PatientID") (PatientID h) 80 ;;
  writeChecked (str "RecordingID") (RecordingID h) 80 ;;
  writeChecked (str "StartDate") (Format_date (StartTime h)) 8 ;;
  writeChecked (str "StartTime") (Format_clock (StartTime h)) 8.

(** The fields written after it. *)
Definition encodeRest (h : Header) : W unit :=
  writeChecked (str "HeaderBytes") (formatInt (HeaderBytes h)) 8 ;;
  writeChecked (str "Reserved") [] 44 ;;
  writeChecked (str "DataRecords") (formatInt (DataRecords h)) 8 ;;
  writeChecked (str "Duration")
               (formatInt (ceilSeconds (DataRecordDuration h))) 8 ;;
  writeChecked (str "SignalCount") (formatInt (SignalCount h)) 4 ;;
  forSignals (fun i s => writeChecked (signalField i "Label") (Label s) 16)
             0 (Signals h) ;;
  forSignals (fun i s => writeChecked (signalField i "TransducerType")
                                      (TransducerType s) 80)
             0 (Signals h) ;;
  forSignals (fun i s => writeChecked (signalField i "PhysicalDimension")
                                      (PhysicalDimension s) 8)
             0 (Signals h) ;;
  forSignals (writePhysical "PhysicalMin" PhysicalMin) 0 (Signals h) ;;
  forSignals (writePhysical "PhysicalMax" PhysicalMax) 0 (Signals h) ;;
  forSignals (fun i s => writeChecked (signalField i "DigitalMin")
                                      (formatInt (DigitalMin s)) 8)
             0 (Signals h) ;;
  forSignals (fun i s => writeChecked (signalField i "DigitalMax")
                                      (formatInt (DigitalMax s)) 8)
             0 (Signals h) ;;
  forSignals (fun i s => writeChecked (signalField i "Prefiltering")
                                      (Prefiltering s) 80)
             0 (Signals h) ;;
  forSignals (fun i s => writeChecked (signalField i "SamplesPerRecord")
                                      (formatInt (SamplesPerRecord s)) 8)
             0 (Signals h) ;;
  forSignals (fun i _ => writeChecked (signalField i "Reserved") [] 32)
             0 (Signals h).

(** [writeHeader] on the in-memory store: rewind, write the fields
    through a buffered writer, returning at the first error, and flush a
    complete header.  The store accepts every seek and every write, so
    the returns of an error of [Seek], [WriteString] or [Flush] have no
    case here; [OnSink.writeHeader] below has them. *)
Definition writeHeader (ew : Writer) : Writer * option error :=
  let f := IO.Rewind (w ew) in
  let writer := IO.NewWriter f in
  let h0 := hdr ew in
  match encodeStart h0 writer with
  | (writer, inl err) => (mkWriter (IO.wr writer) h0 (dataRecords ew), Some err)
  | (writer, inr _) =>
      let h := set_HeaderBytes
                 (GoInt.add 256 (GoInt.mul (SignalCount h0) 256)) h0 in
      match encodeRest h writer with
      | (writer, inl err) =>
          (mkWriter (IO.wr writer) h (dataRecords ew), Some err)
      | (writer, inr _) =>
          (mkWriter (IO.wr (IO.Flush writer)) h (dataRecords ew), None)
      end
  end.

Definition Create := CreateWith writeHeader.
Definition Close := CloseWith writeHeader.

End WithLib.
End WriterChecked.

(** ** The revised header writer on a sink that can fail

    [writeHeader] of the revised writer once more, this time over any
    [io.WriteSeeker]: [Seek] and [Write] may return an error, and [Write]
    may take fewer bytes than it was given.  [bufio.Writer] keeps the
    first error of its sink and returns it from every later call. *)

Module OnSink.
Section WithSink.
Context {T : TimeRep} {L : GoLib}.

Import Strings Strconv.

(** The sink: its states, the errors it reports, [Seek(0, io.SeekStart)]
    and [Write], which returns the number of bytes it took. *)
Context {S E : Type}.
Variable Seek0 : S -> S * option E.
Variable Write : S -> list byte -> S * nat * option E.

(** What [bufio.Writer] can hold as its error: an error of the sink, or
    [io.ErrShortWrite]. *)
Inductive sinkError : Type :=
  | Reported (e : E)
  | ErrShortWrite.

(** What [writeHeader] can return: an error of the sink or of the
    buffered writer, passed on as it is, or an error [writeHeader] builds
    itself. *)
Inductive failure : Type :=
  | FromSink (e : sinkError)
  | Refused (e : error).

Record Writer : Type := mkWriter {
  w : S;
  hdr : Header;
  dataRecords : Z
}.

(** [bufio.Writer]: the sink, the bytes accepted but not yet handed on,
    and the first error met. *)
Record BufWriter : Type := mkBufWriter {
  wr : S;
  buf : list byte;
  err : option sinkError
}.

Definition NewWriter (s : S) : BufWriter := mkBufWriter s [] None.

(** [Flush]: return the stored error if there is one; write nothing when
    the buffer is empty; otherwise hand the buffer to the sink, and on an
    error or a short write keep the bytes not taken and store the error.
    (A sink that keeps the contract of [io.Writer] takes no more bytes
    than it is given.) *)
Definition Flush (b : BufWriter) : BufWriter * option sinkError :=
  match err b with
  | Some e => (b, Some e)
  | None =>
      match buf b with
      | [] => (b, None)
      | _ :: _ =>
          let '(s, n, r) := Write (wr b) (buf b) in
          let r := match r with
                   | Some e => Some (Reported e)
                   | None => if (n <? length (buf b))%nat
                             then Some ErrShortWrite else None
                   end in
          match r with
          | Some e => (mkBufWriter s (skipn n (buf b)) (Some e), Some e)
          | None => (mkBufWriter s [] None, None)
          end
      end
  end.

(** [WriteString]: while the string does not fit in the free part of the
    buffer and no error is stored, fill the buffer, flush it and go on with
    the rest; then return the stored error, or take the rest into the
    buffer.  (For a string longer than an empty buffer [bufio] hands the
    string to a sink that has [WriteString] of its own; a header field has
    at most 80 bytes and never gets there.) *)
Fixpoint WriteStringFuel (fuel : nat) (b : BufWriter) (s : gostring)
    : BufWriter * option sinkError :=
  let avail := (IO.bufSize - length (buf b))%nat in
  match err b with
  | Some e => (b, Some e)
  | None =>
      if (length s <=? avail)%nat
      then (mkBufWriter (wr b) (buf b ++ s) None, None)
      else
        match fuel with
        | O => (b, None)
        | Datatypes.S fuel' =>
            WriteStringFuel fuel'
              (fst (Flush (mkBufWriter (wr b) (buf b ++ firstn avail s) None)))
              (skipn avail s)
        end
  end.

Definition WriteString (b : BufWriter) (s : gostring)
    : BufWriter * option sinkError :=
  WriteStringFuel (Datatypes.S (length s)) b s.

(** Writing through the buffered writer with early return on error. *)
Definition W (A : Type) : Type := BufWriter -> BufWriter * (failure + A).

Definition ret {A} (a : A) : W A := fun b => (b, inr a).
Definition bind {A B} (m : W A) (k : A -> W B) : W B :=
  fun b => match m b with
           | (b', inl e) => (b', inl e)
           | (b', inr a) => k a b'
           end.

Notation "m ;; k" := (bind m (fun _ => k))
  (at level 61, right associativity).

(** [writer.WriteString(s)] with its error returned. *)
Definition emit (s : gostring) : W unit :=
  fun b => match WriteString b s with
           | (b', Some e) => (b', inl (FromSink e))
           | (b', None) => (b', inr tt)
           end.

(** The closure [writeChecked]. *)
Definition writeChecked (fieldName value : gostring) (width : nat) : W unit :=
  fun b =>
    if (width <? length value)%nat then
      (b, inl (Refused (ErrTooLong fieldName value (Z.of_nat (length value))
                                   (Z.of_nat width))))
    else emit (padRight width value) b.

(** One [for i, signal := range ew.hdr.Signals] loop, left at the first
    error. *)
Fixpoint forSignals (body : Z -> Signal -> W unit) (i : Z)
    (sigs : list Signal) : W unit :=
  match sigs with
  | [] => ret tt
  | signal :: rest => body i signal ;; forSignals body (i + 1) rest
  end.

Definition writePhysical (name : String.string) (val : Signal -> float)
    (i : Z) (signal : Signal) : W unit :=
  fun b =>
    match WriterChecked.formatPhysicalValue (val signal) with
    | inl e => (b, inl (Refused (ErrSignalField i (str name) e)))
    | inr s => emit s b
    end.
Arguments writePhysical name%_string val i signal.

(** The fields written before [ew.hdr.HeaderBytes] is assigned. *)
Definition encodeStart (h : Header) : W unit :=
  writeChecked (str "Version") (Version h) 8 ;;
  writeChecked (str "PatientID") (PatientID h) 80 ;;
  writeChecked (str "RecordingID") (RecordingID h) 80 ;;
  writeChecked (str "StartDate") (Format_date (StartTime h)) 8 ;;
  writeChecked (str "StartTime") (Format_clock (StartTime h)) 8.

(** The fields written after it. *)
Definition encodeRest (h : Header) : W unit :=
  writeChecked (str "HeaderBytes") (formatInt (HeaderBytes h)) 8 ;;
  writeChecked (str "Reserved") [] 44 ;;
  writeChecked (str "DataRecords") (formatInt (DataRecords h)) 8 ;;
  writeChecked (str "Duration")
               (formatInt (ceilSeconds (DataRecordDuration h))) 8 ;;
  writeChecked (str "SignalCount") (formatInt (SignalCount h)) 4 ;;
  forSignals (fun i s => writeChecked (WriterChecked.signalField i "Label"%string)
                                      (Label s) 16)
             0 (Signals h) ;;
  forSignals (fun i s => writeChecked
                           (WriterChecked.signalField i "TransducerType"%string)
                           (TransducerType s) 80)
             0 (Signals h) ;;
  forSignals (fun i s => writeChecked
                           (WriterChecked.signalField i "PhysicalDimension"%string)
                           (PhysicalDimension s) 8)
             0 (Signals h) ;;
  forSignals (writePhysical "PhysicalMin" PhysicalMin) 0 (Signals h) ;;
  forSignals (writePhysical "PhysicalMax" PhysicalMax) 0 (Signals h) ;;
  forSignals (fun i s => writeChecked
                           (WriterChecked.signalField i "DigitalMin"%string)
                           (formatInt (DigitalMin s)) 8)
             0 (Signals h) ;;
  forSignals (fun i s => writeChecked
                           (WriterChecked.signalField i "DigitalMax"%string)
                           (formatInt (DigitalMax s)) 8)
             0 (Signals h) ;;
  forSignals (fun i s => writeChecked
                           (WriterChecked.signalField i "Prefiltering"%string)
                           (Prefiltering s) 80)
             0 (Signals h) ;;
  forSignals (fun i s => writeChecked
                           (WriterChecked.signalField i "SamplesPerRecord"%string)
                           (formatInt (SamplesPerRecord s)) 8)
             0 (Signals h) ;;
  forSignals (fun i _ => writeChecked
                           (WriterChecked.signalField i "Reserved"%string) [] 32)
             0 (Signals h).

(** [writeHeader]: seek to the start and return the sink's error if it
    gives one; write the fields through a buffered writer, returning at
    the first error; return what [Flush] returns. *)
Definition writeHeader (ew : Writer) : Writer * option failure :=
  match Seek0 (w ew) with
  | (s, Some e) =>
      (mkWriter s (hdr ew) (dataRecords ew), Some (FromSink (Reported e)))
  | (s, None) =>
      let writer := NewWriter s in
      let h0 := hdr ew in
      match encodeStart h0 writer with
      | (writer, inl e) => (mkWriter (wr writer) h0 (dataRecords ew), Some e)
      | (writer, inr _) =>
          let h := set_HeaderBytes
                     (GoInt.add 256 (GoInt.mul (SignalCount h0) 256)) h0 in
          match encodeRest h writer with
          | (writer, inl e) =>
              (mkWriter (wr writer) h (dataRecords ew), Some e)
          | (writer, inr _) =>
              let '(writer, r) := Flush writer in
              (mkWriter (wr writer) h (dataRecords ew),
               option_map FromSink r)
          end
      end
  end.

End WithSink.

Arguments sinkError E : clear implicits.
Arguments failure E : clear implicits.
Arguments Writer {T} S.
Arguments BufWriter S E : clear implicits.

End OnSink.

(** The in-memory store as such a sink: [Seek] and [Write] never fail,
    and [Write] takes all it is given. *)
Definition storeSeek0 {E : Type} (f : IO.File) : IO.File * option E :=
  (IO.Rewind f, None).

Definition storeWrite {E : Type} (f : IO.File) (bs : list byte)
    : IO.File * nat * option E :=
  (IO.Write f bs, length bs, None).

(** ** The reader *)

Section ReaderDefs.
Context {T : TimeRep} {L : GoLib}.

Import Strings Strconv.

(** [b[i:j]]. *)
Definition slice (i j : nat) (b : list byte) : list byte :=
  firstn (j - i) (skipn i b).

(** [io.ReadFull] of [n] bytes from a stream: the bytes and the rest of
    the stream, [None] when fewer than [n] bytes are left. *)
Definition ReadFull (stream : list byte) (n : nat)
    : option (list byte * list byte) :=
  if (n <=? length stream)%nat then Some (firstn n stream, skipn n stream)
  else None.

Definition parseFloat (b : list byte) : float :=
  match ParseFloat (TrimSpace b) with
  | Some f => f
  | None => 0%float
  end.

Definition parseInt (b : list byte) : Z :=
  match Atoi (TrimSpace b) with
  | Some i => i
  | None => 0
  end.

Definition set_Label v s :=
  mkSignal v (TransducerType s) (PhysicalDimension s) (PhysicalMin s)
           (PhysicalMax s) (DigitalMin s) (DigitalMax s) (Prefiltering s)
           (SamplesPerRecord s) (Reserved s).
Definition set_TransducerType v s :=
  mkSignal (Label s) v (PhysicalDimension s) (PhysicalMin s)
           (PhysicalMax s) (DigitalMin s) (DigitalMax s) (Prefiltering s)
           (SamplesPerRecord s) (Reserved s).
Definition set_PhysicalDimension v s :=
  mkSignal (Label s) (TransducerType s) v (PhysicalMin s)
           (PhysicalMax s) (DigitalMin s) (DigitalMax s) (Prefiltering s)
           (SamplesPerRecord s) (Reserved s).
Definition set_PhysicalMin v s :=
  mkSignal (Label s) (TransducerType s) (PhysicalDimension s) v
           (PhysicalMax s) (DigitalMin s) (DigitalMax s) (Prefiltering s)
           (SamplesPerRecord s) (Reserved s).
Definition set_PhysicalMax v s :=
  mkSignal (Label s) (TransducerType s) (PhysicalDimension s) (PhysicalMin s)
           v (DigitalMin s) (DigitalMax s) (Prefiltering s)
           (SamplesPerRecord s) (Reserved s).
Definition set_DigitalMin v s :=
  mkSignal (Label s) (TransducerType s) (PhysicalDimension s) (PhysicalMin s)
           (PhysicalMax s) v (DigitalMax s) (Prefiltering s)
           (SamplesPerRecord s) (Reserved s).
Definition set_DigitalMax v s :=
  mkSignal (Label s) (TransducerType s) (PhysicalDimension s) (PhysicalMin s)
           (PhysicalMax s) (DigitalMin s) v (Prefiltering s)
           (SamplesPerRecord s) (Reserved s).
Definition set_Prefiltering v s :=
  mkSignal (Label s) (TransducerType s) (PhysicalDimension s) (PhysicalMin s)
           (PhysicalMax s) (DigitalMin s) (DigitalMax s) v
           (SamplesPerRecord s) (Reserved s).
Definition set_SamplesPerRecord v s :=
  mkSignal (Label s) (TransducerType s) (PhysicalDimension s) (PhysicalMin s)
           (PhysicalMax s) (DigitalMin s) (DigitalMax s) (Prefiltering s)
           v (Reserved s).
Definition set_Reserved v s :=
  mkSignal (Label s) (TransducerType s) (PhysicalDimension s) (PhysicalMin s)
           (PhysicalMax s) (DigitalMin s) (DigitalMax s) (Prefiltering s)
           (SamplesPerRecord s) v.

(** One [for i := 0; i < signalCount; i++] loop of [Open]: read [width]
    bytes for every signal in turn and store what they decode to in
    [hdr.Signals[i]]. *)
Fixpoint readSignals (width : nat) (store : list byte -> Signal -> Signal)
    (sigs : list Signal) (stream : list byte)
    : error + (list Signal * list byte) :=
  match sigs with
  | [] => inr ([], stream)
  | s :: rest =>
      match ReadFull stream width with
      | None => inl ErrReadingSignalHeaders
      | Some (b, stream') =>
          match readSignals width store rest stream' with
          | inl e => inl e
          | inr (rest', stream'') => inr (store b s :: rest', stream'')
          end
      end
  end.

Record Reader : Type := mkReader {
  r : list byte;
  rhdr : Header
}.

Notation "'do' x <- m ; k" :=
  (match m with inl e => inl e | inr x => k end)
  (at level 10, x pattern, m at level 100, k at level 200).

(** The ten per-signal blocks, in the order [Open] reads them. *)
Definition readSignalHeaders (sigs : list Signal) (stream : list byte)
    : error + (list Signal * list byte) :=
  do (sigs, stream) <-
     readSignals 16 (fun b => set_Label (TrimSpace b)) sigs stream;
  do (sigs, stream) <-
     readSignals 80 (fun b => set_TransducerType (TrimSpace b)) sigs stream;
  do (sigs, stream) <-
     readSignals 8 (fun b => set_PhysicalDimension (TrimSpace b)) sigs stream;
  do (sigs, stream) <-
     readSignals 8 (fun b => set_PhysicalMin (parseFloat b)) sigs stream;
  do (sigs, stream) <-
     readSignals 8 (fun b => set_PhysicalMax (parseFloat b)) sigs stream;
  do (sigs, stream) <-
     readSignals 8 (fun b => set_DigitalMin (parseInt b)) sigs stream;
  do (sigs, stream) <-
     readSignals 8 (fun b => set_DigitalMax (parseInt b)) sigs stream;
  do (sigs, stream) <-
     readSignals 80 (fun b => set_Prefiltering (TrimSpace b)) sigs stream;
  do (sigs, stream) <-
     readSignals 8 (fun b => set_SamplesPerRecord (parseInt b)) sigs stream;
  readSignals 32 (fun b => set_Reserved (TrimSpace b)) sigs stream.

(** [Open]: the header is read sequentially from the store's current
    offset.  The reader keeps the store's contents: every later access
    seeks to an absolute offset first. *)
Definition Open (f : IO.File) : result Reader :=
  let stream := skipn (IO.offset f) (IO.contents f) in
  match ReadFull stream 256 with
  | None => Err ErrReadingHeader
  | Some (b, stream) =>
      let version := TrimSpace (slice 0 8 b) in
      let patientID := TrimSpace (slice 8 88 b) in
      let recordingID := TrimSpace (slice 88 168 b) in
      let dateStr := TrimSpace (slice 168 176 b) in
      let timeStr := TrimSpace (slice 176 184 b) in
      match Parse_date dateStr with
      | None => Err ErrParsingStartDate
      | Some startDate =>
      match Parse_clock timeStr with
      | None => Err ErrParsingStartTime
      | Some startTime =>
      let start :=
        Date_UTC (Year startDate) (Month startDate) (Day startDate)
                 (Hour startTime) (Minute startTime) (Second startTime) in
      match Atoi (TrimSpace (slice 184 192 b)) with
      | None => Err ErrParsingHeaderBytes
      | Some headerBytes =>
      match Atoi (TrimSpace (slice 236 244 b)) with
      | None => Err ErrParsingDataRecords
      | Some numDataRecords =>
      match ParseDuration (TrimSpace (slice 244 252 b) ++ str "s") with
      | None => Err ErrParsingDuration
      | Some duration =>
      match Atoi (TrimSpace (slice 252 256 b)) with
      | None => Err ErrParsingSignalCount
      | Some signalCount =>
      if signalCount <? 0 then Panic
      else
        let sigs := repeat zeroSignal (Z.to_nat signalCount) in
        match readSignalHeaders sigs stream with
        | inl e => Err e
        | inr (sigs, _) =>
            Ok (mkReader (IO.contents f)
                  (mkHeader version patientID recordingID start headerBytes
                            duration numDataRecords signalCount sigs))
        end
      end end end end end end
  end.

Record SignalReader : Type := mkSignalReader {
  sr_r : list byte;
  sr_hdr : Header;
  signalIndex : Z;
  currentRecord : Z;
  currentSample : Z;
  recordSize : Z;
  signalOffset : Z;
  samplesPerRecord : Z
}.

(** The loop of [Signal] over [er.hdr.Signals]: the record size and the
    offset of signal [signalIndex], accumulated in [int]. *)
Fixpoint layoutFrom (signalIndex : Z) (i : Z) (sigs : list Signal)
    (recordSize signalOffset : Z) : Z * Z :=
  match sigs with
  | [] => (recordSize, signalOffset)
  | sig :: rest =>
      let signalOffset :=
        if i <? signalIndex
        then GoInt.add signalOffset (GoInt.mul (SamplesPerRecord sig) 2)
        else signalOffset in
      let recordSize := GoInt.add recordSize (GoInt.mul (SamplesPerRecord sig) 2) in
      layoutFrom signalIndex (i + 1) rest recordSize signalOffset
  end.

(** [Reader.Signal]. *)
Definition Reader_Signal (er : Reader) (index : Z) : result SignalReader :=
  let sigs := Signals (rhdr er) in
  if (index <? 0) || (index >=? Z.of_nat (length sigs)) then Err ErrSignalIndex
  else
    match nth_error sigs (Z.to_nat index) with
    | None => Panic
    | Some signal =>
        let '(recordSize, signalOffset) := layoutFrom index 0 sigs 0 0 in
        Ok (mkSignalReader (r er) (rhdr er) index 0 0 recordSize signalOffset
                           (SamplesPerRecord signal))
    end.

(** [data[n] = v]. *)
Fixpoint setNth (n : nat) (v : float) (data : list float) : list float :=
  match data, n with
  | [], _ => []
  | _ :: rest, O => v :: rest
  | x :: rest, S n' => x :: setNth n' v rest
  end.

Definition advance (sr : SignalReader) : SignalReader :=
  let sample := GoInt.add (currentSample sr) 1 in
  if sample >=? samplesPerRecord sr then
    mkSignalReader (sr_r sr) (sr_hdr sr) (signalIndex sr)
                   (GoInt.add (currentRecord sr) 1) 0
                   (recordSize sr) (signalOffset sr) (samplesPerRecord sr)
  else
    mkSignalReader (sr_r sr) (sr_hdr sr) (signalIndex sr)
                   (currentRecord sr) sample
                   (recordSize sr) (signalOffset sr) (samplesPerRecord sr).

(** The offset [pos] that [Read] seeks to, computed in [int64]. *)
Definition samplePos (sr : SignalReader) : Z :=
  GoInt.add
    (GoInt.add
       (GoInt.add (HeaderBytes (sr_hdr sr))
                  (GoInt.mul (currentRecord sr) (recordSize sr)))
       (signalOffset sr))
    (GoInt.mul (currentSample sr) 2).

(** [int16(binary.LittleEndian.Uint16(buf))]. *)
Definition decodeInt16 (buf : list byte) : Z :=
  match buf with
  | [b0; b1] => GoInt.wrap16 (byteVal b0 + 256 * byteVal b1)
  | _ => 0
  end.

Record ReadState : Type := mkReadState {
  rs_reader : SignalReader;
  rs_data : list float;
  rs_n : nat;
  rs_err : result unit
}.

(** The loop [for n < len(data)] of [Read], with [k] slots still to
    fill. *)
Fixpoint readLoop (k : nat) (n : nat) (sr : SignalReader)
    (data : list float) : ReadState :=
  match k with
  | O => mkReadState sr data n (Ok tt)
  | S k' =>
      if currentRecord sr >=? DataRecords (sr_hdr sr) then
        mkReadState sr data n (Err EOF)
      else
        let pos := samplePos sr in
        if pos <? 0 then mkReadState sr data n (Err ErrSeeking)
        else
          match IO.readAt (sr_r sr) pos 2 with
          | None => mkReadState sr data n (Err ErrReadingSample)
          | Some buf =>
              let digitalValue := decodeInt16 buf in
              match nth_error (Signals (sr_hdr sr))
                              (Z.to_nat (signalIndex sr)) with
              | None => mkReadState sr data n Panic
              | Some signal =>
                  let v :=
                    convertDigitalToPhysical digitalValue
                      (DigitalMin signal) (DigitalMax signal)
                      (PhysicalMin signal) (PhysicalMax signal) in
                  readLoop k' (S n) (advance sr) (setNth n v data)
              end
          end
  end.

(** [SignalReader.Read]: the reader and the buffer afterwards, the
    count returned and the error returned. *)
Definition Read (sr : SignalReader) (data : list float) : ReadState :=
  readLoop (length data) 0 sr data.

End ReaderDefs.


(** ** A reference implementation of the library interface

    Executable stand-ins for the library functions, exact on the inputs
    they accept: decimal notation without exponent for [ParseFloat], whole
    seconds for [ParseDuration], Gregorian dates of the years 1969 to 2068
    held as calendar fields for [Time]. The [float64] to [int16]
    conversion is the one of the gc compiler on amd64: truncation to 32
    bits, whose low 16 bits are kept. *)

Module Ref.

Import Strconv.

Definition roundHalfEven (num den : Z) : Z :=
  let q := num / den in
  let rm := num mod den in
  if 2 * rm <? den then q
  else if den <? 2 * rm then q + 1
  else if Z.even q then q else q + 1.

(** Sign and magnitude of [f * k] rounded to an integer, ties to even. *)
Definition scaled (k : Z) (f : float) : option (bool * Z) :=
  match Prim2SF f with
  | S754_zero s => Some (s, 0)
  | S754_finite s m e =>
      Some (s, if 0 <=? e then Zpos m * 2 ^ e * k
               else roundHalfEven (Zpos m * k) (2 ^ (- e)))
  | _ => None
  end.

Definition nonFinite (f : float) : gostring :=
  if PrimFloat.is_nan f then str "NaN"
  else if PrimFloat.ltb f 0%float then str "-Inf" else str "+Inf".

Definition twoDigits (n : Z) : gostring :=
  [digitChar (n / 10 mod 10); digitChar (n mod 10)].

Definition Sprintf_2f (f : float) : gostring :=
  match scaled 100 f with
  | Some (s, n) =>
      (if s then str "-" else []) ++ formatUint (n / 100) ++ str "."
        ++ twoDigits (n mod 100)
  | None => nonFinite f
  end.

Definition Sprintf_0f (f : float) : gostring :=
  match scaled 1 f with
  | Some (s, n) => (if s then str "-" else []) ++ formatUint n
  | None => nonFinite f
  end.

(** The longest prefix of decimal digits and what follows it. *)
Fixpoint spanDigits (s : gostring) : gostring * gostring :=
  match s with
  | c :: rest =>
      if isDigit c then let '(ds, tl) := spanDigits rest in (c :: ds, tl)
      else ([], s)
  | [] => ([], [])
  end.

Definition digitsValue (ds : gostring) : Z :=
  fold_left (fun n c => n * 10 + (byteVal c - 48)) ds 0.

Definition ParseFloat (s : gostring) : option float :=
  let '(neg, body) :=
    match s with
    | c :: rest =>
        if byteVal c =? 45 then (true, rest)
        else if byteVal c =? 43 then (false, rest) else (false, s)
    | [] => (false, [])
    end in
  let '(ip, rest) := spanDigits body in
  let '(fp, rest) :=
    match rest with
    | c :: tl => if byteVal c =? 46 then spanDigits tl else ([], rest)
    | [] => ([], [])
    end in
  match rest with
  | _ :: _ => None
  | [] =>
      if ((length ip + length fp =? 0) || (15 <? length ip + length fp))%nat
      then None
      else
        let f := PrimFloat.div (GoInt.toFloat64 (digitsValue (ip ++ fp)))
                               (GoInt.toFloat64 (10 ^ Z.of_nat (length fp))) in
        Some (if neg then PrimFloat.opp f else f)
  end.

(** The integer part of a finite float. *)
Definition truncate (f : float) : option Z :=
  match Prim2SF f with
  | S754_zero _ => Some 0
  | S754_finite s m e =>
      let a := if 0 <=? e then Zpos m * 2 ^ e else Zpos m / 2 ^ (- e) in
      Some (if s then - a else a)
  | _ => None
  end.

Definition int16_of_float64 (f : float) : Z :=
  match truncate f with
  | Some z =>
      if (- 2 ^ 31 <=? z) && (z <? 2 ^ 31) then GoInt.wrap16 z else 0
  | None => 0
  end.

(** The least integer not below a finite float. *)
Definition ceiling (f : float) : option Z :=
  match Prim2SF f with
  | S754_zero _ => Some 0
  | S754_finite s m e =>
      if 0 <=? e then Some (if s then - (Zpos m * 2 ^ e) else Zpos m * 2 ^ e)
      else
        let d := 2 ^ (- e) in
        Some (if s then - (Zpos m / d) else (Zpos m + d - 1) / d)
  | _ => None
  end.

Definition ceilSeconds (d : Z) : Z :=
  let sec := Z.quot d 1000000000 in
  let nsec := Z.rem d 1000000000 in
  let f := PrimFloat.add (GoInt.toFloat64 sec)
             (PrimFloat.div (GoInt.toFloat64 nsec) 1e9%float) in
  match ceiling f with
  | Some z => z
  | None => GoInt.minInt
  end.

Definition ParseDuration (s : gostring) : option Z :=
  match rev s with
  | c :: rds =>
      if byteVal c =? 115 then
        match Atoi (rev rds) with
        | Some n =>
            if Z.abs n <=? GoInt.maxInt / 1000000000 then Some (n * 1000000000)
            else None
        | None => None
        end
      else None
  | [] => None
  end.

(** The UTF-8 encodings of the white space above U+007F that
    [unicode.IsSpace] accepts. *)
Definition unicodeSpaces : list (list Z) :=
  [ [194; 133]; [194; 160]; [225; 154; 128];
    [226; 128; 128]; [226; 128; 129]; [226; 128; 130]; [226; 128; 131];
    [226; 128; 132]; [226; 128; 133]; [226; 128; 134]; [226; 128; 135];
    [226; 128; 136]; [226; 128; 137]; [226; 128; 138];
    [226; 128; 168]; [226; 128; 169]; [226; 128; 175]; [226; 129; 159];
    [227; 128; 128] ].

Fixpoint hasPrefix (p : list Z) (s : gostring) : bool :=
  match p, s with
  | [], _ => true
  | x :: p', c :: s' => (byteVal c =? x) && hasPrefix p' s'
  | _ :: _, [] => false
  end.

(** The length of the white-space rune [s] starts with, [0] when it
    starts with none. *)
Definition spaceWidth (encodings : list (list Z)) (s : gostring) : nat :=
  match s with
  | [] => 0%nat
  | c :: _ =>
      if Strings.asciiSpace c then 1%nat
      else
        match find (fun p => hasPrefix p s) encodings with
        | Some p => length p
        | None => 0%nat
        end
  end.

Fixpoint trimLeftFuel (encodings : list (list Z)) (fuel : nat) (s : gostring)
    : gostring :=
  match fuel with
  | O => s
  | S fuel' =>
      match spaceWidth encodings s with
      | O => s
      | n => trimLeftFuel encodings fuel' (skipn n s)
      end
  end.

Definition trimLeft (s : gostring) : gostring :=
  trimLeftFuel unicodeSpaces (length s) s.

Definition trimRight (s : gostring) : gostring :=
  rev (trimLeftFuel (map (@rev Z) unicodeSpaces) (length s) (rev s)).

Definition TrimFunc_IsSpace (s : gostring) : gostring := trimRight (trimLeft s).

Record Civil : Type := mkCivil {
  c_year : Z; c_month : Z; c_day : Z;
  c_hour : Z; c_minute : Z; c_second : Z; c_nsec : Z
}.

Definition Format_date (t : Civil) : gostring :=
  twoDigits (c_day t) ++ str "." ++ twoDigits (c_month t) ++ str "."
    ++ twoDigits (c_year t mod 100).

Definition Format_clock (t : Civil) : gostring :=
  twoDigits (c_hour t) ++ str "." ++ twoDigits (c_minute t) ++ str "."
    ++ twoDigits (c_second t).

Definition isLeap (y : Z) : bool :=
  (y mod 4 =? 0) && (negb (y mod 100 =? 0) || (y mod 400 =? 0)).

Definition daysIn (m y : Z) : Z :=
  if m =? 2 then (if isLeap y then 29 else 28)
  else if (m =? 4) || (m =? 6) || (m =? 9) || (m =? 11) then 30 else 31.

Definition isDot (c : byte) : bool := byteVal c =? 46.

Definition num2 (a b : byte) : Z := (byteVal a - 48) * 10 + (byteVal b - 48).

Definition Parse_date (s : gostring) : option Civil :=
  match s with
  | [d1; d2; p1; m1; m2; p2; y1; y2] =>
      if isDigit d1 && isDigit d2 && isDot p1 && isDigit m1 && isDigit m2
         && isDot p2 && isDigit y1 && isDigit y2
      then
        let day := num2 d1 d2 in
        let month := num2 m1 m2 in
        let yy := num2 y1 y2 in
        let year := if 69 <=? yy then 1900 + yy else 2000 + yy in
        if (1 <=? month) && (month <=? 12) && (1 <=? day)
           && (day <=? daysIn month year)
        then Some (mkCivil year month day 0 0 0 0)
        else None
      else None
  | _ => None
  end.

(** A fractional second after the seconds is accepted and dropped. *)
Definition fractionOK (s : gostring) : bool :=
  match s with
  | [] => true
  | c :: ds =>
      ((byteVal c =? 46) || (byteVal c =? 44))
      && negb (length ds =? 0)%nat && forallb isDigit ds
  end.

Definition clockTail (hour : Z) (s : gostring) : option Civil :=
  match s with
  | p1 :: m1 :: m2 :: p2 :: s1 :: s2 :: tl =>
      if isDot p1 && isDigit m1 && isDigit m2 && isDot p2 && isDigit s1
         && isDigit s2 && fractionOK tl
         && (hour <? 24) && (num2 m1 m2 <? 60) && (num2 s1 s2 <? 60)
      then Some (mkCivil 0 1 1 hour (num2 m1 m2) (num2 s1 s2) 0)
      else None
  | _ => None
  end.

Definition Parse_clock (s : gostring) : option Civil :=
  match s with
  | h1 :: h2 :: tl =>
      if isDigit h1 then
        if isDigit h2 then clockTail (num2 h1 h2) tl
        else clockTail (byteVal h1 - 48) (h2 :: tl)
      else None
  | _ => None
  end.

Definition Date_UTC (y m d hh mm ss : Z) : Civil := mkCivil y m d hh mm ss 0.

Definition time : TimeRep := Build_TimeRep Civil.

Definition lib : GoLib (T := time) :=
  Build_GoLib time Ref.Sprintf_2f Ref.Sprintf_0f Ref.ParseFloat
    Ref.int16_of_float64 Ref.Format_date Ref.Format_clock Ref.Parse_date Ref.Parse_clock
    Ref.Date_UTC c_year c_month c_day c_hour c_minute c_second
    Ref.ceilSeconds Ref.ParseDuration Ref.TrimFunc_IsSpace Ref.trimRight.

End Ref.

(** ** Sample data: the header and records of the package's writer test *)

Module Demo.

Definition signal : Signal :=
  mkSignal (str "EEG Fpz-Cz") (str "AgAgCl electrode") (str "uV")
           (-500)%float 500%float (-2048) 2047 [] 256 [].

Definition startTime : Ref.Civil := Ref.mkCivil 2024 5 17 13 4 59 0.

(** One signal, records of 60 seconds; [DataRecords] and [HeaderBytes] are
    left at values the writer has to replace. *)
Definition header : Header (T := Ref.time) :=
  mkHeader (T := Ref.time) (str "0") (str "Patient X") (str "Recording 1")
           startTime
           0 60000000000 7 1 [signal].

(** A header without signals. *)
Definition bare : Header (T := Ref.time) :=
  mkHeader (T := Ref.time) (str "0") (str "Patient X") (str "Recording 1")
           startTime
           0 1000000000 0 0 [].

(** The same with a version tag of nine bytes. *)
Definition overlong : Header (T := Ref.time) :=
  mkHeader (T := Ref.time) (str "EDF+C v.2") (str "Patient X")
           (str "Recording 1")
            startTime 0 1000000000 0 0 [].

Definition emptyFile : IO.File := IO.mkFile [] 0.

(** The store after [Create] has written the header of [header], rewound. *)
Definition encoded : IO.File :=
  IO.Rewind (fst (WriterGo.Create (L := Ref.lib) emptyFile header)).

(** The reader [Open] returns for it. *)
Definition decoded : Reader (T := Ref.time) :=
  match Open (L := Ref.lib) encoded with
  | Ok rd => rd
  | _ => mkReader (T := Ref.time) [] header
  end.

(** The same store with the text "abcd" as its signal count. *)
Definition badCount : IO.File :=
  IO.mkFile (firstn 252 (IO.contents encoded) ++ str "abcd"
               ++ skipn 256 (IO.contents encoded)) 0.

(** The header as it stands once two records are written and the writer is
    closed. *)
Definition finalHeader : Header (T := Ref.time) :=
  mkHeader (T := Ref.time) (str "0") (str "Patient X") (str "Recording 1")
           startTime 512 60000000000 2 1 [signal].

(** [header] with a note in the signal's reserved field. *)
Definition annotated : Header (T := Ref.time) :=
  mkHeader (T := Ref.time) (str "0") (str "Patient X") (str "Recording 1")
           startTime 0 60000000000 7 1
           [set_Reserved (str "x") signal].

(** A writer on an empty store, before any header is written. *)
Definition writer0 : Writer (T := Ref.time) :=
  mkWriter (T := Ref.time) emptyFile header 0.

(** The physical values [base], [base + 1], ..., [base + 255]. *)
Definition ramp (base : Z) : list float :=
  map (fun i => GoInt.toFloat64 (base + Z.of_nat i)) (seq 0 256).

(** The store after [Create], two records ([0..255] and [256..511]) and
    [Close], rewound. *)
Definition recorded : IO.File :=
  match WriterGo.Create (L := Ref.lib) emptyFile header with
  | (_, Ok ew) =>
      let ew := fst (WriteRecord (L := Ref.lib) ew [ramp 0]) in
      let ew := fst (WriteRecord (L := Ref.lib) ew [ramp 256]) in
      IO.Rewind (w (fst (WriterGo.Close (L := Ref.lib) ew)))
  | _ => emptyFile
  end.

(** The writer [Create] returns for [header] on an empty store, and the
    writer after the two records. *)
Definition created : Writer (T := Ref.time) :=
  match WriterGo.Create (L := Ref.lib) emptyFile header with
  | (_, Ok ew) => ew
  | _ => writer0
  end.

Definition twoRecords : list (list (list float)) := [[ramp 0]; [ramp 256]].

Definition written : Writer (T := Ref.time) :=
  match writeAll (L := Ref.lib) created twoRecords with
  | Some ew => ew
  | None => created
  end.

Definition reader : Reader (T := Ref.time) :=
  mkReader (T := Ref.time) (IO.contents recorded) finalHeader.

(** The reader of signal 0 that [reader.Signal(0)] returns. *)
Definition signalReader : SignalReader (T := Ref.time) :=
  mkSignalReader (T := Ref.time) (IO.contents recorded) finalHeader
                 0 0 0 512 0 256.

End Demo.

(** ** Sample data for the record count *)

Module Counts.

(** The header of [Demo.header] with a start time that has nanoseconds. *)
Definition stamped : Header (T := Ref.time) :=
  mkHeader (T := Ref.time) (str "0") (str "Patient X") (str "Recording 1")
           (Ref.mkCivil 2024 5 17 13 4 59 123456789)
           0 60000000000 7 1 [Demo.signal].

Definition created : Writer (T := Ref.time) :=
  match WriterGo.Create (L := Ref.lib) Demo.emptyFile stamped with
  | (_, Ok ew) => ew
  | _ => mkWriter (T := Ref.time) Demo.emptyFile stamped 0
  end.

Definition written : Writer (T := Ref.time) :=
  match writeAll (L := Ref.lib) created Demo.twoRecords with
  | Some ew => ew
  | None => created
  end.






End Counts.

(** ** A sink that runs full *)

Module Full.

(** A sink that holds at most [cap] bytes and reports an error once it
    is full. *)
Definition capWrite (cap : nat) (held bs : list byte)
    : list byte * nat * option unit :=
  let room := (cap - length held)%nat in
  if (length bs <=? room)%nat then (held ++ bs, length bs, None)
  else (held ++ firstn room bs, room, Some tt).

Definition capSeek0 (held : list byte) : list byte * option unit :=
  (held, None).

Definition writer : OnSink.Writer (T := Ref.time) (list byte) :=
  OnSink.mkWriter [] Demo.header 0.

End Full.

(** * Properties *)

(** ** Integer wrap-around *)

Lemma wrap64_id z : GoInt.inInt z -> GoInt.wrap64 z = z.
Proof.
  unfold GoInt.inInt, GoInt.minInt, GoInt.maxInt, GoInt.wrap64, GoInt.wrap. intros H.
  change (2 ^ (64 - 1)) with 9223372036854775808.
  change (2 ^ 64) with 18446744073709551616.
  change (2 ^ 63) with 9223372036854775808 in H.
  rewrite Z.mod_small; lia.
Qed.

Lemma wrap64_range z : GoInt.inInt (GoInt.wrap64 z).
Proof.
  unfold GoInt.inInt, GoInt.minInt, GoInt.maxInt, GoInt.wrap64, GoInt.wrap.
  change (2 ^ (64 - 1)) with 9223372036854775808.
  change (2 ^ 64) with 18446744073709551616.
  change (2 ^ 63) with 9223372036854775808.
  pose proof (Z.mod_pos_bound (z + 9223372036854775808) 18446744073709551616).
  lia.
Qed.

(** ** Sample scaling *)

Section SampleCodecFacts.
Context {T : TimeRep} {L : GoLib}.

(** C7: [convertPhysicalToDigital] returns 0 whenever the physical bounds
    compare equal ([pmax == pmin] on [float64]) and
    [convertDigitalToPhysical] returns 0 whenever the digital bounds are
    equal, whatever the sample and the other two bounds are. *)
Theorem equal_bounds_convert_to_zero
    (physical pmin pmax : float) (dmin dmax : Z)
    (digital dmin' dmax' : Z) (pmin' pmax' : float) :
  PrimFloat.eqb pmax pmin = true ->
  dmax' = dmin' ->
  convertPhysicalToDigital physical pmin pmax dmin dmax = 0
  /\ convertDigitalToPhysical digital dmin' dmax' pmin' pmax' = 0%float.
Proof.
  intros Hp Hd. split.
  - unfold convertPhysicalToDigital. now rewrite Hp.
  - unfold convertDigitalToPhysical. subst dmax'. now rewrite Z.eqb_refl.
Qed.

End SampleCodecFacts.

Lemma equal_bounds_convert_to_zero_witness :
  convertPhysicalToDigital (L := Ref.lib) 37.5%float 10%float 10%float (-2048) 2047 = 0
  /\ convertDigitalToPhysical 1234 7 7 (-500)%float 500%float = 0%float.
Proof.
  apply (equal_bounds_convert_to_zero (L := Ref.lib)); reflexivity.
Defined.

(** ** The record writer's argument checks *)

(** The number of samples in a record, as a mathematical integer. *)
Definition sampleCount (signals : list (list float)) : Z :=
  fold_right (fun signal total => Z.of_nat (length signal) + total) 0 signals.

Lemma sampleCount_nonneg signals : 0 <= sampleCount signals.
Proof. induction signals as [|s rest IH]; simpl; lia. Qed.

Section WriterChecks.
Context {T : TimeRep} {L : GoLib}.

Lemma totalSamples_from (signals : list (list float)) (acc : Z) :
  0 <= acc ->
  acc + sampleCount signals <= GoInt.maxInt ->
  fold_left (fun total signal => GoInt.add total (Z.of_nat (length signal)))
            signals acc
  = acc + sampleCount signals.
Proof.
  revert acc. induction signals as [|s rest IH]; intros acc H0 Hmax; simpl in *.
  - lia.
  - pose proof (sampleCount_nonneg rest).
    unfold GoInt.add at 2. rewrite wrap64_id.
    + rewrite IH; lia.
    + unfold GoInt.inInt, GoInt.minInt, GoInt.maxInt in *. lia.
Qed.

Lemma totalSamples_exact (signals : list (list float)) :
  sampleCount signals <= GoInt.maxInt ->
  totalSamples signals = sampleCount signals.
Proof.
  intros H. unfold totalSamples. rewrite totalSamples_from; lia.
Qed.

(** C8: a record whose number of channels differs from the header's
    [SignalCount] is refused with the signal-count error, and the writer
    (its store, header and record counter) is left exactly as it was. *)
Theorem wrong_channel_count_rejected (ew : Writer) (signals : list (list float)) :
  Z.of_nat (length signals) <> SignalCount (hdr ew) ->
  exists e,
    WriteRecord ew signals = (ew, Err e)
    /\ kindOf e = SignalCountMismatch.
Proof.
  intros Hne. unfold WriteRecord.
  destruct (Z.eqb_spec (Z.of_nat (length signals)) (SignalCount (hdr ew))) as [E|_];
    [contradiction|].
  simpl. eexists. split; reflexivity.
Qed.

(** Errors of a buffered-writer computation are all of the too-long kind. *)
Definition onlyTooLong {A} (m : WriterChecked.W A) : Prop :=
  forall b b' e, m b = (b', inl e) -> kindOf e = FieldTooLong.

Lemma onlyTooLong_bind {A B} (m : WriterChecked.W A) (k : A -> WriterChecked.W B) :
  onlyTooLong m -> (forall a, onlyTooLong (k a)) ->
  onlyTooLong (WriterChecked.bind m k).
Proof.
  unfold onlyTooLong, WriterChecked.bind. intros Hm Hk b b' e.
  destruct (m b) as [b1 [e1|a]] eqn:E; intros H.
  - inversion H; subst. eapply Hm; eauto.
  - eapply Hk; eauto.
Qed.

Lemma onlyTooLong_writeChecked name value width :
  onlyTooLong (WriterChecked.writeChecked name value width).
Proof.
  unfold onlyTooLong, WriterChecked.writeChecked. intros b b' e.
  destruct (width <? length value)%nat; intros H; inversion H; reflexivity.
Qed.

Lemma onlyTooLong_writePhysical name val i signal :
  onlyTooLong (WriterChecked.writePhysical name val i signal).
Proof.
  unfold onlyTooLong, WriterChecked.writePhysical, WriterChecked.formatPhysicalValue.
  intros b b' e.
  destruct (8 <? length (Sprintf_2f (val signal)))%nat;
    [destruct (8 <? length (Sprintf_0f (val signal)))%nat|];
    intros H; inversion H; reflexivity.
Qed.

Lemma onlyTooLong_forSignals body i sigs :
  (forall j s, onlyTooLong (body j s)) ->
  onlyTooLong (WriterChecked.forSignals body i sigs).
Proof.
  intros Hb. revert i. induction sigs as [|s rest IH]; intros i; simpl.
  - intros b b' e H. inversion H.
  - apply onlyTooLong_bind; auto.
Qed.

Lemma onlyTooLong_encodeStart (h : Header) :
  onlyTooLong (WriterChecked.encodeStart h).
Proof.
  unfold WriterChecked.encodeStart.
  repeat (first [apply onlyTooLong_bind; [|intros ?] | apply onlyTooLong_writeChecked]).
Qed.

Lemma onlyTooLong_encodeRest (h : Header) :
  onlyTooLong (WriterChecked.encodeRest h).
Proof.
  unfold WriterChecked.encodeRest.
  repeat (first [ apply onlyTooLong_bind; [|intros ?]
                | apply onlyTooLong_writeChecked
                | apply onlyTooLong_forSignals; intros ? ?
                | apply onlyTooLong_writePhysical ]).
Qed.

Lemma WriterChecked_errors_kind (ew : Writer) (e : error) :
  snd (WriterChecked.writeHeader ew) = Some e -> kindOf e = FieldTooLong.
Proof.
  unfold WriterChecked.writeHeader.
  destruct (WriterChecked.encodeStart _ _) as [b1 [e1|u1]] eqn:E1; simpl.
  - intros H; inversion H; subst.
    eapply onlyTooLong_encodeStart; eauto.
  - destruct (WriterChecked.encodeRest _ _) as [b2 [e2|u2]] eqn:E2; simpl;
      intros H; inversion H; subst.
    eapply onlyTooLong_encodeRest; eauto.
Qed.

(** C9: a record with the right number of channels whose samples take more
    than 61,440 bytes (two per sample, the count within [int]) is refused
    with the record-too-large error before anything is written: the writer
    is left exactly as it was.  Header encoding applies no such limit: the
    plain encoder returns no error at all and the checking encoder only
    errors of the field-too-long kind. *)
Theorem record_too_large_rejected (ew : Writer) (signals : list (list float)) :
  Z.of_nat (length signals) = SignalCount (hdr ew) ->
  2 * sampleCount signals <= GoInt.maxInt ->
  61440 < 2 * sampleCount signals ->
  (exists e,
     WriteRecord ew signals = (ew, Err e) /\ kindOf e = RecordTooLarge)
  /\ (forall ew', snd (WriterGo.writeHeader ew') = None)
  /\ (forall ew' e, snd (WriterChecked.writeHeader ew') = Some e ->
                    kindOf e <> RecordTooLarge).
Proof.
  intros Hlen Hfit Hbig. split; [|split].
  - unfold WriteRecord. rewrite Hlen, Z.eqb_refl. simpl.
    pose proof (sampleCount_nonneg signals).
    rewrite totalSamples_exact by lia.
    unfold GoInt.mul. rewrite wrap64_id
      by (unfold GoInt.inInt, GoInt.minInt, GoInt.maxInt in *; lia).
    destruct (Z.gtb_spec (sampleCount signals * 2) 61440) as [_|Hle]; [|lia].
    eexists. split; reflexivity.
  - intros ew'. reflexivity.
  - intros ew' e H. rewrite (WriterChecked_errors_kind _ _ H). discriminate.
Qed.

End WriterChecks.

Lemma wrong_channel_count_rejected_witness :
  exists e,
    WriteRecord (L := Ref.lib) Demo.writer0 [] = (Demo.writer0, Err e)
    /\ kindOf e = SignalCountMismatch.
Proof.
  apply (wrong_channel_count_rejected (L := Ref.lib)). vm_compute. discriminate.
Defined.

Lemma record_too_large_rejected_witness :
  (exists e,
     WriteRecord (L := Ref.lib) Demo.writer0 [repeat 0%float (Z.to_nat 30721)]
       = (Demo.writer0, Err e)
     /\ kindOf e = RecordTooLarge)
  /\ (forall ew', snd (WriterGo.writeHeader (L := Ref.lib) ew') = None)
  /\ (forall ew' e, snd (WriterChecked.writeHeader (L := Ref.lib) ew') = Some e ->
                    kindOf e <> RecordTooLarge).
Proof.
  apply (record_too_large_rejected (L := Ref.lib)); vm_compute;
    first [reflexivity | discriminate].
Defined.

(** ** Width checks of the header encoders *)

Section WidthChecks.
Context {T : TimeRep} {L : GoLib}.

Definition signalTextFits (s : Signal) : Prop :=
  (length (Label s) <= 16)%nat
  /\ (length (TransducerType s) <= 80)%nat
  /\ (length (PhysicalDimension s) <= 8)%nat
  /\ (length (Prefiltering s) <= 80)%nat.

(** Every text field of the header is at most as long, in bytes, as its
    field on the wire. *)
Definition textFits (h : Header) : Prop :=
  (length (Version h) <= 8)%nat
  /\ (length (PatientID h) <= 80)%nat
  /\ (length (RecordingID h) <= 80)%nat
  /\ Forall signalTextFits (Signals h).

Lemma bind_ok_inv {A B} (m : WriterChecked.W A) (k : A -> WriterChecked.W B)
    b b' x :
  WriterChecked.bind m k b = (b', inr x) ->
  exists b1 a, m b = (b1, inr a) /\ k a b1 = (b', inr x).
Proof.
  unfold WriterChecked.bind. destruct (m b) as [b1 [e|a]]; intros H.
  - discriminate.
  - eauto.
Qed.

Lemma writeChecked_ok_inv name value width b b' x :
  WriterChecked.writeChecked name value width b = (b', inr x) ->
  (length value <= width)%nat
  /\ b' = IO.WriteString b (Strings.padRight width value).
Proof.
  unfold WriterChecked.writeChecked.
  destruct (Nat.ltb_spec width (length value)) as [Hlt|Hle];
    intros Heq; inversion Heq.
  split; [lia | reflexivity].
Qed.

Lemma forSignals_ok_inv (P : Signal -> Prop) body i sigs b b' x :
  (forall j s b1 b2 y, body j s b1 = (b2, inr y) -> P s) ->
  WriterChecked.forSignals body i sigs b = (b', inr x) ->
  Forall P sigs.
Proof.
  intros Hbody. revert i b. induction sigs as [|s rest IH]; intros i b H.
  - constructor.
  - simpl in H. apply bind_ok_inv in H. destruct H as (b1 & a & H1 & H2).
    constructor; eauto.
Qed.

Ltac split_binds H :=
  repeat match type of H with
         | WriterChecked.bind _ _ _ = (_, inr _) =>
             let b := fresh "b" in let a := fresh "a" in
             let H1 := fresh "Hstep" in
             apply bind_ok_inv in H; destruct H as (b & a & H1 & H)
         end.

Lemma WriterChecked_ok_textFits (ew : Writer) :
  snd (WriterChecked.writeHeader ew) = None -> textFits (hdr ew).
Proof.
  unfold WriterChecked.writeHeader.
  destruct (WriterChecked.encodeStart _ _) as [b1 [e1|u1]] eqn:E1; simpl;
    [discriminate|].
  destruct (WriterChecked.encodeRest _ _) as [b2 [e2|u2]] eqn:E2; simpl;
    [discriminate|]. intros _.
  unfold WriterChecked.encodeStart in E1. unfold WriterChecked.encodeRest in E2.
  split_binds E1. split_binds E2.
  repeat match goal with
         | H : WriterChecked.writeChecked _ _ _ _ = _ |- _ =>
             apply writeChecked_ok_inv in H; destruct H as [H _]
         end.
  unfold textFits. split; [assumption|]. split; [assumption|].
  split; [assumption|].
  assert (HL : Forall (fun s => (length (Label s) <= 16)%nat) (Signals (hdr ew))).
  { eapply forSignals_ok_inv; [|exact Hstep8].
    intros j s c1 c2 y Hc. now apply writeChecked_ok_inv in Hc. }
  assert (HT : Forall (fun s => (length (TransducerType s) <= 80)%nat)
                      (Signals (hdr ew))).
  { eapply forSignals_ok_inv; [|exact Hstep9].
    intros j s c1 c2 y Hc. now apply writeChecked_ok_inv in Hc. }
  assert (HD : Forall (fun s => (length (PhysicalDimension s) <= 8)%nat)
                      (Signals (hdr ew))).
  { eapply forSignals_ok_inv; [|exact Hstep10].
    intros j s c1 c2 y Hc. now apply writeChecked_ok_inv in Hc. }
  assert (HP : Forall (fun s => (length (Prefiltering s) <= 80)%nat)
                      (Signals (hdr ew))).
  { eapply forSignals_ok_inv; [|exact Hstep15].
    intros j s c1 c2 y Hc. now apply writeChecked_ok_inv in Hc. }
  rewrite Forall_forall in *. intros s Hs. unfold signalTextFits. auto.
Qed.

(** The checking encoder refuses every header with a text field longer
    than its width, with an error of the field-too-long kind. *)
Lemma WriterChecked_rejects_overlong (ew : Writer) :
  ~ textFits (hdr ew) ->
  exists e,
    snd (WriterChecked.writeHeader ew) = Some e /\ kindOf e = FieldTooLong.
Proof.
  intros Hbad.
  destruct (snd (WriterChecked.writeHeader ew)) as [e|] eqn:E.
  - exists e. split; [reflexivity|]. now apply WriterChecked_errors_kind with ew.
  - exfalso. apply Hbad. now apply WriterChecked_ok_textFits.
Qed.

End WidthChecks.

(** C1: writer.go's [writeHeader] pads with [fmt.Sprintf("%-8s", ...)] and
    checks no length.  For a header whose version tag has nine bytes
    [Create] succeeds, the nine bytes are written in full and the header
    on the store is 257 bytes long although [HeaderBytes] says 256.  The
    revised [writeHeader] refuses the same header with an error of the
    field-too-long kind. *)
Theorem WriterGo_writes_overlong_version :
  length (Version Demo.overlong) = 9%nat
  /\ match WriterGo.Create (L := Ref.lib) Demo.emptyFile Demo.overlong with
     | (sink, Ok ew) =>
         firstn 9 (IO.contents sink) = Version Demo.overlong
         /\ length (IO.contents sink) = 257%nat
         /\ HeaderBytes (hdr ew) = 256
     | _ => False
     end
  /\ match snd (WriterChecked.Create (L := Ref.lib) Demo.emptyFile Demo.overlong) with
     | Err e => kindOf e = FieldTooLong
     | _ => False
     end.
Proof.
  split; [reflexivity|]. split; vm_compute; auto.
Qed.

(** ** The decoder in closed form *)

Section DecoderFacts.
Context {T : TimeRep} {L : GoLib}.

(** What one per-signal loop of [Open] stores, when the stream is long
    enough. *)
Fixpoint storeAll (width : nat) (store : list byte -> Signal -> Signal)
    (sigs : list Signal) (stream : list byte) : list Signal :=
  match sigs with
  | [] => []
  | s :: rest =>
      store (firstn width stream) s
        :: storeAll width store rest (skipn width stream)
  end.

Lemma readSignals_eq width store sigs stream :
  readSignals width store sigs stream
  = if (length sigs * width <=? length stream)%nat
    then inr (storeAll width store sigs stream,
              skipn (length sigs * width) stream)
    else inl ErrReadingSignalHeaders.
Proof.
  revert stream. induction sigs as [|s rest IH]; intros stream.
  - reflexivity.
  - cbn [readSignals storeAll length]. unfold ReadFull.
    destruct (Nat.leb_spec width (length stream)) as [Hw|Hw].
    + rewrite IH, length_skipn.
      destruct (Nat.leb_spec (length rest * width) (length stream - width));
        destruct (Nat.leb_spec (S (length rest) * width) (length stream));
        try lia.
      * rewrite skipn_skipn. do 3 f_equal. lia.
      * reflexivity.
    + destruct (Nat.leb_spec (S (length rest) * width) (length stream));
        [lia | reflexivity].
Qed.

Lemma storeAll_length width store sigs stream :
  length (storeAll width store sigs stream) = length sigs.
Proof.
  revert stream. induction sigs as [|s rest IH]; intros; simpl; auto.
Qed.

Lemma storeAll_nth width store sigs stream i :
  nth_error (storeAll width store sigs stream) i
  = option_map (store (slice (i * width) (i * width + width) stream))
               (nth_error sigs i).
Proof.
  revert stream i. induction sigs as [|s rest IH]; intros stream i.
  - destruct i; reflexivity.
  - destruct i as [|i]; cbn [storeAll nth_error option_map].
    + unfold slice. simpl. now replace (width - 0)%nat with width by lia.
    + rewrite IH. unfold slice. rewrite skipn_skipn.
      do 2 f_equal.
      replace (S i * width + width - S i * width)%nat with width by lia.
      replace (i * width + width - i * width)%nat with width by lia.
      f_equal. f_equal. lia.
Qed.

Lemma slice_skipn a b c (s : list byte) :
  slice a b (skipn c s) = slice (c + a) (c + b) s.
Proof.
  unfold slice. rewrite skipn_skipn.
  replace (c + b - (c + a))%nat with (b - a)%nat by lia.
  f_equal. f_equal. lia.
Qed.

(** Signal [i]'s field of width [width], in the block that starts after
    [before] bytes per signal, of a header for [n] signals. *)
Definition fieldAt (n before width i : nat) (stream : list byte) : list byte :=
  slice (n * before + i * width) (n * before + i * width + width) stream.

(** Signal [i] as [Open] decodes it from the bytes after the first 256. *)
Definition decodeSignal (n : nat) (stream : list byte) (i : nat) : Signal :=
  mkSignal
    (Strings.TrimSpace (fieldAt n 0 16 i stream))
    (Strings.TrimSpace (fieldAt n 16 80 i stream))
    (Strings.TrimSpace (fieldAt n 96 8 i stream))
    (parseFloat (fieldAt n 104 8 i stream))
    (parseFloat (fieldAt n 112 8 i stream))
    (parseInt (fieldAt n 120 8 i stream))
    (parseInt (fieldAt n 128 8 i stream))
    (Strings.TrimSpace (fieldAt n 136 80 i stream))
    (parseInt (fieldAt n 216 8 i stream))
    (Strings.TrimSpace (fieldAt n 224 32 i stream)).

Lemma list_eq_nth {A} (l1 l2 : list A) :
  (forall i, nth_error l1 i = nth_error l2 i) -> l1 = l2.
Proof.
  revert l2. induction l1 as [|x l1 IH]; intros [|y l2] H.
  - reflexivity.
  - specialize (H 0%nat). discriminate.
  - specialize (H 0%nat). discriminate.
  - pose proof (H 0%nat) as H0. simpl in H0. inversion H0; subst.
    f_equal. apply IH. intros i. exact (H (S i)).
Qed.

Lemma nth_error_map_seq {A} (f : nat -> A) n i :
  nth_error (map f (seq 0 n)) i = if (i <? n)%nat then Some (f i) else None.
Proof.
  rewrite nth_error_map.
  destruct (Nat.ltb_spec i n) as [Hlt|Hge].
  - rewrite nth_error_nth' with (d := 0%nat) by (rewrite length_seq; lia).
    rewrite seq_nth by lia. reflexivity.
  - replace (nth_error (seq 0 n) i) with (@None nat); [reflexivity|].
    symmetry. apply nth_error_None. rewrite length_seq. lia.
Qed.

Lemma signal_ext (a b : Signal) :
  Label a = Label b ->
  TransducerType a = TransducerType b ->
  PhysicalDimension a = PhysicalDimension b ->
  PhysicalMin a = PhysicalMin b ->
  PhysicalMax a = PhysicalMax b ->
  DigitalMin a = DigitalMin b ->
  DigitalMax a = DigitalMax b ->
  Prefiltering a = Prefiltering b ->
  SamplesPerRecord a = SamplesPerRecord b ->
  Reserved a = Reserved b ->
  a = b.
Proof.
  destruct a, b; cbn. intros; subst; reflexivity.
Qed.

(** Reduce a field of a signal built by the setters, by need. *)
Ltac project_signal :=
  lazy beta iota delta
    [set_Label set_TransducerType set_PhysicalDimension set_PhysicalMin
     set_PhysicalMax set_DigitalMin set_DigitalMax set_Prefiltering
     set_SamplesPerRecord set_Reserved zeroSignal
     Label TransducerType PhysicalDimension PhysicalMin PhysicalMax
     DigitalMin DigitalMax Prefiltering SamplesPerRecord Reserved].

Lemma readSignalHeaders_eq (n : nat) (stream : list byte) :
  readSignalHeaders (repeat zeroSignal n) stream
  = if (n * 256 <=? length stream)%nat
    then inr (map (decodeSignal n stream) (seq 0 n), skipn (n * 256) stream)
    else inl ErrReadingSignalHeaders.
Proof.
  unfold readSignalHeaders.
  destruct (Nat.leb_spec (n * 256) (length stream)) as [Hok|Hshort].
  - do 10 (rewrite readSignals_eq;
           rewrite ?storeAll_length, ?repeat_length, ?length_skipn;
           match goal with
           | |- context [(?a <=? ?b)%nat] =>
               destruct (Nat.leb_spec a b); [|lia]
           end; cbv beta iota).
    f_equal. f_equal.
    + apply list_eq_nth. intros i.
      rewrite nth_error_map_seq.
      rewrite !storeAll_nth.
      destruct (Nat.ltb_spec i n) as [Hi|Hi];
        [ rewrite nth_error_repeat by lia
        | replace (nth_error (repeat zeroSignal n) i) with (@None Signal)
            by (symmetry; apply nth_error_None; rewrite repeat_length; lia) ].
      * cbn [option_map]. f_equal. unfold decodeSignal, fieldAt.
        rewrite !skipn_skipn, !slice_skipn.
        apply signal_ext; project_signal;
          match goal with
          | |- ?f (slice ?a ?b ?s) = ?f (slice ?c ?d ?s) =>
              apply (f_equal f);
              apply (f_equal2 (fun x y => slice x y s)); lia
          end.
      * reflexivity.
    + rewrite !skipn_skipn. f_equal. lia.
  - do 10 (try (rewrite readSignals_eq;
                rewrite ?storeAll_length, ?repeat_length, ?length_skipn;
                match goal with
                | |- context [(?a <=? ?b)%nat] =>
                    destruct (Nat.leb_spec a b); [|reflexivity]
                end; cbv beta iota)).
    lia.
Qed.

End DecoderFacts.

(** ** Overwriting one field of an encoded header *)

(** [data] with the bytes from offset [off] on replaced by [t]. *)
Definition replaceAt (off : nat) (t data : list byte) : list byte :=
  firstn off data ++ t ++ skipn (off + length t) data.

(** The bytes [Open] reads: the store from its current offset on. *)
Definition wire (f : IO.File) : list byte :=
  skipn (IO.offset f) (IO.contents f).

(** The file whose bytes from [off] after the current offset are replaced
    by [t]. *)
Definition overwrite (f : IO.File) (off : nat) (t : list byte) : IO.File :=
  IO.mkFile (replaceAt (IO.offset f + off) t (IO.contents f)) (IO.offset f).

(** The list with [g] applied to its element [i]. *)
Fixpoint updateNth {A} (i : nat) (g : A -> A) (l : list A) : list A :=
  match l, i with
  | [], _ => []
  | x :: rest, O => g x :: rest
  | x :: rest, S i' => x :: updateNth i' g rest
  end.

Section ReplaceFacts.

Lemma length_replaceAt off t (data : list byte) :
  (off + length t <= length data)%nat ->
  length (replaceAt off t data) = length data.
Proof.
  intros H. unfold replaceAt.
  rewrite !length_app, length_firstn, length_skipn. lia.
Qed.

Lemma slice_app_l a b (x y : list byte) :
  (b <= length x)%nat -> slice a b (x ++ y) = slice a b x.
Proof.
  intros H. unfold slice. rewrite skipn_app, firstn_app, length_skipn.
  replace (b - a - (length x - a))%nat with 0%nat by lia.
  now rewrite firstn_0, app_nil_r.
Qed.

Lemma slice_app_r a b (x y : list byte) :
  (length x <= a)%nat ->
  slice a b (x ++ y) = slice (a - length x) (b - length x) y.
Proof.
  intros H. unfold slice. rewrite skipn_app.
  rewrite (skipn_all2 x) by lia. simpl.
  f_equal. lia.
Qed.

Lemma slice_firstn a b n (x : list byte) :
  (b <= n)%nat -> slice a b (firstn n x) = slice a b x.
Proof.
  intros H. unfold slice.
  rewrite skipn_firstn_comm, firstn_firstn. f_equal. lia.
Qed.

Lemma slice_all (x : list byte) : slice 0 (length x) x = x.
Proof.
  unfold slice. simpl. rewrite Nat.sub_0_r. apply firstn_all.
Qed.

Lemma slice_replace_before a b off t (data : list byte) :
  (b <= off)%nat -> (off + length t <= length data)%nat ->
  slice a b (replaceAt off t data) = slice a b data.
Proof.
  intros Hb Hlen. unfold replaceAt.
  rewrite slice_app_l by (rewrite length_firstn; lia).
  now apply slice_firstn.
Qed.

Lemma slice_replace_after a b off t (data : list byte) :
  (off + length t <= a)%nat -> (off + length t <= length data)%nat ->
  slice a b (replaceAt off t data) = slice a b data.
Proof.
  intros Ha Hlen. unfold replaceAt.
  rewrite slice_app_r by (rewrite length_firstn; lia).
  rewrite length_firstn.
  rewrite slice_app_r by lia.
  rewrite slice_skipn. unfold slice. f_equal; [lia|]. f_equal. lia.
Qed.

Lemma slice_replace_at off t (data : list byte) :
  (off + length t <= length data)%nat ->
  slice off (off + length t) (replaceAt off t data) = t.
Proof.
  intros Hlen. unfold replaceAt.
  rewrite slice_app_r by (rewrite length_firstn; lia).
  rewrite length_firstn.
  replace (off - Nat.min off (length data))%nat with 0%nat by lia.
  replace (off + length t - Nat.min off (length data))%nat
    with (length t) by lia.
  rewrite slice_app_l by lia. apply slice_all.
Qed.

Lemma skipn_replaceAt o off t (data : list byte) :
  (o <= length data)%nat ->
  skipn o (replaceAt (o + off) t data) = replaceAt off t (skipn o data).
Proof.
  intros Ho. unfold replaceAt.
  rewrite skipn_app, length_firstn.
  replace (o - Nat.min (o + off) (length data))%nat with 0%nat by lia.
  rewrite skipn_firstn_comm. simpl skipn at 2.
  rewrite skipn_skipn.
  replace (o + off - o)%nat with off by lia.
  do 3 f_equal. lia.
Qed.

Lemma firstn_replaceAt n off t (data : list byte) :
  (n <= off)%nat -> (off + length t <= length data)%nat ->
  firstn n (replaceAt off t data) = firstn n data.
Proof.
  intros Hn Hlen. unfold replaceAt.
  rewrite firstn_app, length_firstn, firstn_firstn.
  replace (n - Nat.min off (length data))%nat with 0%nat by lia.
  rewrite firstn_0, app_nil_r. f_equal. lia.
Qed.

Lemma updateNth_nth {A} (g : A -> A) (l : list A) i j :
  nth_error (updateNth i g l) j
  = if (j =? i)%nat then option_map g (nth_error l j) else nth_error l j.
Proof.
  revert i j. induction l as [|x rest IH]; intros i j.
  - destruct i, j; simpl; try reflexivity; now destruct (j =? i)%nat.
  - destruct i as [|i], j as [|j]; simpl; try reflexivity.
    apply IH.
Qed.

End ReplaceFacts.

(** ** Malformed fields at decoding *)

Section MalformedFields.
Context {T : TimeRep} {L : GoLib}.

Definition setSignals (g : list Signal -> list Signal) (h : Header) : Header :=
  mkHeader (Version h) (PatientID h) (RecordingID h) (StartTime h)
           (HeaderBytes h) (DataRecordDuration h) (DataRecords h)
           (SignalCount h) (g (Signals h)).

Lemma slice_replace_same off w t (data : list byte) :
  length t = w -> (off + w <= length data)%nat ->
  slice off (off + w) (replaceAt off t data) = t.
Proof.
  intros <- Hlen. now apply slice_replace_at.
Qed.

Ltac settle_slices :=
  repeat match goal with
         | |- context [slice ?a ?b (replaceAt ?off ?t ?d)] =>
             first [ rewrite (slice_replace_before a b off t d) by lia
                   | rewrite (slice_replace_after a b off t d) by lia
                   | rewrite (slice_replace_same off _ t d) by lia ]
         end.

(** How overwriting signal [i]'s field in one of the four numeric blocks
    changes what is decoded: signal [i] gets the field's new value,
    nothing else changes. *)
Lemma decodeSignal_overwrite_PhysicalMin n i j t rest :
  (i < n)%nat -> (j < n)%nat -> length t = 8%nat ->
  (n * 256 <= length rest)%nat ->
  decodeSignal n (replaceAt (n * 104 + i * 8) t rest) j
  = if (j =? i)%nat then set_PhysicalMin (parseFloat t) (decodeSignal n rest j)
    else decodeSignal n rest j.
Proof.
  intros Hi Hj Ht Hlen. unfold decodeSignal, fieldAt.
  destruct (Nat.eqb_spec j i) as [->|Hne];
    [|destruct (Nat.lt_total j i) as [Hlt|[Heq|Hgt]]; [|contradiction|]];
    settle_slices; reflexivity.
Qed.

Lemma decodeSignal_overwrite_DigitalMin n i j t rest :
  (i < n)%nat -> (j < n)%nat -> length t = 8%nat ->
  (n * 256 <= length rest)%nat ->
  decodeSignal n (replaceAt (n * 120 + i * 8) t rest) j
  = if (j =? i)%nat then set_DigitalMin (parseInt t) (decodeSignal n rest j)
    else decodeSignal n rest j.
Proof.
  intros Hi Hj Ht Hlen. unfold decodeSignal, fieldAt.
  destruct (Nat.eqb_spec j i) as [->|Hne];
    [|destruct (Nat.lt_total j i) as [Hlt|[Heq|Hgt]]; [|contradiction|]];
    settle_slices; reflexivity.
Qed.

Lemma decodeSignal_overwrite_DigitalMax n i j t rest :
  (i < n)%nat -> (j < n)%nat -> length t = 8%nat ->
  (n * 256 <= length rest)%nat ->
  decodeSignal n (replaceAt (n * 128 + i * 8) t rest) j
  = if (j =? i)%nat then set_DigitalMax (parseInt t) (decodeSignal n rest j)
    else decodeSignal n rest j.
Proof.
  intros Hi Hj Ht Hlen. unfold decodeSignal, fieldAt.
  destruct (Nat.eqb_spec j i) as [->|Hne];
    [|destruct (Nat.lt_total j i) as [Hlt|[Heq|Hgt]]; [|contradiction|]];
    settle_slices; reflexivity.
Qed.

Lemma decodeSignal_overwrite_SamplesPerRecord n i j t rest :
  (i < n)%nat -> (j < n)%nat -> length t = 8%nat ->
  (n * 256 <= length rest)%nat ->
  decodeSignal n (replaceAt (n * 216 + i * 8) t rest) j
  = if (j =? i)%nat
    then set_SamplesPerRecord (parseInt t) (decodeSignal n rest j)
    else decodeSignal n rest j.
Proof.
  intros Hi Hj Ht Hlen. unfold decodeSignal, fieldAt.
  destruct (Nat.eqb_spec j i) as [->|Hne];
    [|destruct (Nat.lt_total j i) as [Hlt|[Heq|Hgt]]; [|contradiction|]];
    settle_slices; reflexivity.
Qed.

Lemma map_decode_overwrite n i t rest off (g : Signal -> Signal) :
  (i < n)%nat ->
  (forall j, (j < n)%nat ->
     decodeSignal n (replaceAt off t rest) j
     = if (j =? i)%nat then g (decodeSignal n rest j)
       else decodeSignal n rest j) ->
  map (decodeSignal n (replaceAt off t rest)) (seq 0 n)
  = updateNth i g (map (decodeSignal n rest) (seq 0 n)).
Proof.
  intros Hi Hdec. apply list_eq_nth. intros j.
  rewrite updateNth_nth, !nth_error_map_seq.
  destruct (Nat.ltb_spec j n) as [Hj|Hj].
  - rewrite Hdec by assumption. now destruct (j =? i)%nat.
  - now destruct (j =? i)%nat.
Qed.

(** Overwriting a field that lies after the first 256 bytes of a header
    that decodes: the header still decodes, and its signals are the ones
    decoded from the overwritten per-signal part. *)
Lemma Open_overwrite (f : IO.File) (rd : Reader) (off : nat) (t : list byte) :
  Open f = Ok rd ->
  let n := Z.to_nat (SignalCount (rhdr rd)) in
  let rest := skipn 256 (skipn (IO.offset f) (IO.contents f)) in
  (off + length t <= n * 256)%nat ->
  (n * 256 <= length rest)%nat
  /\ Signals (rhdr rd) = map (decodeSignal n rest) (seq 0 n)
  /\ Open (overwrite f (256 + off) t)
     = Ok (mkReader (IO.contents (overwrite f (256 + off) t))
             (setSignals
                (fun _ => map (decodeSignal n (replaceAt off t rest)) (seq 0 n))
                (rhdr rd))).
Proof.
  intros HOpen n rest Hoff. subst n rest.
  unfold Open in HOpen. cbv zeta in HOpen. unfold ReadFull in HOpen.
  set (stream := skipn (IO.offset f) (IO.contents f)) in *.
  destruct (Nat.leb_spec 256 (length stream)) as [H256|]; [|discriminate].
  cbv beta iota in HOpen.
  assert (Ho : (IO.offset f <= length (IO.contents f))%nat).
  { subst stream. rewrite length_skipn in H256. lia. }
  destruct (Parse_date _) as [d|] eqn:ED; [|discriminate].
  destruct (Parse_clock _) as [c|] eqn:EC; [|discriminate].
  destruct (Strconv.Atoi (Strings.TrimSpace (slice 184 192 _))) as [hb|] eqn:EH;
    [|discriminate].
  destruct (Strconv.Atoi (Strings.TrimSpace (slice 236 244 _))) as [nr|] eqn:EN;
    [|discriminate].
  destruct (ParseDuration _) as [dur|] eqn:EDur; [|discriminate].
  destruct (Strconv.Atoi (Strings.TrimSpace (slice 252 256 _))) as [sc|] eqn:ES;
    [|discriminate].
  destruct (sc <? 0) eqn:Eneg; [discriminate|].
  rewrite readSignalHeaders_eq in HOpen.
  destruct (Nat.leb_spec (Z.to_nat sc * 256) (length (skipn 256 stream)))
    as [Hlen|]; [|discriminate].
  assert (Hrd : rd = mkReader (IO.contents f)
            (mkHeader (Strings.TrimSpace (slice 0 8 (firstn 256 stream)))
               (Strings.TrimSpace (slice 8 88 (firstn 256 stream)))
               (Strings.TrimSpace (slice 88 168 (firstn 256 stream)))
               (Date_UTC (Year d) (Month d) (Day d) (Hour c) (Minute c) (Second c))
               hb dur nr sc
               (map (decodeSignal (Z.to_nat sc) (skipn 256 stream))
                    (seq 0 (Z.to_nat sc))))) by congruence.
  clear HOpen. subst rd. cbn [rhdr SignalCount Signals] in *.
  split; [assumption|]. split; [reflexivity|].
  unfold Open. cbv zeta. cbn [overwrite IO.offset IO.contents].
  rewrite skipn_replaceAt by assumption. fold stream.
  rewrite length_skipn in Hlen.
  assert (Hfit : (256 + off + length t <= length stream)%nat) by lia.
  unfold ReadFull. rewrite length_replaceAt by assumption.
  destruct (Nat.leb_spec 256 (length stream)); [|lia].
  cbv beta iota.
  rewrite firstn_replaceAt by lia.
  rewrite ED, EC, EH, EN, EDur, ES, Eneg.
  replace (skipn 256 (replaceAt (256 + off) t stream))
    with (replaceAt off t (skipn 256 stream))
    by (symmetry; apply skipn_replaceAt; lia).
  rewrite readSignalHeaders_eq.
  rewrite length_replaceAt by (rewrite length_skipn; lia).
  rewrite length_skipn.
  destruct (Nat.leb_spec (Z.to_nat sc * 256) (length stream - 256)); [|lia].
  reflexivity.
Qed.

(** C6: a header block of at least 256 bytes whose signal-count field does
    not parse as an integer is refused with an error of the
    malformed-header kind.  In a header block that decodes, overwriting
    the 8-byte physical-minimum field of a signal by text that
    [strconv.ParseFloat] refuses leaves a block that still decodes, to the
    same header except that this signal's physical minimum is 0. *)
Theorem bad_count_fails_bad_physical_min_defaults
    (f1 f : IO.File) (rd : Reader) (i : nat) (t : list byte) :
  (256 <= length (wire f1))%nat ->
  Strconv.Atoi (Strings.TrimSpace (slice 252 256 (wire f1))) = None ->
  Open f = Ok rd ->
  (i < Z.to_nat (SignalCount (rhdr rd)))%nat ->
  length t = 8%nat ->
  ParseFloat (Strings.TrimSpace t) = None ->
  (exists e, Open f1 = Err e /\ kindOf e = MalformedHeader)
  /\ let n := Z.to_nat (SignalCount (rhdr rd)) in
     let f' := overwrite f (256 + (n * 104 + i * 8)) t in
     Open f'
     = Ok (mkReader (IO.contents f')
             (setSignals (updateNth i (set_PhysicalMin 0%float)) (rhdr rd))).
Proof.
  intros H256 Hcount HOpen Hi Ht Hbad. split.
  - unfold Open. cbv zeta. unfold ReadFull. fold (wire f1).
    destruct (Nat.leb_spec 256 (length (wire f1))); [|lia].
    cbv beta iota.
    rewrite (slice_firstn 252 256 256) by lia. rewrite Hcount.
    clear Hcount.
    destruct (Parse_date _); [|eexists; split; reflexivity].
    destruct (Parse_clock _); [|eexists; split; reflexivity].
    destruct (Strconv.Atoi (Strings.TrimSpace (slice 184 192 _)));
      [|eexists; split; reflexivity].
    destruct (Strconv.Atoi (Strings.TrimSpace (slice 236 244 _)));
      [|eexists; split; reflexivity].
    destruct (ParseDuration _); eexists; split; reflexivity.
  - intros n f'. subst f'.
    destruct (Open_overwrite f rd (n * 104 + i * 8) t HOpen)
      as (Hlen & Hsigs & Hopen'); [fold n; lia|].
    fold n in Hlen, Hsigs, Hopen'. rewrite Hopen'. do 2 f_equal.
    unfold setSignals. f_equal. rewrite Hsigs.
    rewrite (map_decode_overwrite n i t _ _ (set_PhysicalMin 0%float)); auto.
    intros j Hj. rewrite decodeSignal_overwrite_PhysicalMin by assumption.
    unfold parseFloat. now rewrite Hbad.
Qed.

(** C10: in a header block that decodes, overwriting the 8-byte
    digital-minimum, digital-maximum or samples-per-record field of a
    signal by text that [strconv.Atoi] refuses leaves a block that still
    decodes, to the same header except that this field of this signal
    is 0. *)
Theorem bad_integer_fields_default
    (f : IO.File) (rd : Reader) (i : nat) (t : list byte) :
  Open f = Ok rd ->
  (i < Z.to_nat (SignalCount (rhdr rd)))%nat ->
  length t = 8%nat ->
  Strconv.Atoi (Strings.TrimSpace t) = None ->
  let n := Z.to_nat (SignalCount (rhdr rd)) in
  let fmin := overwrite f (256 + (n * 120 + i * 8)) t in
  let fmax := overwrite f (256 + (n * 128 + i * 8)) t in
  let fspr := overwrite f (256 + (n * 216 + i * 8)) t in
  Open fmin
  = Ok (mkReader (IO.contents fmin)
          (setSignals (updateNth i (set_DigitalMin 0)) (rhdr rd)))
  /\ Open fmax
     = Ok (mkReader (IO.contents fmax)
             (setSignals (updateNth i (set_DigitalMax 0)) (rhdr rd)))
  /\ Open fspr
     = Ok (mkReader (IO.contents fspr)
             (setSignals (updateNth i (set_SamplesPerRecord 0)) (rhdr rd))).
Proof.
  intros HOpen Hi Ht Hbad n fmin fmax fspr. subst fmin fmax fspr.
  assert (Hp : parseInt t = 0) by (unfold parseInt; now rewrite Hbad).
  split; [|split].
  - destruct (Open_overwrite f rd (n * 120 + i * 8) t HOpen)
      as (Hlen & Hsigs & Hopen'); [fold n; lia|].
    fold n in Hlen, Hsigs, Hopen'. rewrite Hopen'. do 2 f_equal.
    unfold setSignals. f_equal. rewrite Hsigs.
    rewrite (map_decode_overwrite n i t _ _ (set_DigitalMin 0)); auto.
    intros j Hj. rewrite decodeSignal_overwrite_DigitalMin by assumption.
    now rewrite Hp.
  - destruct (Open_overwrite f rd (n * 128 + i * 8) t HOpen)
      as (Hlen & Hsigs & Hopen'); [fold n; lia|].
    fold n in Hlen, Hsigs, Hopen'. rewrite Hopen'. do 2 f_equal.
    unfold setSignals. f_equal. rewrite Hsigs.
    rewrite (map_decode_overwrite n i t _ _ (set_DigitalMax 0)); auto.
    intros j Hj. rewrite decodeSignal_overwrite_DigitalMax by assumption.
    now rewrite Hp.
  - destruct (Open_overwrite f rd (n * 216 + i * 8) t HOpen)
      as (Hlen & Hsigs & Hopen'); [fold n; lia|].
    fold n in Hlen, Hsigs, Hopen'. rewrite Hopen'. do 2 f_equal.
    unfold setSignals. f_equal. rewrite Hsigs.
    rewrite (map_decode_overwrite n i t _ _ (set_SamplesPerRecord 0)); auto.
    intros j Hj. rewrite decodeSignal_overwrite_SamplesPerRecord by assumption.
    now rewrite Hp.
Qed.

End MalformedFields.

Lemma bad_count_fails_bad_physical_min_defaults_witness :
  (exists e, Open (L := Ref.lib) Demo.badCount = Err e /\ kindOf e = MalformedHeader)
  /\ let n := Z.to_nat (SignalCount (rhdr Demo.decoded)) in
     let f' := overwrite Demo.encoded (256 + (n * 104 + 0 * 8)) (str "garbage!") in
     Open (L := Ref.lib) f'
     = Ok (mkReader (IO.contents f')
             (setSignals (updateNth 0 (set_PhysicalMin 0%float))
                         (rhdr Demo.decoded))).
Proof.
  apply (bad_count_fails_bad_physical_min_defaults (L := Ref.lib)
           Demo.badCount Demo.encoded Demo.decoded 0%nat (str "garbage!")).
  - apply Nat.leb_le. vm_compute. reflexivity.
  - vm_compute. reflexivity.
  - vm_compute. reflexivity.
  - apply Nat.ltb_lt. vm_compute. reflexivity.
  - reflexivity.
  - vm_compute. reflexivity.
Defined.

Lemma bad_integer_fields_default_witness :
  let n := Z.to_nat (SignalCount (rhdr Demo.decoded)) in
  let t := str "12 units" in
  let fmin := overwrite Demo.encoded (256 + (n * 120 + 0 * 8)) t in
  let fmax := overwrite Demo.encoded (256 + (n * 128 + 0 * 8)) t in
  let fspr := overwrite Demo.encoded (256 + (n * 216 + 0 * 8)) t in
  Open (L := Ref.lib) fmin
  = Ok (mkReader (IO.contents fmin)
          (setSignals (updateNth 0 (set_DigitalMin 0)) (rhdr Demo.decoded)))
  /\ Open (L := Ref.lib) fmax
     = Ok (mkReader (IO.contents fmax)
             (setSignals (updateNth 0 (set_DigitalMax 0)) (rhdr Demo.decoded)))
  /\ Open (L := Ref.lib) fspr
     = Ok (mkReader (IO.contents fspr)
             (setSignals (updateNth 0 (set_SamplesPerRecord 0))
                         (rhdr Demo.decoded))).
Proof.
  apply (bad_integer_fields_default (L := Ref.lib)
           Demo.encoded Demo.decoded 0%nat (str "12 units")).
  - vm_compute. reflexivity.
  - apply Nat.ltb_lt. vm_compute. reflexivity.
  - reflexivity.
  - vm_compute. reflexivity.
Defined.

(** ** The signal reader *)

(** The size of a data record and the offset of a signal in it, as
    mathematical integers: two bytes per sample, signal after signal. *)
Definition recSize (sigs : list Signal) : Z :=
  fold_right (fun s total => SamplesPerRecord s * 2 + total) 0 sigs.

Definition offsetBefore (index : nat) (sigs : list Signal) : Z :=
  recSize (firstn index sigs).

(** The cursor of a signal reader: record index and sample index in the
    record.  One sample on, the sample index rolls over at [spr]. *)
Definition stepCursor (spr : Z) (c : Z * Z) : Z * Z :=
  if snd c + 1 >=? spr then (fst c + 1, 0) else (fst c, snd c + 1).

Definition cursorAfter (spr : Z) (m : nat) : Z * Z :=
  Nat.iter m (stepCursor spr) (0, 0).

Section SignalReaderFacts.
Context {T : TimeRep} {L : GoLib}.

(** The header's geometry is non-negative and the file it describes has
    offsets within [int64]. *)
Definition plausible (h : Header) : Prop :=
  0 <= HeaderBytes h
  /\ Forall (fun s => 0 <= SamplesPerRecord s) (Signals h)
  /\ DataRecords h <= GoInt.maxInt
  /\ recSize (Signals h) <= GoInt.maxInt
  /\ HeaderBytes h + DataRecords h * recSize (Signals h) <= GoInt.maxInt.

(** The reader [sr0] once [m] samples have been read through it. *)
Definition atSample (sr0 : SignalReader) (m : nat) : SignalReader :=
  let c := cursorAfter (samplesPerRecord sr0) m in
  mkSignalReader (sr_r sr0) (sr_hdr sr0) (signalIndex sr0) (fst c) (snd c)
                 (recordSize sr0) (signalOffset sr0) (samplesPerRecord sr0).

(** The byte offset of the sample under the cursor [c]. *)
Definition offsetOf (sr0 : SignalReader) (c : Z * Z) : Z :=
  HeaderBytes (sr_hdr sr0) + fst c * recordSize sr0 + signalOffset sr0
  + snd c * 2.

(** What slot [v] of the buffer holds when it was produced from the [q]-th
    sample of the signal. *)
Definition producedFrom (sr0 : SignalReader) (signal : Signal) (q : nat)
    (v : option float) : Prop :=
  let c := cursorAfter (samplesPerRecord sr0) q in
  fst c < DataRecords (sr_hdr sr0)
  /\ exists b0 b1,
       IO.readAt (sr_r sr0) (offsetOf sr0 c) 2 = Some [b0; b1]
       /\ v = Some (convertDigitalToPhysical
                      (GoInt.wrap16 (byteVal b0 + 256 * byteVal b1))
                      (DigitalMin signal) (DigitalMax signal)
                      (PhysicalMin signal) (PhysicalMax signal)).

Lemma recSize_nonneg sigs :
  Forall (fun s => 0 <= SamplesPerRecord s) sigs -> 0 <= recSize sigs.
Proof.
  induction 1 as [|s rest Hs _ IH]; simpl; lia.
Qed.

Lemma recSize_firstn_le sigs k :
  Forall (fun s => 0 <= SamplesPerRecord s) sigs ->
  0 <= recSize (firstn k sigs) <= recSize sigs.
Proof.
  intros H. revert k. induction H as [|s rest Hs Hrest IH]; intros [|k]; simpl.
  - lia.
  - lia.
  - pose proof (recSize_nonneg rest Hrest). lia.
  - specialize (IH k). lia.
Qed.

Lemma layoutFrom_spec index i sigs rs so :
  Forall (fun s => 0 <= SamplesPerRecord s) sigs ->
  0 <= rs -> 0 <= so -> 0 <= i ->
  rs + recSize sigs <= GoInt.maxInt ->
  so + recSize sigs <= GoInt.maxInt ->
  layoutFrom index i sigs rs so
  = (rs + recSize sigs, so + recSize (firstn (Z.to_nat (index - i)) sigs)).
Proof.
  intros H. revert i rs so.
  induction H as [|s rest Hs Hrest IH]; intros i rs so Hrs Hso Hi Hb1 Hb2.
  - simpl. rewrite firstn_nil. simpl. f_equal; lia.
  - cbn [layoutFrom recSize fold_right] in *.
    fold (recSize rest) in *.
    pose proof (recSize_nonneg rest Hrest) as Hnn.
    assert (Hm : GoInt.mul (SamplesPerRecord s) 2 = SamplesPerRecord s * 2).
    { apply wrap64_id. unfold GoInt.inInt, GoInt.minInt, GoInt.maxInt in *. lia. }
    rewrite Hm.
    assert (Ha : GoInt.add rs (SamplesPerRecord s * 2) = rs + SamplesPerRecord s * 2).
    { apply wrap64_id. unfold GoInt.inInt, GoInt.minInt, GoInt.maxInt in *. lia. }
    rewrite Ha.
    destruct (Z.ltb_spec i index) as [Hlt|Hge].
    + assert (Hb : GoInt.add so (SamplesPerRecord s * 2) = so + SamplesPerRecord s * 2).
      { apply wrap64_id. unfold GoInt.inInt, GoInt.minInt, GoInt.maxInt in *. lia. }
      rewrite Hb. rewrite IH by lia.
      replace (Z.to_nat (index - i)) with (S (Z.to_nat (index - (i + 1)))) by lia.
      cbn [firstn recSize fold_right]. fold (recSize (firstn (Z.to_nat (index - (i + 1))) rest)).
      f_equal; lia.
    + pose proof (recSize_firstn_le rest (Z.to_nat (index - (i + 1))) Hrest).
      rewrite IH by lia.
      replace (Z.to_nat (index - i)) with 0%nat by lia.
      replace (Z.to_nat (index - (i + 1))) with 0%nat by lia.
      simpl. f_equal; lia.
Qed.

(** [Signal] on a plausible header: the reader's record size and signal
    offset are the sums the layout is defined by. *)
Lemma Reader_Signal_layout (er : Reader) (index : Z) (sr0 : SignalReader) :
  plausible (rhdr er) ->
  Reader_Signal er index = Ok sr0 ->
  0 <= index < Z.of_nat (length (Signals (rhdr er)))
  /\ sr_r sr0 = r er /\ sr_hdr sr0 = rhdr er /\ signalIndex sr0 = index
  /\ currentRecord sr0 = 0 /\ currentSample sr0 = 0
  /\ recordSize sr0 = recSize (Signals (rhdr er))
  /\ signalOffset sr0 = offsetBefore (Z.to_nat index) (Signals (rhdr er))
  /\ exists signal,
       nth_error (Signals (rhdr er)) (Z.to_nat index) = Some signal
       /\ samplesPerRecord sr0 = SamplesPerRecord signal.
Proof.
  intros (HB & Hspr & HDR & HRS & Hfile) H. unfold Reader_Signal in H.
  destruct (Z.ltb_spec index 0) as [|Hlo]; [discriminate|].
  destruct (Z.geb_spec index (Z.of_nat (length (Signals (rhdr er)))))
    as [|Hhi]; [discriminate|].
  simpl in H.
  destruct (nth_error (Signals (rhdr er)) (Z.to_nat index)) as [signal|] eqn:E;
    [|discriminate].
  pose proof (recSize_nonneg _ Hspr).
  rewrite layoutFrom_spec in H by (auto; lia).
  inversion H; subst sr0; clear H. cbn.
  repeat split; try lia.
  - unfold offsetBefore. f_equal. f_equal. lia.
  - exists signal. split; reflexivity.
Qed.

Lemma setNth_length n v data : length (setNth n v data) = length data.
Proof.
  revert n. induction data as [|x rest IH]; intros [|n]; simpl; auto.
Qed.

Lemma setNth_nth_same n v data :
  (n < length data)%nat -> nth_error (setNth n v data) n = Some v.
Proof.
  revert n. induction data as [|x rest IH]; intros [|n] H; simpl in *;
    try lia; auto. apply IH. lia.
Qed.

Lemma setNth_nth_other n i v data :
  i <> n -> nth_error (setNth n v data) i = nth_error data i.
Proof.
  revert n i. induction data as [|x rest IH]; intros [|n] [|i] H; simpl;
    try reflexivity; try contradiction. apply IH. congruence.
Qed.

Lemma recSize_firstn_succ sigs k s :
  nth_error sigs k = Some s ->
  recSize (firstn (S k) sigs) = recSize (firstn k sigs) + SamplesPerRecord s * 2.
Proof.
  revert k. induction sigs as [|x rest IH]; intros [|k] H; simpl in *;
    try discriminate.
  - inversion H; subst. lia.
  - fold (recSize (firstn (S k) rest)). fold (recSize (firstn k rest)).
    rewrite (IH k H). lia.
Qed.

Lemma cursorAfter_bounds spr m :
  0 <= spr ->
  0 <= fst (cursorAfter spr m)
  /\ 0 <= snd (cursorAfter spr m)
  /\ (snd (cursorAfter spr m) < spr \/ snd (cursorAfter spr m) = 0).
Proof.
  intros Hspr. induction m as [|m IH].
  - cbn. lia.
  - change (cursorAfter spr (S m)) with (stepCursor spr (cursorAfter spr m)).
    destruct (cursorAfter spr m) as [rec smp]. unfold stepCursor.
    cbn [fst snd] in *.
    destruct (Z.geb_spec (smp + 1) spr); cbn [fst snd]; lia.
Qed.

Section OneReader.
Variables (er : Reader) (index : Z) (sr0 : SignalReader) (signal : Signal).
Hypothesis Hplausible : plausible (rhdr er).
Hypothesis HSignal : Reader_Signal er index = Ok sr0.
Hypothesis Hsignal :
  nth_error (Signals (rhdr er)) (Z.to_nat index) = Some signal.

Let spr := samplesPerRecord sr0.

Lemma sr0_facts :
  sr_hdr sr0 = rhdr er /\ signalIndex sr0 = index
  /\ recordSize sr0 = recSize (Signals (rhdr er))
  /\ signalOffset sr0 = offsetBefore (Z.to_nat index) (Signals (rhdr er))
  /\ spr = SamplesPerRecord signal
  /\ 0 <= spr
  /\ 0 <= signalOffset sr0
  /\ signalOffset sr0 + spr * 2 <= recordSize sr0.
Proof.
  destruct (Reader_Signal_layout er index sr0 Hplausible HSignal)
    as (Hidx & Hr & Hh & Hi & _ & _ & Hrs & Hso & s' & Hs' & Hspr').
  rewrite Hsignal in Hs'. inversion Hs'; subst s'. clear Hs'.
  destruct Hplausible as (HB & Hnn & HDR & HRS & Hfile).
  assert (Hnneg : 0 <= SamplesPerRecord signal).
  { rewrite Forall_forall in Hnn. apply Hnn.
    eapply nth_error_In; eauto. }
  pose proof (recSize_firstn_le (Signals (rhdr er)) (Z.to_nat index) Hnn).
  pose proof (recSize_firstn_le (Signals (rhdr er)) (S (Z.to_nat index)) Hnn).
  rewrite (recSize_firstn_succ _ _ _ Hsignal) in *.
  unfold spr. rewrite Hspr', Hrs, Hso. unfold offsetBefore.
  repeat split; auto; lia.
Qed.

Lemma samplePos_exact m :
  fst (cursorAfter spr m) < DataRecords (rhdr er) ->
  samplePos (atSample sr0 m) = offsetOf sr0 (cursorAfter spr m)
  /\ 0 <= offsetOf sr0 (cursorAfter spr m).
Proof.
  intros Hrec.
  destruct sr0_facts as (Hh & Hi & Hrs & Hso & Hspr & Hnn & Hoff & Hin).
  destruct (cursorAfter_bounds spr m Hnn) as (Hr0 & Hs0 & Hs1).
  destruct Hplausible as (HB & Hsigs & HDR & HRS & Hfile).
  unfold samplePos, atSample, offsetOf.
  cbn [sr_hdr currentRecord currentSample recordSize signalOffset].
  fold spr. rewrite Hh, Hrs in *.
  set (rec := fst (cursorAfter spr m)) in *.
  set (smp := snd (cursorAfter spr m)) in *.
  set (RS := recSize (Signals (rhdr er))) in *.
  assert (HRS0 : 0 <= RS) by lia.
  assert (Hprod : 0 <= rec * RS <= DataRecords (rhdr er) * RS - RS).
  { split; [apply Z.mul_nonneg_nonneg; lia|].
    replace (DataRecords (rhdr er) * RS - RS)
      with ((DataRecords (rhdr er) - 1) * RS) by ring.
    apply Z.mul_le_mono_nonneg_r; lia. }
  unfold GoInt.add, GoInt.mul.
  rewrite (wrap64_id (rec * RS))
    by (unfold GoInt.inInt, GoInt.minInt, GoInt.maxInt in *; lia).
  rewrite (wrap64_id (smp * 2))
    by (unfold GoInt.inInt, GoInt.minInt, GoInt.maxInt in *; lia).
  rewrite (wrap64_id (HeaderBytes (rhdr er) + rec * RS))
    by (unfold GoInt.inInt, GoInt.minInt, GoInt.maxInt in *; lia).
  rewrite (wrap64_id (HeaderBytes (rhdr er) + rec * RS + signalOffset sr0))
    by (unfold GoInt.inInt, GoInt.minInt, GoInt.maxInt in *; lia).
  rewrite wrap64_id
    by (unfold GoInt.inInt, GoInt.minInt, GoInt.maxInt in *; lia).
  split; [reflexivity | lia].
Qed.

Lemma advance_atSample m :
  fst (cursorAfter spr m) < DataRecords (rhdr er) ->
  advance (atSample sr0 m) = atSample sr0 (S m).
Proof.
  intros Hrec.
  destruct sr0_facts as (Hh & Hi & Hrs & Hso & Hspr & Hnn & Hoff & Hin).
  destruct (cursorAfter_bounds spr m Hnn) as (Hr0 & Hs0 & Hs1).
  destruct Hplausible as (HB & Hsigs & HDR & HRS & Hfile).
  unfold advance, atSample.
  cbn [sr_r sr_hdr signalIndex currentRecord currentSample recordSize
       signalOffset samplesPerRecord].
  fold spr.
  change (cursorAfter spr (S m)) with (stepCursor spr (cursorAfter spr m)).
  unfold stepCursor.
  unfold GoInt.add.
  rewrite (wrap64_id (snd (cursorAfter spr m) + 1))
    by (unfold GoInt.inInt, GoInt.minInt, GoInt.maxInt in *; lia).
  rewrite (wrap64_id (fst (cursorAfter spr m) + 1))
    by (unfold GoInt.inInt, GoInt.minInt, GoInt.maxInt in *; lia).
  destruct (snd (cursorAfter spr m) + 1 >=? spr); reflexivity.
Qed.

Lemma readAt_two data pos buf :
  IO.readAt data pos 2 = Some buf -> exists b0 b1, buf = [b0; b1].
Proof.
  unfold IO.readAt. destruct (pos <? 0); [discriminate|].
  set (rest := skipn (Z.to_nat pos) data).
  destruct (Nat.leb_spec 2 (length rest)) as [Hlen|]; [|discriminate].
  intros H; inversion H; clear H.
  destruct rest as [|b0 [|b1 tl]]; simpl in Hlen; try lia.
  exists b0, b1. reflexivity.
Qed.

(** What the loop of [Read] does from the state in which [m] samples are
    consumed and [n] slots written, with [k] slots to go. *)
Lemma readLoop_spec k : forall n m data,
  length data = (n + k)%nat ->
  let st := readLoop k n (atSample sr0 m) data in
  exists j,
    (j <= k)%nat
    /\ rs_n st = (n + j)%nat
    /\ rs_reader st = atSample sr0 (m + j)
    /\ length (rs_data st) = length data
    /\ (forall i, (i < n \/ n + j <= i)%nat ->
                 nth_error (rs_data st) i = nth_error data i)
    /\ (forall i, (i < j)%nat ->
                 producedFrom sr0 signal (m + i)
                              (nth_error (rs_data st) (n + i)))
    /\ ((rs_err st = Ok tt /\ j = k)
        \/ (rs_err st = Err EOF /\ (j < k)%nat
            /\ DataRecords (rhdr er) <= fst (cursorAfter spr (m + j)))
        \/ (rs_err st = Err ErrReadingSample /\ (j < k)%nat
            /\ fst (cursorAfter spr (m + j)) < DataRecords (rhdr er)
            /\ IO.readAt (sr_r sr0) (offsetOf sr0 (cursorAfter spr (m + j))) 2
               = None)).
Proof.
  destruct sr0_facts as (Hh & Hi & Hrs & Hso & Hspr & Hnn & Hoff & Hin).
  assert (Hstop : forall n m data (e : result unit),
    exists j : nat, (j <= 0)%nat /\ n = (n + j)%nat
      /\ atSample sr0 m = atSample sr0 (m + j)
      /\ length data = length data
      /\ (forall i, (i < n \/ n + j <= i)%nat ->
                   nth_error data i = nth_error data i)
      /\ (forall i, (i < j)%nat ->
                   producedFrom sr0 signal (m + i) (nth_error data (n + i)))
      /\ j = 0%nat).
  { intros n m data e. exists 0%nat. rewrite !Nat.add_0_r.
    repeat split; auto; lia. }
  induction k as [|k IH]; intros n m data Hlen st; subst st.
  - destruct (Hstop n m data (Ok tt)) as (j & H1 & H2 & H3 & H4 & H5 & H6 & ->).
    exists 0%nat. cbn [readLoop rs_n rs_reader rs_data rs_err].
    repeat (split; [assumption|]). left. split; reflexivity.
  - cbn [readLoop].
    change (currentRecord (atSample sr0 m)) with (fst (cursorAfter spr m)).
    change (sr_hdr (atSample sr0 m)) with (sr_hdr sr0).
    change (sr_r (atSample sr0 m)) with (sr_r sr0).
    change (signalIndex (atSample sr0 m)) with (signalIndex sr0).
    rewrite Hh, Hi.
    destruct (Z.geb_spec (fst (cursorAfter spr m)) (DataRecords (rhdr er)))
      as [Heof|Hrec].
    + destruct (Hstop n m data (Ok tt)) as (j & H1 & H2 & H3 & H4 & H5 & H6 & ->).
      exists 0%nat. cbn [rs_n rs_reader rs_data rs_err].
      split; [lia|]. repeat (split; [assumption|]).
      right. left. rewrite Nat.add_0_r. repeat split; auto; lia.
    + destruct (samplePos_exact m Hrec) as [Hpos Hpos0]. rewrite Hpos.
      destruct (Z.ltb_spec (offsetOf sr0 (cursorAfter spr m)) 0) as [|_];
        [lia|].
      destruct (IO.readAt (sr_r sr0) (offsetOf sr0 (cursorAfter spr m)) 2)
        as [buf|] eqn:Eread.
      * destruct (readAt_two _ _ _ Eread) as (b0 & b1 & ->).
        rewrite Hsignal. rewrite (advance_atSample m Hrec).
        cbn [decodeInt16].
        set (v := convertDigitalToPhysical _ _ _ _ _).
        destruct (IH (S n) (S m) (setNth n v data)) as
          (j & Hj & Hn & Hrd & Hl & Hsame & Hprod & Hout).
        { rewrite setNth_length. lia. }
        exists (S j).
        replace (m + S j)%nat with (S m + j)%nat by lia.
        replace (n + S j)%nat with (S n + j)%nat by lia.
        rewrite setNth_length in Hl.
        split; [lia|]. split; [exact Hn|]. split; [exact Hrd|].
        split; [exact Hl|]. split; [|split].
        -- intros i Hi0. rewrite Hsame by lia.
           apply setNth_nth_other. lia.
        -- intros [|i] Hi0.
           ++ rewrite !Nat.add_0_r. rewrite Hsame by lia.
              rewrite setNth_nth_same by lia.
              unfold producedFrom. fold spr. rewrite Hh.
              split; [assumption|]. exists b0, b1. split; [assumption|].
              reflexivity.
           ++ replace (m + S i)%nat with (S m + i)%nat by lia.
              replace (n + S i)%nat with (S n + i)%nat by lia.
              apply Hprod. lia.
        -- destruct Hout as [(He & Hk)|[(He & Hk & Hr)|(He & Hk & Hr & Hnone)]].
           ++ left. split; [assumption|lia].
           ++ right. left. repeat split; auto; lia.
           ++ right. right. repeat split; auto; lia.
      * destruct (Hstop n m data (Ok tt))
          as (j & H1 & H2 & H3 & H4 & H5 & H6 & ->).
        exists 0%nat. cbn [rs_n rs_reader rs_data rs_err].
        split; [lia|]. repeat (split; [assumption|]).
        right. right. rewrite Nat.add_0_r. repeat split; auto; lia.
Qed.

End OneReader.

Lemma cursorAfter_div_mod spr m :
  0 < spr ->
  cursorAfter spr m = (Z.of_nat m / spr, Z.of_nat m mod spr).
Proof.
  intros Hspr. induction m as [|m IH].
  - reflexivity.
  - change (cursorAfter spr (S m)) with (stepCursor spr (cursorAfter spr m)).
    rewrite IH. unfold stepCursor. cbn [fst snd].
    pose proof (Z.div_mod (Z.of_nat m) spr ltac:(lia)) as Hdm.
    pose proof (Z.mod_pos_bound (Z.of_nat m) spr Hspr) as Hb.
    replace (Z.of_nat (S m)) with (Z.of_nat m + 1) by lia.
    destruct (Z.geb_spec (Z.of_nat m mod spr + 1) spr) as [Hge|Hlt].
    + f_equal.
      * apply (Z.div_unique_pos _ _ _ 0); lia.
      * apply (Z.mod_unique_pos _ _ (Z.of_nat m / spr + 1)); lia.
    + f_equal.
      * apply (Z.div_unique_pos _ _ _ (Z.of_nat m mod spr + 1)); lia.
      * apply (Z.mod_unique_pos _ _ (Z.of_nat m / spr)); lia.
Qed.

(** C4: a reader obtained from [Signal] on a plausible header has as record
    size the sum of [SamplesPerRecord * 2] over all signals and as signal
    offset that sum over the signals before its own.  A [Read] through it
    once [m] samples are consumed produces [rs_n] values: slot [i] is the
    conversion by [convertDigitalToPhysical] of the little-endian signed
    16-bit code in the two bytes at offset
    [HeaderBytes + record * recordSize + signalOffset + sample * 2], for
    the cursor [(record, sample)] reached after [m + i] samples, rolling
    over at [SamplesPerRecord]; the other slots are untouched and the
    reader is left with [m + rs_n] samples consumed.  [Read] fills the
    whole buffer, or stops with [io.EOF] and the count so far where the
    cursor's record has reached [DataRecords], or stops with a read error
    where the store has no two bytes at the offset. *)
Theorem Read_follows_record_layout
    (er : Reader) (index : Z) (sr0 : SignalReader) (m : nat)
    (data : list float) :
  plausible (rhdr er) ->
  Reader_Signal er index = Ok sr0 ->
  let sigs := Signals (rhdr er) in
  let spr := samplesPerRecord sr0 in
  let st := Read (atSample sr0 m) data in
  recordSize sr0 = recSize sigs
  /\ signalOffset sr0 = offsetBefore (Z.to_nat index) sigs
  /\ exists signal,
       nth_error sigs (Z.to_nat index) = Some signal
       /\ spr = SamplesPerRecord signal
       /\ (rs_n st <= length data)%nat
       /\ rs_reader st = atSample sr0 (m + rs_n st)
       /\ length (rs_data st) = length data
       /\ (forall i, (i < rs_n st)%nat ->
                    producedFrom sr0 signal (m + i) (nth_error (rs_data st) i))
       /\ (forall i, (rs_n st <= i)%nat ->
                    nth_error (rs_data st) i = nth_error data i)
       /\ ((rs_err st = Ok tt /\ rs_n st = length data)
           \/ (rs_err st = Err EOF /\ (rs_n st < length data)%nat
               /\ DataRecords (rhdr er)
                  <= fst (cursorAfter spr (m + rs_n st)))
           \/ (rs_err st = Err ErrReadingSample
               /\ (rs_n st < length data)%nat
               /\ fst (cursorAfter spr (m + rs_n st)) < DataRecords (rhdr er)
               /\ IO.readAt (sr_r sr0)
                    (offsetOf sr0 (cursorAfter spr (m + rs_n st))) 2 = None)).
Proof.
  intros Hpl HSig sigs spr st.
  destruct (Reader_Signal_layout er index sr0 Hpl HSig)
    as (Hidx & Hr & Hh & Hi & _ & _ & Hrs & Hso & signal & Hs & Hspr).
  split; [exact Hrs|]. split; [exact Hso|].
  exists signal. split; [exact Hs|]. split; [exact Hspr|].
  destruct (readLoop_spec er index sr0 signal Hpl HSig Hs (length data)
              0%nat m data eq_refl)
    as (j & Hj & Hn & Hrd & Hl & Hsame & Hprod & Hout).
  fold (Read (atSample sr0 m) data) in *. fold st in Hn, Hrd, Hl, Hsame, Hprod, Hout.
  simpl in Hn. subst j.
  split; [exact Hj|]. split; [exact Hrd|]. split; [exact Hl|].
  split; [|split].
  - intros i Hi0. apply (Hprod i Hi0).
  - intros i Hi0. apply Hsame. right. simpl. exact Hi0.
  - exact Hout.
Qed.

End SignalReaderFacts.

Lemma Read_follows_record_layout_witness :
  let er := Demo.reader in
  let sr0 := Demo.signalReader in
  let data := repeat 0%float 4 in
  let sigs := Signals (rhdr er) in
  let spr := samplesPerRecord sr0 in
  let st := Read (atSample sr0 510) data in
  recordSize sr0 = recSize sigs
  /\ signalOffset sr0 = offsetBefore (Z.to_nat 0) sigs
  /\ exists signal,
       nth_error sigs (Z.to_nat 0) = Some signal
       /\ spr = SamplesPerRecord signal
       /\ (rs_n st <= length data)%nat
       /\ rs_reader st = atSample sr0 (510 + rs_n st)
       /\ length (rs_data st) = length data
       /\ (forall i, (i < rs_n st)%nat ->
                    producedFrom sr0 signal (510 + i) (nth_error (rs_data st) i))
       /\ (forall i, (rs_n st <= i)%nat ->
                    nth_error (rs_data st) i = nth_error data i)
       /\ ((rs_err st = Ok tt /\ rs_n st = length data)
           \/ (rs_err st = Err EOF /\ (rs_n st < length data)%nat
               /\ DataRecords (rhdr er)
                  <= fst (cursorAfter spr (510 + rs_n st)))
           \/ (rs_err st = Err ErrReadingSample
               /\ (rs_n st < length data)%nat
               /\ fst (cursorAfter spr (510 + rs_n st)) < DataRecords (rhdr er)
               /\ IO.readAt (sr_r sr0)
                    (offsetOf sr0 (cursorAfter spr (510 + rs_n st))) 2 = None)).
Proof.
  apply (Read_follows_record_layout (T := Ref.time)
           Demo.reader 0 Demo.signalReader 510 (repeat 0%float 4)).
  - unfold plausible. cbn [rhdr Demo.reader Demo.finalHeader HeaderBytes
                           Signals DataRecords].
    repeat split; try (vm_compute; congruence).
    repeat constructor. vm_compute. congruence.
  - vm_compute. reflexivity.
Defined.

(** ** The buffered writer as one write *)

Section BufferFacts.

Lemma writeAt_writeAt (data : list byte) off a b :
  IO.writeAt (IO.writeAt data off a) (off + length a) b
  = IO.writeAt data off (a ++ b).
Proof.
  unfold IO.writeAt.
  set (front := firstn off data ++ repeat Ascii.zero (off - length data)).
  assert (Hfront : length front = off).
  { unfold front. rewrite length_app, length_firstn, repeat_length. lia. }
  replace (firstn off data ++ repeat Ascii.zero (off - length data) ++ a
             ++ skipn (off + length a) data)
    with ((front ++ a) ++ skipn (off + length a) data)
    by (unfold front; now rewrite <- !app_assoc).
  rewrite firstn_app, length_app, Hfront.
  rewrite firstn_all2 by (rewrite length_app; lia).
  replace (off + length a - (off + length a))%nat with 0%nat by lia.
  rewrite firstn_0, app_nil_r.
  rewrite !length_app, Hfront, length_skipn.
  replace (off + length a
           - (off + length a + (length data - (off + length a))))%nat
    with 0%nat by lia.
  cbn [repeat app].
  rewrite skipn_app, length_app, Hfront.
  rewrite (skipn_all2 (front ++ a)) by (rewrite length_app; lia).
  rewrite skipn_skipn. cbn [app].
  unfold front. rewrite <- !app_assoc. do 4 f_equal.
  f_equal. lia.
Qed.

Lemma Write_Write (f : IO.File) a b :
  IO.Write (IO.Write f a) b = IO.Write f (a ++ b).
Proof.
  unfold IO.Write. cbn [IO.contents IO.offset].
  rewrite writeAt_writeAt, length_app. f_equal. lia.
Qed.

Lemma Write_nil (f : IO.File) :
  (IO.offset f <= length (IO.contents f))%nat -> IO.Write f [] = f.
Proof.
  intros H. destruct f as [data off]. unfold IO.Write, IO.writeAt.
  cbn [IO.contents IO.offset length app] in *.
  replace (off - length data)%nat with 0%nat by lia. cbn [repeat app].
  rewrite !Nat.add_0_r, firstn_skipn. reflexivity.
Qed.

Lemma WriteStringFuel_flushed fuel : forall (b : IO.BufWriter) (s : list byte),
  (length s + (if (IO.bufSize - length (IO.buf b) =? 0)%nat then 1 else 0)
   <= fuel)%nat ->
  IO.flushed (IO.WriteStringFuel fuel b s) = IO.Write (IO.flushed b) s.
Proof.
  induction fuel as [|fuel IH]; intros b s Hfuel.
  - assert (Hs : length s = 0%nat) by lia.
    destruct s; [|discriminate]. cbn.
    unfold IO.flushed, IO.Flush. cbn [IO.wr IO.buf].
    rewrite app_nil_r. now rewrite Write_Write, app_nil_r.
  - cbn [IO.WriteStringFuel].
    destruct (Nat.leb_spec (length s) (IO.bufSize - length (IO.buf b)))
      as [Hfit|Hbig].
    + unfold IO.flushed, IO.Flush. cbn [IO.wr IO.buf].
      now rewrite Write_Write.
    + rewrite IH.
      * unfold IO.flushed, IO.Flush. cbn [IO.wr IO.buf].
        rewrite !Write_Write. cbn [app]. rewrite <- app_assoc.
        now rewrite firstn_skipn.
      * unfold IO.Flush. cbn [IO.buf length]. rewrite length_skipn.
        change (IO.bufSize - 0 =? 0)%nat with false.
        destruct (Nat.eqb_spec (IO.bufSize - length (IO.buf b)) 0); lia.
Qed.

Lemma WriteString_flushed (b : IO.BufWriter) (s : list byte) :
  IO.flushed (IO.WriteString b s) = IO.Write (IO.flushed b) s.
Proof.
  unfold IO.WriteString. apply WriteStringFuel_flushed.
  destruct (IO.bufSize - length (IO.buf b) =? 0)%nat; lia.
Qed.

Lemma fold_WriteString_flushed {A} (f : A -> list byte) (l : list A)
    (b : IO.BufWriter) :
  IO.flushed (fold_left (fun b x => IO.WriteString b (f x)) l b)
  = IO.Write (IO.flushed b) (concat (map f l)).
Proof.
  revert b. induction l as [|x rest IH]; intros b; cbn [fold_left map concat].
  - unfold IO.flushed, IO.Flush. cbn [IO.wr]. now rewrite Write_Write, app_nil_r.
  - rewrite IH, WriteString_flushed, Write_Write. reflexivity.
Qed.

Lemma flushed_NewWriter (f : IO.File) :
  IO.flushed (IO.NewWriter f) = IO.Write f [].
Proof. reflexivity. Qed.

End BufferFacts.

(** ** The encoded header as a byte string *)

Section EncoderFacts.
Context {T : TimeRep} {L : GoLib}.

Import Strings Strconv.

(** The header with [HeaderBytes] recomputed, as [writeHeader] stores it. *)
Definition recomputed (h : Header) : Header :=
  set_HeaderBytes (GoInt.add 256 (GoInt.mul (SignalCount h) 256)) h.

(** The ten fields up to the signal count. *)
Definition topText (h : Header) : list byte :=
  padRight 8 (Version h) ++ padRight 80 (PatientID h)
  ++ padRight 80 (RecordingID h)
  ++ padRight 8 (Format_date (StartTime h))
  ++ padRight 8 (Format_clock (StartTime h))
  ++ padRight 8 (formatInt (HeaderBytes h))
  ++ padRight 44 []
  ++ padRight 8 (formatInt (DataRecords h))
  ++ padRight 8 (formatInt (ceilSeconds (DataRecordDuration h)))
  ++ padRight 4 (formatInt (SignalCount h)).

(** One per-signal block: a field of every signal, in signal order. *)
Definition block (field : Signal -> list byte) (sigs : list Signal) : list byte :=
  concat (map field sigs).

Definition signalText (sigs : list Signal) : list byte :=
  block (fun s => padRight 16 (Label s)) sigs
  ++ block (fun s => padRight 80 (TransducerType s)) sigs
  ++ block (fun s => padRight 8 (PhysicalDimension s)) sigs
  ++ block (fun s => WriterGo.formatPhysicalValue (PhysicalMin s)) sigs
  ++ block (fun s => WriterGo.formatPhysicalValue (PhysicalMax s)) sigs
  ++ block (fun s => padRight 8 (formatInt (DigitalMin s))) sigs
  ++ block (fun s => padRight 8 (formatInt (DigitalMax s))) sigs
  ++ block (fun s => padRight 80 (Prefiltering s)) sigs
  ++ block (fun s => padRight 8 (formatInt (SamplesPerRecord s))) sigs
  ++ block (fun _ => padRight 32 []) sigs.

Definition headerText (h : Header) : list byte :=
  topText h ++ signalText (Signals h).

Lemma forSignals_flushed field sigs (b : IO.BufWriter) :
  IO.flushed (WriterGo.forSignals field sigs b)
  = IO.Write (IO.flushed b) (block field sigs).
Proof.
  unfold WriterGo.forSignals, block. apply fold_WriteString_flushed.
Qed.

(** writer.go's [writeHeader] rewinds the store and writes the header text
    of the recomputed header; it returns no error. *)
Lemma WriterGo_writeHeader_eq (ew : Writer) :
  WriterGo.writeHeader ew
  = (mkWriter (IO.Write (IO.Rewind (w ew)) (headerText (recomputed (hdr ew))))
              (recomputed (hdr ew)) (dataRecords ew), None).
Proof.
  unfold WriterGo.writeHeader. cbv zeta.
  fold (recomputed (hdr ew)).
  f_equal. f_equal.
  match goal with |- IO.wr (IO.Flush ?x) = _ => change (IO.flushed x = IO.Write (IO.Rewind (w ew)) (headerText (recomputed (hdr ew)))) end.
  rewrite !forSignals_flushed, !WriteString_flushed, flushed_NewWriter.
  rewrite !Write_Write. f_equal.
  unfold headerText, topText, signalText. cbn [app].
  cbn [recomputed set_HeaderBytes Version PatientID RecordingID StartTime
       DataRecords DataRecordDuration SignalCount Signals].
  repeat rewrite <- app_assoc. reflexivity.
Qed.

(** A buffered-writer computation that succeeds on every buffer and
    contributes the text [s]. *)
Definition emits (m : WriterChecked.W unit) (s : list byte) : Prop :=
  forall b, exists b',
    m b = (b', inr tt) /\ IO.flushed b' = IO.Write (IO.flushed b) s.

Lemma emits_bind m1 m2 s1 s2 :
  emits m1 s1 -> emits m2 s2 ->
  emits (WriterChecked.bind m1 (fun _ => m2)) (s1 ++ s2).
Proof.
  intros H1 H2 b. destruct (H1 b) as (b1 & E1 & F1).
  destruct (H2 b1) as (b2 & E2 & F2).
  exists b2. unfold WriterChecked.bind. rewrite E1. split; [exact E2|].
  now rewrite F2, F1, Write_Write.
Qed.

Lemma emits_writeChecked name value width :
  (length value <= width)%nat ->
  emits (WriterChecked.writeChecked name value width) (padRight width value).
Proof.
  intros Hfit b. unfold WriterChecked.writeChecked.
  destruct (Nat.ltb_spec width (length value)); [lia|].
  eexists. split; [reflexivity|]. apply WriteString_flushed.
Qed.

Lemma emits_forSignals body field sigs : forall i,
  (forall j s, In s sigs -> emits (body j s) (field s)) ->
  emits (WriterChecked.forSignals body i sigs) (block field sigs).
Proof.
  induction sigs as [|s rest IH]; intros i Hbody.
  - intros b. exists b. split; [reflexivity|].
    unfold block. cbn. unfold IO.flushed, IO.Flush. cbn [IO.wr].
    now rewrite Write_Write, app_nil_r.
  - cbn [WriterChecked.forSignals]. unfold block. cbn [map concat].
    apply emits_bind.
    + apply Hbody. now left.
    + apply IH. intros j s' Hin. apply Hbody. now right.
Qed.

Lemma padRight_length_ge width (s : list byte) :
  (length s <= length (padRight width s))%nat.
Proof. unfold padRight. rewrite length_app. lia. Qed.

Lemma emits_writePhysical name val i s :
  length (WriterGo.formatPhysicalValue (val s)) = 8%nat ->
  emits (WriterChecked.writePhysical name val i s)
        (WriterGo.formatPhysicalValue (val s)).
Proof.
  intros Hlen b.
  unfold WriterChecked.writePhysical, WriterChecked.formatPhysicalValue.
  unfold WriterGo.formatPhysicalValue in *. cbv zeta in *.
  destruct (8 <? length (Sprintf_2f (val s)))%nat.
  - pose proof (padRight_length_ge 8 (Sprintf_0f (val s))) as Hge.
    destruct (Nat.ltb_spec 8 (length (Sprintf_0f (val s)))); [lia|].
    eexists. split; [reflexivity|]. apply WriteString_flushed.
  - eexists. split; [reflexivity|]. apply WriteString_flushed.
Qed.

End EncoderFacts.

(** ** Fields that fit their width and parse back *)

Section Validity.
Context {T : TimeRep} {L : GoLib}.

Import Strings Strconv.

(** A text field: its padded form has exactly the field's width and trims
    back to the text. *)
Definition textOK (width : nat) (s : list byte) : Prop :=
  length (padRight width s) = width /\ TrimSpace (padRight width s) = s.

(** An integer field: its padded decimal form has exactly the field's
    width and [Atoi] reads the integer back from it. *)
Definition intOK (width : nat) (z : Z) : Prop :=
  length (padRight width (formatInt z)) = width
  /\ Atoi (TrimSpace (padRight width (formatInt z))) = Some z.

(** A physical bound: its formatted form has 8 bytes and [parseFloat]
    reads the value back from it. *)
Definition physOK (v : float) : Prop :=
  length (WriterGo.formatPhysicalValue v) = 8%nat
  /\ parseFloat (WriterGo.formatPhysicalValue v) = v.

(** The start time: date and clock have 8 bytes each, parse, and
    reassemble to the time. *)
Definition timeOK (t : Time) : Prop :=
  length (padRight 8 (Format_date t)) = 8%nat
  /\ length (padRight 8 (Format_clock t)) = 8%nat
  /\ exists d c,
       Parse_date (TrimSpace (padRight 8 (Format_date t))) = Some d
       /\ Parse_clock (TrimSpace (padRight 8 (Format_clock t))) = Some c
       /\ Date_UTC (Year d) (Month d) (Day d) (Hour c) (Minute c) (Second c)
          = t.

(** The record duration: its seconds have 8 bytes and parse back to the
    duration. *)
Definition durationOK (d : Z) : Prop :=
  length (padRight 8 (formatInt (ceilSeconds d))) = 8%nat
  /\ ParseDuration (TrimSpace (padRight 8 (formatInt (ceilSeconds d)))
                     ++ str "s") = Some d.

(** The fields of a signal that the encoder writes. *)
Definition signalOK (s : Signal) : Prop :=
  textOK 16 (Label s) /\ textOK 80 (TransducerType s)
  /\ textOK 8 (PhysicalDimension s)
  /\ physOK (PhysicalMin s) /\ physOK (PhysicalMax s)
  /\ intOK 8 (DigitalMin s) /\ intOK 8 (DigitalMax s)
  /\ textOK 80 (Prefiltering s) /\ intOK 8 (SamplesPerRecord s).

(** A valid header: every field the encoder writes from it fits its width
    and parses back, the recomputed header size included, and
    [SignalCount] is the number of signals. *)
Definition headerOK (h : Header) : Prop :=
  textOK 8 (Version h) /\ textOK 80 (PatientID h)
  /\ textOK 80 (RecordingID h)
  /\ timeOK (StartTime h)
  /\ intOK 8 (GoInt.add 256 (GoInt.mul (SignalCount h) 256))
  /\ durationOK (DataRecordDuration h)
  /\ intOK 4 (SignalCount h)
  /\ SignalCount h = Z.of_nat (length (Signals h))
  /\ Forall signalOK (Signals h).

(** The header as it is decoded again: every signal's reserved field is
    blank. *)
Definition blankReserved (h : Header) : Header :=
  setSignals (map (set_Reserved [])) h.

Lemma slice_after (x y : list byte) p a b :
  length x = p -> slice (p + a) (p + b) (x ++ y) = slice a b y.
Proof.
  intros <-. rewrite slice_app_r by lia. f_equal; lia.
Qed.

Lemma slice_take (x y : list byte) w :
  length x = w -> slice 0 w (x ++ y) = x.
Proof.
  intros <-. rewrite slice_app_l by lia. apply slice_all.
Qed.

Lemma block_length field (sigs : list Signal) w :
  (forall s, In s sigs -> length (field s) = w) ->
  length (block field sigs) = (length sigs * w)%nat.
Proof.
  unfold block. induction sigs as [|s rest IH]; intros H; cbn.
  - reflexivity.
  - rewrite length_app, H by (now left). rewrite IH; [lia|].
    intros s' Hin. apply H. now right.
Qed.

Lemma slice_block field (sigs : list Signal) w i s rest :
  (forall s, In s sigs -> length (field s) = w) ->
  nth_error sigs i = Some s ->
  slice (i * w) (i * w + w) (block field sigs ++ rest) = field s.
Proof.
  unfold block. revert i. induction sigs as [|x xs IH]; intros i Hw Hi.
  - destruct i; discriminate.
  - cbn [map concat]. rewrite <- app_assoc.
    destruct i as [|i].
    + inversion Hi; subst x. cbn. apply slice_take. apply Hw. now left.
    + replace (S i * w)%nat with (w + i * w)%nat by lia.
      replace (w + i * w + w)%nat with (w + (i * w + w))%nat by lia.
      rewrite slice_after by (apply Hw; now left).
      apply IH; [|exact Hi]. intros s' Hin. apply Hw. now right.
Qed.

Lemma fieldAt_skip n p before w i (x y : list byte) :
  length x = (n * p)%nat -> (p <= before)%nat ->
  fieldAt n before w i (x ++ y) = fieldAt n (before - p) w i y.
Proof.
  intros Hx Hp. unfold fieldAt.
  replace (n * before + i * w)%nat
    with (n * p + (n * (before - p) + i * w))%nat by nia.
  replace (n * p + (n * (before - p) + i * w) + w)%nat
    with (n * p + (n * (before - p) + i * w + w))%nat by lia.
  now apply slice_after.
Qed.

Lemma fieldAt_here field (sigs : list Signal) w i s rest :
  (forall s, In s sigs -> length (field s) = w) ->
  nth_error sigs i = Some s ->
  fieldAt (length sigs) 0 w i (block field sigs ++ rest) = field s.
Proof.
  intros Hw Hi. unfold fieldAt.
  replace (length sigs * 0 + i * w)%nat with (i * w)%nat by lia.
  now apply slice_block.
Qed.

Lemma TrimSpace_blank width : TrimSpace (padRight width []) = [].
Proof.
  unfold padRight. cbn [app Utf8.RuneCountInString].
  rewrite Nat.sub_0_r. induction width as [|k IH]; [reflexivity|].
  cbn [repeat]. exact IH.
Qed.

(** The per-signal part of the header text decodes to the signals it was
    written from, with blank reserved fields. *)
Lemma signals_roundtrip (sigs : list Signal) (tail : list byte) :
  Forall signalOK sigs ->
  (length sigs * 256 <= length (signalText sigs ++ tail))%nat
  /\ map (decodeSignal (length sigs) (signalText sigs ++ tail))
         (seq 0 (length sigs))
     = map (set_Reserved []) sigs.
Proof.
  intros Hok. rewrite Forall_forall in Hok.
  set (n := length sigs).
  assert (W1 : forall s, In s sigs -> length (padRight 16 (Label s)) = 16%nat)
    by (intros s Hs; apply (Hok s Hs)).
  assert (W2 : forall s, In s sigs ->
                 length (padRight 80 (TransducerType s)) = 80%nat)
    by (intros s Hs; apply (Hok s Hs)).
  assert (W3 : forall s, In s sigs ->
                 length (padRight 8 (PhysicalDimension s)) = 8%nat)
    by (intros s Hs; apply (Hok s Hs)).
  assert (W4 : forall s, In s sigs ->
                 length (WriterGo.formatPhysicalValue (PhysicalMin s)) = 8%nat)
    by (intros s Hs; apply (Hok s Hs)).
  assert (W5 : forall s, In s sigs ->
                 length (WriterGo.formatPhysicalValue (PhysicalMax s)) = 8%nat)
    by (intros s Hs; apply (Hok s Hs)).
  assert (W6 : forall s, In s sigs ->
                 length (padRight 8 (formatInt (DigitalMin s))) = 8%nat)
    by (intros s Hs; apply (Hok s Hs)).
  assert (W7 : forall s, In s sigs ->
                 length (padRight 8 (formatInt (DigitalMax s))) = 8%nat)
    by (intros s Hs; apply (Hok s Hs)).
  assert (W8 : forall s, In s sigs ->
                 length (padRight 80 (Prefiltering s)) = 80%nat)
    by (intros s Hs; apply (Hok s Hs)).
  assert (W9 : forall s, In s sigs ->
                 length (padRight 8 (formatInt (SamplesPerRecord s))) = 8%nat)
    by (intros s Hs; apply (Hok s Hs)).
  assert (W10 : forall s : Signal, In s sigs ->
                  length (padRight 32 []) = 32%nat)
    by (intros s Hs; reflexivity).
  pose proof (block_length _ sigs _ W1) as L1.
  pose proof (block_length _ sigs _ W2) as L2.
  pose proof (block_length _ sigs _ W3) as L3.
  pose proof (block_length _ sigs _ W4) as L4.
  pose proof (block_length _ sigs _ W5) as L5.
  pose proof (block_length _ sigs _ W6) as L6.
  pose proof (block_length _ sigs _ W7) as L7.
  pose proof (block_length _ sigs _ W8) as L8.
  pose proof (block_length _ sigs _ W9) as L9.
  pose proof (block_length (fun _ => padRight 32 []) sigs _ W10) as L10.
  fold n in L1, L2, L3, L4, L5, L6, L7, L8, L9, L10.
  unfold signalText. repeat rewrite <- app_assoc.
  split.
  - rewrite !length_app, L1, L2, L3, L4, L5, L6, L7, L8, L9, L10. lia.
  - apply list_eq_nth. intros i.
    rewrite nth_error_map_seq, nth_error_map.
    destruct (nth_error sigs i) as [s|] eqn:Ei.
    + assert (Hi : (i < n)%nat) by (apply nth_error_Some; congruence).
      destruct (Nat.ltb_spec i n) as [_|]; [|lia].
      cbn [option_map]. f_equal.
      destruct (Hok s (nth_error_In _ _ Ei))
        as ((_ & T1) & (_ & T2) & (_ & T3) & (_ & P4) & (_ & P5)
            & (_ & I6) & (_ & I7) & (_ & T8) & (_ & I9)).
      unfold decodeSignal.
      rewrite (fieldAt_here _ sigs 16 i s) by assumption.
      do 1 (rewrite (fieldAt_skip n 16) by (first [assumption | lia])).
      cbn [Nat.sub].
      rewrite (fieldAt_here _ sigs 80 i s) by assumption.
      rewrite (fieldAt_skip n 16 96), (fieldAt_skip n 80)
        by (first [assumption | cbn; lia]).
      cbn [Nat.sub].
      rewrite (fieldAt_here _ sigs 8 i s) by assumption.
      rewrite (fieldAt_skip n 16 104), (fieldAt_skip n 80), (fieldAt_skip n 8)
        by (first [assumption | cbn; lia]).
      cbn [Nat.sub].
      rewrite (fieldAt_here _ sigs 8 i s) by assumption.
      rewrite (fieldAt_skip n 16 112), (fieldAt_skip n 80), (fieldAt_skip n 8),
        (fieldAt_skip n 8) by (first [assumption | cbn; lia]).
      cbn [Nat.sub].
      rewrite (fieldAt_here _ sigs 8 i s) by assumption.
      rewrite (fieldAt_skip n 16 120), (fieldAt_skip n 80), (fieldAt_skip n 8),
        (fieldAt_skip n 8), (fieldAt_skip n 8)
        by (first [assumption | cbn; lia]).
      cbn [Nat.sub].
      rewrite (fieldAt_here _ sigs 8 i s) by assumption.
      rewrite (fieldAt_skip n 16 128), (fieldAt_skip n 80), (fieldAt_skip n 8),
        (fieldAt_skip n 8), (fieldAt_skip n 8), (fieldAt_skip n 8)
        by (first [assumption | cbn; lia]).
      cbn [Nat.sub].
      rewrite (fieldAt_here _ sigs 8 i s) by assumption.
      rewrite (fieldAt_skip n 16 136), (fieldAt_skip n 80), (fieldAt_skip n 8),
        (fieldAt_skip n 8), (fieldAt_skip n 8), (fieldAt_skip n 8),
        (fieldAt_skip n 8) by (first [assumption | cbn; lia]).
      cbn [Nat.sub].
      rewrite (fieldAt_here _ sigs 80 i s) by assumption.
      rewrite (fieldAt_skip n 16 216), (fieldAt_skip n 80), (fieldAt_skip n 8),
        (fieldAt_skip n 8), (fieldAt_skip n 8), (fieldAt_skip n 8),
        (fieldAt_skip n 8), (fieldAt_skip n 80)
        by (first [assumption | cbn; lia]).
      cbn [Nat.sub].
      rewrite (fieldAt_here _ sigs 8 i s) by assumption.
      rewrite (fieldAt_skip n 16 224), (fieldAt_skip n 80), (fieldAt_skip n 8),
        (fieldAt_skip n 8), (fieldAt_skip n 8), (fieldAt_skip n 8),
        (fieldAt_skip n 8), (fieldAt_skip n 80), (fieldAt_skip n 8)
        by (first [assumption | cbn; lia]).
      cbn [Nat.sub].
      rewrite (fieldAt_here (fun _ => padRight 32 []) sigs 32 i s)
        by assumption.
      rewrite T1, T2, T3, P4, P5, T8.
      unfold parseInt. rewrite I6, I7, I9.
      rewrite TrimSpace_blank. reflexivity.
    + destruct (Nat.ltb_spec i n) as [Hlt|]; [|reflexivity].
      apply nth_error_None in Ei. lia.
Qed.

Lemma slice_drop (x y : list byte) p a b :
  length x = p -> (p <= a)%nat ->
  slice a b (x ++ y) = slice (a - p) (b - p) y.
Proof.
  intros <- Ha. now apply slice_app_r.
Qed.

Lemma slice_whole (x : list byte) w : length x = w -> slice 0 w x = x.
Proof. intros <-. apply slice_all. Qed.

(** The offsets at which [Open] slices the first 256 bytes are those of
    ten fields of widths 8, 80, 80, 8, 8, 8, 44, 8, 8 and 4. *)
Lemma slices_of_top (f1 f2 f3 f4 f5 f6 f7 f8 f9 f10 : list byte) :
  length f1 = 8%nat -> length f2 = 80%nat -> length f3 = 80%nat ->
  length f4 = 8%nat -> length f5 = 8%nat -> length f6 = 8%nat ->
  length f7 = 44%nat -> length f8 = 8%nat -> length f9 = 8%nat ->
  length f10 = 4%nat ->
  let top := f1 ++ f2 ++ f3 ++ f4 ++ f5 ++ f6 ++ f7 ++ f8 ++ f9 ++ f10 in
  length top = 256%nat
  /\ slice 0 8 top = f1 /\ slice 8 88 top = f2 /\ slice 88 168 top = f3
  /\ slice 168 176 top = f4 /\ slice 176 184 top = f5
  /\ slice 184 192 top = f6 /\ slice 236 244 top = f8
  /\ slice 244 252 top = f9 /\ slice 252 256 top = f10.
Proof.
  intros H1 H2 H3 H4 H5 H6 H7 H8 H9 H10 top. subst top.
  split; [rewrite !length_app; lia|].
  split; [now apply slice_take|].
  repeat split;
    repeat match goal with
           | H : length ?x = ?p |- context [slice ?a ?b (?x ++ ?y)] =>
               rewrite (slice_drop x y p a b H) by (cbn; lia); cbn [Nat.sub]
           end;
    first [now apply slice_take | now apply slice_whole].
Qed.

End Validity.

Section RoundTrip.
Context {T : TimeRep} {L : GoLib}.

Import Strings Strconv.

(** A store that starts with the text of a valid header whose record count
    fits and parses back decodes to that header, with the size
    recomputed and the reserved fields blank. *)
Lemma Open_headerText (h : Header) (tail : list byte) :
  headerOK h ->
  intOK 8 (DataRecords h) ->
  let data := headerText (recomputed h) ++ tail in
  Open (IO.mkFile data 0)
  = Ok (mkReader data (blankReserved (recomputed h))).
Proof.
  intros (HV & HP & HR & (Hd8 & Hc8 & d & c & Hd & Hc & Hdate) & HB
          & (Hdu8 & Hdur) & HSC & Hcount & Hsigs) HDR data.
  destruct HV as [HV8 HV]. destruct HP as [HP8 HP]. destruct HR as [HR8 HR].
  destruct HB as [HB8 HB]. destruct HSC as [HSC4 HSC].
  destruct HDR as [HDR8 HDR].
  subst data. unfold headerText. rewrite <- app_assoc.
  set (rest := signalText (Signals (recomputed h)) ++ tail).
  unfold topText.
  cbn [recomputed set_HeaderBytes Version PatientID RecordingID StartTime
       HeaderBytes DataRecords DataRecordDuration SignalCount].
  destruct (slices_of_top _ _ _ _ _ _ (padRight 44 []) _ _ _
              HV8 HP8 HR8 Hd8 Hc8 HB8 eq_refl HDR8 Hdu8 HSC4)
    as (Htop & S1 & S2 & S3 & S4 & S5 & S6 & S8 & S9 & S10).
  set (top := padRight 8 (Version h) ++ _) in *.
  unfold Open. cbv zeta. cbn [IO.offset IO.contents skipn].
  unfold ReadFull. rewrite length_app, Htop.
  destruct (Nat.leb_spec 256 (256 + length rest)) as [_|]; [|lia].
  cbv beta iota.
  replace (firstn 256 (top ++ rest)) with top
    by (rewrite firstn_app, Htop, Nat.sub_diag, firstn_0, app_nil_r,
          firstn_all2 by lia; reflexivity).
  replace (skipn 256 (top ++ rest)) with rest
    by (rewrite skipn_app, Htop, Nat.sub_diag, skipn_all2 by lia;
        reflexivity).
  rewrite S1, S2, S3, S4, S5, S6, S8, S9, S10.
  rewrite HV, HP, HR, Hd, Hc, HB, HDR, Hdur, HSC.
  rewrite Hcount.
  destruct (Z.ltb_spec (Z.of_nat (length (Signals h))) 0) as [|_]; [lia|].
  rewrite Nat2Z.id. rewrite readSignalHeaders_eq.
  subst rest. change (Signals (recomputed h)) with (Signals h).
  destruct (signals_roundtrip (Signals h) tail Hsigs) as [Hlen Hmap].
  destruct (Nat.leb_spec (length (Signals h) * 256)
              (length (signalText (Signals h) ++ tail))) as [_|]; [|lia].
  rewrite Hmap, Hdate. unfold blankReserved, setSignals, recomputed.
  cbn [set_HeaderBytes Version PatientID RecordingID StartTime HeaderBytes
       DataRecords DataRecordDuration SignalCount Signals].
  rewrite Hcount. reflexivity.
Qed.

End RoundTrip.

(** ** Decimal integers and ASCII text *)

Section TextFacts.
Context {T : TimeRep} {L : GoLib}.

Import Strings Strconv.

Lemma byteVal_byteOf z : 0 <= z < 256 -> byteVal (byteOf z) = z.
Proof.
  intros Hz. unfold byteVal, byteOf. rewrite Z.mod_small by lia.
  rewrite N_ascii_embedding.
  - lia.
  - apply N2Z.inj_lt. rewrite Z2N.id by lia. simpl. lia.
Qed.

Lemma byteVal_digitChar d : 0 <= d < 10 -> byteVal (digitChar d) = 48 + d.
Proof. intros Hd. unfold digitChar. apply byteVal_byteOf. lia. Qed.

Lemma isDigit_digitChar d : 0 <= d < 10 -> isDigit (digitChar d) = true.
Proof.
  intros Hd. unfold isDigit. rewrite byteVal_digitChar by assumption.
  apply andb_true_intro. split; apply Z.leb_le; lia.
Qed.

Lemma atoiDigits_app x y a :
  atoiDigits (x ++ y) a
  = match atoiDigits x a with
    | Some v => atoiDigits y v
    | None => None
    end.
Proof.
  revert a. induction x as [|c x IH]; intros a; cbn [app atoiDigits].
  - reflexivity.
  - destruct (isDigit c); [apply IH | reflexivity].
Qed.

(** The digits the formatting loop produces for [n]. *)
Lemma digitsFuel_spec fuel : forall n acc,
  (0 < fuel)%nat ->
  0 <= n < 10 ^ Z.of_nat fuel ->
  exists ds,
    digitsFuel fuel n acc = ds ++ acc
    /\ Forall (fun c => isDigit c = true) ds
    /\ ds <> []
    /\ (forall a, atoiDigits ds a = Some (a * 10 ^ Z.of_nat (length ds) + n))
    /\ (forall k, (0 < k)%nat -> n < 10 ^ Z.of_nat k -> (length ds <= k)%nat).
Proof.
  induction fuel as [|fuel IH]; intros n acc Hpos Hn.
  - lia.
  - cbn [digitsFuel]. destruct (Z.ltb_spec n 10) as [Hsmall|Hbig].
    + exists [digitChar n]. split; [reflexivity|].
      split; [constructor; [apply isDigit_digitChar; lia | constructor]|].
      split; [discriminate|]. split.
      * intros a. cbn [atoiDigits length].
        rewrite isDigit_digitChar, byteVal_digitChar by lia.
        f_equal. change (10 ^ Z.of_nat 1) with 10. lia.
      * intros k Hk _. simpl. lia.
    + assert (Hfuel : (0 < fuel)%nat).
      { destruct fuel; [simpl in Hn; lia | lia]. }
      assert (Hdiv : 0 <= n / 10 < 10 ^ Z.of_nat fuel).
      { split; [apply Z.div_pos; lia|].
        apply Z.div_lt_upper_bound; [lia|].
        replace (10 * 10 ^ Z.of_nat fuel) with (10 ^ Z.of_nat (S fuel)); [lia|].
        rewrite Nat2Z.inj_succ, Z.pow_succ_r by lia. reflexivity. }
      destruct (IH (n / 10) (digitChar (n mod 10) :: acc) Hfuel Hdiv)
        as (ds & Heq & Hdig & Hne & Hval & Hlen).
      pose proof (Z.mod_pos_bound n 10 ltac:(lia)) as Hmod.
      exists (ds ++ [digitChar (n mod 10)]).
      split; [rewrite Heq, <- app_assoc; reflexivity|].
      split.
      { apply Forall_app. split; [assumption|].
        constructor; [apply isDigit_digitChar; lia | constructor]. }
      split; [intros E; apply app_eq_nil in E; destruct E; discriminate|].
      split.
      * intros a. rewrite atoiDigits_app, Hval. cbn [atoiDigits].
        rewrite isDigit_digitChar, byteVal_digitChar by lia.
        f_equal. rewrite length_app. cbn [length].
        replace (Z.of_nat (length ds + 1)) with (Z.succ (Z.of_nat (length ds)))
          by lia.
        rewrite Z.pow_succ_r by lia.
        pose proof (Z.div_mod n 10 ltac:(lia)). lia.
      * intros k Hk Hnk. rewrite length_app. cbn [length].
        destruct k as [|[|k]]; [lia| simpl in Hnk; lia |].
        assert (n / 10 < 10 ^ Z.of_nat (S k)).
        { apply Z.div_lt_upper_bound; [lia|].
          replace (10 * 10 ^ Z.of_nat (S k)) with (10 ^ Z.of_nat (S (S k)));
            [lia|].
          rewrite (Nat2Z.inj_succ (S k)), Z.pow_succ_r by lia. reflexivity. }
        specialize (Hlen (S k) ltac:(lia) H). lia.
Qed.

Lemma formatUint_spec n :
  0 <= n ->
  Forall (fun c => isDigit c = true) (formatUint n)
  /\ formatUint n <> []
  /\ atoiDigits (formatUint n) 0 = Some n
  /\ (forall k, (0 < k)%nat -> n < 10 ^ Z.of_nat k ->
                (length (formatUint n) <= k)%nat).
Proof.
  intros Hn. unfold formatUint.
  assert (Hfuel : 0 <= n < 10 ^ Z.of_nat (S (Z.to_nat (Z.log2 n)))).
  { split; [assumption|].
    destruct (Z.eq_dec n 0) as [->|Hnz]; [reflexivity|].
    pose proof (Z.log2_spec n ltac:(lia)) as [_ Hup].
    pose proof (Z.log2_nonneg n).
    rewrite Nat2Z.inj_succ, Z2Nat.id by lia.
    eapply Z.lt_le_trans; [exact Hup|].
    apply Z.pow_le_mono_l. lia. }
  destruct (digitsFuel_spec _ n [] (Nat.lt_0_succ _) Hfuel)
    as (ds & Heq & Hdig & Hne & Hval & Hlen).
  rewrite Heq, app_nil_r.
  split; [assumption|]. split; [assumption|]. split; [|assumption].
  rewrite Hval. f_equal.
Qed.

(** Text without white space at either end. *)
Definition trimmed (s : list byte) : Prop :=
  match s with
  | [] => True
  | c :: _ => asciiSpace c = false /\ asciiSpace (last s c) = false
  end.

Lemma RuneCount_ASCII (s : list byte) :
  allASCII s = true -> Utf8.RuneCountInString s = length s.
Proof.
  induction s as [|c s IH]; intros H; [reflexivity|].
  cbn [allASCII forallb] in H. apply andb_prop in H. destruct H as [Hc Hs].
  cbn [Utf8.RuneCountInString length].
  assert (Hfirst : Utf8.first c = None).
  { unfold Utf8.first, Utf8.isASCII, Utf8.RuneSelf in *.
    apply Z.ltb_lt in Hc.
    destruct (Z.ltb_spec (byteVal c) 194); [reflexivity | lia]. }
  rewrite Hfirst. f_equal. now apply IH.
Qed.

Lemma trimRightRev_spaces k (rs : list byte) :
  trimRightRev (repeat space k ++ rs) = trimRightRev rs.
Proof.
  induction k as [|k IH]; [reflexivity|]. cbn [repeat app trimRightRev].
  exact IH.
Qed.

Lemma last_rev_head (c : byte) (s : list byte) d :
  last (c :: s) d = hd d (rev (c :: s)).
Proof.
  rewrite <- (rev_involutive (c :: s)) at 1.
  destruct (rev (c :: s)) as [|x xs] eqn:E.
  - apply (f_equal (@length _)) in E. rewrite length_rev in E. discriminate.
  - cbn [rev hd]. apply last_last.
Qed.

(** Padding ASCII text that is trimmed and trimming it again gives the
    text back. *)
Lemma TrimSpace_padRight width (s : list byte) :
  allASCII s = true -> trimmed s ->
  TrimSpace (padRight width s) = s.
Proof.
  intros Hascii Htrim. destruct s as [|c s].
  - apply TrimSpace_blank.
  - destruct Htrim as [Hhead Hlast].
    unfold padRight. cbn [app TrimSpace].
    pose proof Hascii as Hall.
    cbn [allASCII forallb] in Hascii. apply andb_prop in Hascii.
    destruct Hascii as [Hc _]. rewrite Hc, Hhead. cbn [negb].
    change (c :: s ++ repeat space (width - Utf8.RuneCountInString (c :: s)))
      with ((c :: s) ++ repeat space (width - Utf8.RuneCountInString (c :: s))).
    rewrite rev_app_distr, rev_repeat, trimRightRev_spaces.
    rewrite (last_rev_head c s c) in Hlast.
    assert (Hin : forall x, In x (rev (c :: s)) -> Utf8.isASCII x = true).
    { intros x Hx. apply in_rev in Hx.
      unfold allASCII in Hall. rewrite forallb_forall in Hall. now apply Hall. }
    destruct (rev (c :: s)) as [|x xs] eqn:E.
    + apply (f_equal (@length _)) in E. rewrite length_rev in E. discriminate.
    + cbn [hd] in Hlast. cbn [trimRightRev].
      rewrite (Hin x (or_introl eq_refl)), Hlast. cbn [negb].
      rewrite <- E. apply rev_involutive.
Qed.

Lemma padRight_ASCII_length width (s : list byte) :
  allASCII s = true -> (length s <= width)%nat ->
  length (padRight width s) = width.
Proof.
  intros Hascii Hlen. unfold padRight.
  rewrite length_app, repeat_length, RuneCount_ASCII by assumption. lia.
Qed.

(** ASCII text that is trimmed and no longer than the field is a valid
    text field. *)
Lemma textOK_clean width (s : list byte) :
  allASCII s = true -> trimmed s -> (length s <= width)%nat ->
  textOK width s.
Proof.
  intros Ha Ht Hl. split.
  - now apply padRight_ASCII_length.
  - now apply TrimSpace_padRight.
Qed.

Lemma isDigit_ASCII c : isDigit c = true -> Utf8.isASCII c = true.
Proof.
  unfold isDigit, Utf8.isASCII, Utf8.RuneSelf. intros H.
  apply andb_prop in H. destruct H as [_ H]. apply Z.leb_le in H.
  apply Z.ltb_lt. lia.
Qed.

Lemma isDigit_not_space c : isDigit c = true -> asciiSpace c = false.
Proof.
  unfold isDigit, asciiSpace. intros H.
  apply andb_prop in H. destruct H as [H1 H2].
  apply Z.leb_le in H1. apply Z.leb_le in H2.
  repeat (apply orb_false_intro); apply Z.eqb_neq; lia.
Qed.

(** A non-negative integer below [10 ^ width] is a valid integer field of
    that width. *)
Lemma intOK_nonneg width z :
  (0 < width)%nat -> 0 <= z < 10 ^ Z.of_nat width -> z <= GoInt.maxInt ->
  intOK width z.
Proof.
  intros Hw Hz Hmax.
  destruct (formatUint_spec z ltac:(lia)) as (Hdig & Hne & Hval & Hlen).
  unfold intOK, formatInt.
  destruct (Z.ltb_spec z 0) as [|_]; [lia|].
  assert (Hascii : allASCII (formatUint z) = true).
  { unfold allASCII. apply forallb_forall. intros c Hc.
    rewrite Forall_forall in Hdig. apply isDigit_ASCII. now apply Hdig. }
  assert (Htrim : trimmed (formatUint z)).
  { rewrite Forall_forall in Hdig.
    destruct (formatUint z) as [|c s] eqn:E; [exact I|]. split.
    - apply isDigit_not_space, Hdig. now left.
    - apply isDigit_not_space, Hdig.
      destruct (exists_last (l := c :: s) ltac:(discriminate)) as (l' & a & El).
      rewrite El, last_last. apply in_or_app. right. now left. }
  split.
  - apply padRight_ASCII_length; [assumption|]. apply Hlen; lia.
  - rewrite TrimSpace_padRight by assumption.
    unfold Atoi.
    destruct (formatUint z) as [|c s] eqn:E; [contradiction|].
    rewrite Forall_forall in Hdig.
    assert (Hc : isDigit c = true) by (apply Hdig; now left).
    unfold isDigit in Hc. apply andb_prop in Hc. destruct Hc as [Hc1 Hc2].
    apply Z.leb_le in Hc1.
    destruct (Z.eqb_spec (byteVal c) 45) as [|_]; [lia|].
    destruct (Z.eqb_spec (byteVal c) 43) as [|_]; [lia|].
    cbn [orb]. rewrite Hval.
    unfold GoInt.minInt, GoInt.maxInt in *.
    destruct (Z.leb_spec (- 2 ^ 63) z) as [_|]; [|lia].
    destruct (Z.leb_spec z (2 ^ 63 - 1)) as [_|]; [|lia].
    reflexivity.
Qed.

End TextFacts.

(** ** Writing a header and reading it back *)

Section Lifecycle.
Context {T : TimeRep} {L : GoLib}.

Import Strings Strconv.

Lemma headerOK_set_DataRecords v (h : Header) :
  headerOK h -> headerOK (set_DataRecords v h).
Proof. intros H. exact H. Qed.

Lemma fits_of_width width (s : list byte) :
  length (padRight width s) = width -> (length s <= width)%nat.
Proof. intros <-. apply padRight_length_ge. Qed.

Lemma emits_encodeStart (h : Header) :
  headerOK h ->
  emits (WriterChecked.encodeStart h)
        (padRight 8 (Version h) ++ padRight 80 (PatientID h)
         ++ padRight 80 (RecordingID h)
         ++ padRight 8 (Format_date (StartTime h))
         ++ padRight 8 (Format_clock (StartTime h))).
Proof.
  intros ((HV & _) & (HP & _) & (HR & _) & (Hd8 & Hc8 & _) & _).
  unfold WriterChecked.encodeStart.
  repeat apply emits_bind; apply emits_writeChecked; now apply fits_of_width.
Qed.

Lemma emits_encodeRest (h : Header) :
  headerOK h -> intOK 8 (DataRecords h) ->
  emits (WriterChecked.encodeRest (recomputed h))
        (padRight 8 (formatInt (HeaderBytes (recomputed h)))
         ++ padRight 44 []
         ++ padRight 8 (formatInt (DataRecords h))
         ++ padRight 8 (formatInt (ceilSeconds (DataRecordDuration h)))
         ++ padRight 4 (formatInt (SignalCount h))
         ++ signalText (Signals h)).
Proof.
  intros (_ & _ & _ & _ & (HB & _) & (Hdu & _) & (HSC & _) & _ & Hsigs)
         (HDR & _).
  rewrite Forall_forall in Hsigs.
  unfold WriterChecked.encodeRest, signalText.
  cbn [recomputed set_HeaderBytes HeaderBytes DataRecords DataRecordDuration
       SignalCount Signals].
  repeat apply emits_bind;
    try (apply emits_writeChecked; first [now apply fits_of_width | cbn; lia]);
    apply emits_forSignals; intros j s Hs;
    destruct (Hsigs s Hs)
      as ((T1 & _) & (T2 & _) & (T3 & _) & (P4 & _) & (P5 & _)
          & (I6 & _) & (I7 & _) & (T8 & _) & (I9 & _));
    first [ apply emits_writeChecked;
            first [now apply fits_of_width | cbn; lia]
          | now apply emits_writePhysical ].
Qed.

(** On a valid header the two revisions of [writeHeader] do the same. *)
Lemma WriterChecked_writeHeader_valid (ew : Writer) :
  headerOK (hdr ew) -> intOK 8 (DataRecords (hdr ew)) ->
  WriterChecked.writeHeader ew = WriterGo.writeHeader ew.
Proof.
  intros Hok Hdr. rewrite WriterGo_writeHeader_eq.
  unfold WriterChecked.writeHeader. cbv zeta.
  destruct (emits_encodeStart (hdr ew) Hok (IO.NewWriter (IO.Rewind (w ew))))
    as (b1 & E1 & F1).
  rewrite E1. fold (recomputed (hdr ew)).
  destruct (emits_encodeRest (hdr ew) Hok Hdr b1) as (b2 & E2 & F2).
  rewrite E2. f_equal. f_equal.
  change (IO.wr (IO.Flush b2)) with (IO.flushed b2).
  rewrite F2, F1, flushed_NewWriter, !Write_Write. f_equal.
  unfold headerText, topText.
  cbn [recomputed set_HeaderBytes Version PatientID RecordingID StartTime
       HeaderBytes DataRecords DataRecordDuration SignalCount Signals app].
  repeat rewrite <- app_assoc. reflexivity.
Qed.

Lemma intOK_minus_one : intOK 8 (-1).
Proof. split; reflexivity. Qed.

Lemma Rewind_Write_Rewind (f : IO.File) (text : list byte) :
  IO.Rewind (IO.Write (IO.Rewind f) text)
  = IO.mkFile (text ++ skipn (length text) (IO.contents f)) 0.
Proof. reflexivity. Qed.

(** What [writeHeader] (either revision) leaves on the store for a valid
    header decodes to the header it encoded, reserved fields blank. *)
Lemma writeHeader_roundtrip (ew : Writer) :
  headerOK (hdr ew) -> intOK 8 (DataRecords (hdr ew)) ->
  exists ew',
    WriterGo.writeHeader ew = (ew', None)
    /\ WriterChecked.writeHeader ew = (ew', None)
    /\ hdr ew' = recomputed (hdr ew)
    /\ dataRecords ew' = dataRecords ew
    /\ w ew' = IO.Write (IO.Rewind (w ew)) (headerText (hdr ew'))
    /\ Open (IO.Rewind (w ew'))
       = Ok (mkReader (IO.contents (w ew')) (blankReserved (hdr ew'))).
Proof.
  intros Hok Hdr. eexists.
  split; [apply WriterGo_writeHeader_eq|].
  split; [rewrite WriterChecked_writeHeader_valid by assumption;
          apply WriterGo_writeHeader_eq|].
  cbn [hdr w dataRecords]. split; [reflexivity|]. split; [reflexivity|].
  split; [reflexivity|].
  rewrite Rewind_Write_Rewind.
  change (IO.contents (IO.Write (IO.Rewind (w ew))
                         (headerText (recomputed (hdr ew)))))
    with (headerText (recomputed (hdr ew))
          ++ skipn (length (headerText (recomputed (hdr ew))))
                   (IO.contents (w ew))).
  now apply Open_headerText.
Qed.

(** C2 (amended): for every valid header, that is, one whose every
    written field fits its width and parses back and whose [SignalCount] is
    the number of its signals, [Create] succeeds in both revisions of the
    writer with the same result, and [Open] on the rewound store returns
    the writer's header with every signal's reserved field blank: every
    field of the header given to [Create] is reproduced except
    [HeaderBytes] (recomputed), [DataRecords] (the sentinel -1) and the
    signals' [Reserved] (always written blank). *)
Theorem header_roundtrip (sink : IO.File) (h : Header) :
  headerOK h ->
  exists ew,
    WriterGo.Create sink h = (w ew, Ok ew)
    /\ WriterChecked.Create sink h = (w ew, Ok ew)
    /\ hdr ew = recomputed (set_DataRecords (-1) h)
    /\ Open (IO.Rewind (w ew))
       = Ok (mkReader (IO.contents (w ew)) (blankReserved (hdr ew))).
Proof.
  intros Hok.
  destruct (writeHeader_roundtrip (mkWriter sink (set_DataRecords (-1) h) 0))
    as (ew & HGo & HChecked & Hhdr & _ & _ & HOpen).
  { exact Hok. }
  { exact intOK_minus_one. }
  exists ew. unfold WriterGo.Create, WriterChecked.Create, CreateWith.
  cbv zeta. rewrite HGo, HChecked.
  repeat split; assumption.
Qed.

Lemma WriteRecord_ok_inv (ew ew' : Writer) signals u :
  WriteRecord ew signals = (ew', Ok u) ->
  hdr ew' = hdr ew /\ dataRecords ew' = GoInt.add (dataRecords ew) 1.
Proof.
  unfold WriteRecord.
  destruct (negb _); [discriminate|].
  destruct (_ >? _); [discriminate|].
  destruct (writeChannels _ _ _) as [b [x|e|]]; intros H; inversion H.
  split; reflexivity.
Qed.

Lemma writeAll_count records : forall (ew ew' : Writer),
  writeAll ew records = Some ew' ->
  0 <= dataRecords ew ->
  dataRecords ew + Z.of_nat (length records) <= GoInt.maxInt ->
  hdr ew' = hdr ew
  /\ dataRecords ew' = dataRecords ew + Z.of_nat (length records).
Proof.
  induction records as [|signals rest IH]; intros ew ew' H H0 Hmax.
  - cbn in H. inversion H. cbn. split; [reflexivity | lia].
  - cbn [writeAll] in H.
    destruct (WriteRecord ew signals) as [ew1 [u|e|]] eqn:E; try discriminate.
    apply WriteRecord_ok_inv in E. destruct E as [Hh Hd].
    unfold GoInt.add in Hd. rewrite wrap64_id in Hd
      by (unfold GoInt.inInt, GoInt.minInt, GoInt.maxInt in *;
          cbn [length] in Hmax; lia).
    cbn [length] in Hmax.
    destruct (IH ew1 ew' H) as [Hh' Hd']; try lia.
    cbn [length]. split; [congruence | lia].
Qed.

End Lifecycle.

(** ** The sample header *)

Ltac calc := match goal with |- @eq _ _ _ => vm_compute; reflexivity end.

Lemma Demo_signal_ok : signalOK (L := Ref.lib) Demo.signal.
Proof.
  unfold signalOK, textOK, intOK, physOK.
  repeat split; calc.
Qed.

Lemma Demo_header_ok : headerOK (L := Ref.lib) Demo.header.
Proof.
  unfold headerOK, textOK, intOK, timeOK, durationOK.
  repeat split; try calc.
  - exists (Ref.mkCivil 2024 5 17 0 0 0 0), (Ref.mkCivil 0 1 1 13 4 59 0).
    repeat split; calc.
  - constructor; [exact Demo_signal_ok | constructor].
Qed.

Lemma Demo_annotated_ok : headerOK (L := Ref.lib) Demo.annotated.
Proof.
  unfold headerOK, textOK, intOK, timeOK, durationOK.
  repeat split; try calc.
  - exists (Ref.mkCivil 2024 5 17 0 0 0 0), (Ref.mkCivil 0 1 1 13 4 59 0).
    repeat split; calc.
  - constructor; [| constructor].
    unfold signalOK, textOK, intOK, physOK.
    repeat split; calc.
Qed.

Lemma header_roundtrip_witness :
  exists ew,
    WriterGo.Create (L := Ref.lib) Demo.emptyFile Demo.header = (w ew, Ok ew)
    /\ WriterChecked.Create (L := Ref.lib) Demo.emptyFile Demo.header
       = (w ew, Ok ew)
    /\ hdr ew = recomputed (set_DataRecords (-1) Demo.header)
    /\ Open (L := Ref.lib) (IO.Rewind (w ew))
       = Ok (mkReader (IO.contents (w ew)) (blankReserved (hdr ew))).
Proof.
  exact (header_roundtrip (L := Ref.lib) Demo.emptyFile Demo.header
           Demo_header_ok).
Defined.

(** C2 as stated fails: a header whose signal has the reserved text "x"
    is valid, the reserved field included (it fits its 32 bytes and trims
    back to itself), yet the header decoded after [Create] has a blank
    reserved field. *)
Lemma roundtrip_loses_reserved :
  headerOK (L := Ref.lib) Demo.annotated
  /\ Forall (fun s => textOK (L := Ref.lib) 32 (Reserved s))
            (Signals Demo.annotated)
  /\ match WriterGo.Create (L := Ref.lib) Demo.emptyFile Demo.annotated with
     | (sink, Ok _) =>
         match Open (L := Ref.lib) (IO.Rewind sink) with
         | Ok rd =>
             map Reserved (Signals (rhdr rd)) = [[]]
             /\ map Reserved (Signals Demo.annotated) = [str "x"]
         | _ => False
         end
     | _ => False
     end.
Proof.
  split; [exact Demo_annotated_ok|]. split.
  - constructor; [|constructor]. split; calc.
  - vm_compute. split; reflexivity.
Qed.

(** * Further properties *)

(** ** What the checking encoder accepts *)

Section CheckedEncoder.
Context {T : TimeRep} {L : GoLib}.

Import Strings Strconv.

(** A physical bound has a form of at most 8 bytes: with two decimals or,
    failing that, with none. *)
Definition physFits (v : float) : Prop :=
  (length (Sprintf_2f v) <= 8)%nat \/ (length (Sprintf_0f v) <= 8)%nat.

Definition signalFits (s : Signal) : Prop :=
  (length (Label s) <= 16)%nat
  /\ (length (TransducerType s) <= 80)%nat
  /\ (length (PhysicalDimension s) <= 8)%nat
  /\ physFits (PhysicalMin s) /\ physFits (PhysicalMax s)
  /\ (length (formatInt (DigitalMin s)) <= 8)%nat
  /\ (length (formatInt (DigitalMax s)) <= 8)%nat
  /\ (length (Prefiltering s) <= 80)%nat
  /\ (length (formatInt (SamplesPerRecord s)) <= 8)%nat.

(** Every value [writeHeader] formats is at most as long, in bytes, as
    its field. *)
Definition allFit (h : Header) : Prop :=
  (length (Version h) <= 8)%nat
  /\ (length (PatientID h) <= 80)%nat
  /\ (length (RecordingID h) <= 80)%nat
  /\ (length (Format_date (StartTime h)) <= 8)%nat
  /\ (length (Format_clock (StartTime h)) <= 8)%nat
  /\ (length (formatInt (GoInt.add 256 (GoInt.mul (SignalCount h) 256))) <= 8)%nat
  /\ (length (formatInt (DataRecords h)) <= 8)%nat
  /\ (length (formatInt (ceilSeconds (DataRecordDuration h))) <= 8)%nat
  /\ (length (formatInt (SignalCount h)) <= 4)%nat
  /\ Forall signalFits (Signals h).

Lemma writePhysical_ok_inv name val i s b b' x :
  WriterChecked.writePhysical name val i s b = (b', inr x) ->
  physFits (val s)
  /\ b' = IO.WriteString b (WriterGo.formatPhysicalValue (val s)).
Proof.
  unfold WriterChecked.writePhysical, WriterChecked.formatPhysicalValue,
    WriterGo.formatPhysicalValue, physFits. cbv zeta.
  destruct (Nat.ltb_spec 8 (length (Sprintf_2f (val s)))) as [H2|H2].
  - destruct (Nat.ltb_spec 8 (length (Sprintf_0f (val s)))) as [H0|H0];
      intros H; inversion H. split; [right; lia | reflexivity].
  - intros H; inversion H. split; [left; lia | reflexivity].
Qed.

Lemma emits_writePhysical_fits name val i s :
  physFits (val s) ->
  emits (WriterChecked.writePhysical name val i s)
        (WriterGo.formatPhysicalValue (val s)).
Proof.
  intros Hfit b.
  unfold WriterChecked.writePhysical, WriterChecked.formatPhysicalValue,
    WriterGo.formatPhysicalValue, physFits in *. cbv zeta.
  destruct (Nat.ltb_spec 8 (length (Sprintf_2f (val s)))) as [H2|H2].
  - destruct (Nat.ltb_spec 8 (length (Sprintf_0f (val s)))) as [H0|H0];
      [lia|].
    eexists. split; [reflexivity|]. apply WriteString_flushed.
  - eexists. split; [reflexivity|]. apply WriteString_flushed.
Qed.

Ltac split_ok H :=
  repeat match type of H with
         | WriterChecked.bind _ _ _ = (_, inr _) =>
             let b := fresh "b" in let a := fresh "a" in
             let H1 := fresh "Hstep" in
             apply bind_ok_inv in H; destruct H as (b & a & H1 & H)
         end.

Lemma encodeStart_ok_inv (h : Header) b b' x :
  WriterChecked.encodeStart h b = (b', inr x) ->
  (length (Version h) <= 8)%nat
  /\ (length (PatientID h) <= 80)%nat
  /\ (length (RecordingID h) <= 80)%nat
  /\ (length (Format_date (StartTime h)) <= 8)%nat
  /\ (length (Format_clock (StartTime h)) <= 8)%nat.
Proof.
  unfold WriterChecked.encodeStart. intros H. split_ok H.
  repeat match goal with
         | H : WriterChecked.writeChecked _ _ _ _ = _ |- _ =>
             apply writeChecked_ok_inv in H; destruct H as [H _]
         end.
  auto.
Qed.

Lemma encodeRest_ok_inv (h : Header) b b' x :
  WriterChecked.encodeRest h b = (b', inr x) ->
  (length (formatInt (HeaderBytes h)) <= 8)%nat
  /\ (length (formatInt (DataRecords h)) <= 8)%nat
  /\ (length (formatInt (ceilSeconds (DataRecordDuration h))) <= 8)%nat
  /\ (length (formatInt (SignalCount h)) <= 4)%nat
  /\ Forall signalFits (Signals h).
Proof.
  unfold WriterChecked.encodeRest. intros H. split_ok H.
  repeat match goal with
         | H : WriterChecked.writeChecked _ _ _ _ = _ |- _ =>
             apply writeChecked_ok_inv in H; destruct H as [H _]
         end.
  repeat (split; [assumption|]).
  repeat match goal with
         | H : WriterChecked.forSignals (WriterChecked.writePhysical _ ?val) _ _ _ = _ |- _ =>
             apply (forSignals_ok_inv (fun s => physFits (val s))) in H;
               [| intros ? ? ? ? ? Hc; now apply writePhysical_ok_inv in Hc]
         | H : WriterChecked.forSignals
                 (fun i s => WriterChecked.writeChecked _ (@?v s) ?width) _ _ _ = _ |- _ =>
             apply (forSignals_ok_inv (fun s => (length (v s) <= width)%nat)) in H;
               [| intros ? ? ? ? ? Hc; now apply writeChecked_ok_inv in Hc]
         end.
  rewrite Forall_forall in *. intros s Hs. unfold signalFits.
  repeat split; auto.
Qed.

Lemma emits_encodeStart_fits (h : Header) :
  allFit h ->
  emits (WriterChecked.encodeStart h)
        (padRight 8 (Version h) ++ padRight 80 (PatientID h)
         ++ padRight 80 (RecordingID h)
         ++ padRight 8 (Format_date (StartTime h))
         ++ padRight 8 (Format_clock (StartTime h))).
Proof.
  intros (HV & HP & HR & Hd8 & Hc8 & _).
  unfold WriterChecked.encodeStart.
  repeat apply emits_bind; now apply emits_writeChecked.
Qed.

Lemma emits_encodeRest_fits (h : Header) :
  allFit h ->
  emits (WriterChecked.encodeRest (recomputed h))
        (padRight 8 (formatInt (HeaderBytes (recomputed h)))
         ++ padRight 44 []
         ++ padRight 8 (formatInt (DataRecords h))
         ++ padRight 8 (formatInt (ceilSeconds (DataRecordDuration h)))
         ++ padRight 4 (formatInt (SignalCount h))
         ++ signalText (Signals h)).
Proof.
  intros (_ & _ & _ & _ & _ & HB & HDR & Hdu & HSC & Hsigs).
  rewrite Forall_forall in Hsigs.
  unfold WriterChecked.encodeRest, signalText.
  cbn [recomputed set_HeaderBytes HeaderBytes DataRecords DataRecordDuration
       SignalCount Signals].
  repeat apply emits_bind;
    try (apply emits_writeChecked; first [assumption | cbn; lia]);
    apply emits_forSignals; intros j s Hs;
    destruct (Hsigs s Hs) as (T1 & T2 & T3 & P4 & P5 & I6 & I7 & T8 & I9);
    first [ apply emits_writeChecked; first [assumption | cbn; lia]
          | now apply emits_writePhysical_fits ].
Qed.

Lemma WriterChecked_writeHeader_fits (ew : Writer) :
  allFit (hdr ew) -> WriterChecked.writeHeader ew = WriterGo.writeHeader ew.
Proof.
  intros Hfit. rewrite WriterGo_writeHeader_eq.
  unfold WriterChecked.writeHeader. cbv zeta.
  destruct (emits_encodeStart_fits (hdr ew) Hfit (IO.NewWriter (IO.Rewind (w ew))))
    as (b1 & E1 & F1).
  rewrite E1. fold (recomputed (hdr ew)).
  destruct (emits_encodeRest_fits (hdr ew) Hfit b1) as (b2 & E2 & F2).
  rewrite E2. f_equal. f_equal.
  change (IO.wr (IO.Flush b2)) with (IO.flushed b2).
  rewrite F2, F1, flushed_NewWriter, !Write_Write. f_equal.
  unfold headerText, topText.
  cbn [recomputed set_HeaderBytes Version PatientID RecordingID StartTime
       HeaderBytes DataRecords DataRecordDuration SignalCount Signals app].
  repeat rewrite <- app_assoc. reflexivity.
Qed.

Lemma WriterChecked_ok_allFit (ew : Writer) :
  snd (WriterChecked.writeHeader ew) = None -> allFit (hdr ew).
Proof.
  unfold WriterChecked.writeHeader.
  destruct (WriterChecked.encodeStart _ _) as [b1 [e1|u1]] eqn:E1; simpl;
    [discriminate|].
  destruct (WriterChecked.encodeRest _ _) as [b2 [e2|u2]] eqn:E2; simpl;
    [discriminate|]. intros _.
  apply encodeStart_ok_inv in E1. apply encodeRest_ok_inv in E2.
  cbn [set_HeaderBytes HeaderBytes DataRecords DataRecordDuration SignalCount
       Signals] in E2.
  unfold allFit. tauto.
Qed.

(** X2: whenever the revised [writeHeader] returns no error, it has written
    the same bytes and left the same writer as writer.go's [writeHeader]:
    the revision only adds refusals. *)
Theorem checked_writeHeader_agrees_on_success (ew : Writer) :
  snd (WriterChecked.writeHeader ew) = None ->
  WriterChecked.writeHeader ew = WriterGo.writeHeader ew
  /\ w (fst (WriterChecked.writeHeader ew))
     = IO.Write (IO.Rewind (w ew)) (headerText (recomputed (hdr ew))).
Proof.
  intros Hok. apply WriterChecked_ok_allFit in Hok.
  rewrite WriterChecked_writeHeader_fits by assumption.
  rewrite WriterGo_writeHeader_eq. split; reflexivity.
Qed.

End CheckedEncoder.

(** ** Closing twice, and what a record adds to the store *)

Section WriterEffects.
Context {T : TimeRep} {L : GoLib}.

Import Strings Strconv.

Lemma recomputed_set_DataRecords d (h : Header) :
  set_DataRecords d (recomputed (set_DataRecords d h))
  = recomputed (set_DataRecords d h).
Proof. reflexivity. Qed.

Lemma recomputed_idem (h : Header) : recomputed (recomputed h) = recomputed h.
Proof. reflexivity. Qed.

Lemma headerText_recomputed_idem (h : Header) :
  headerText (recomputed (recomputed h)) = headerText (recomputed h).
Proof. reflexivity. Qed.

Lemma Write_Rewind_twice (f : IO.File) (text : list byte) :
  IO.Write (IO.Rewind (IO.Write (IO.Rewind f) text)) text
  = IO.Write (IO.Rewind f) text.
Proof.
  unfold IO.Write, IO.Rewind, IO.writeAt. cbn [IO.contents IO.offset].
  f_equal. cbn [firstn Nat.sub repeat app Nat.add].
  f_equal. rewrite skipn_app, Nat.sub_diag, skipn_all. reflexivity.
Qed.

Lemma WriterGo_Close_eq (ew : Writer) :
  WriterGo.Close ew
  = (mkWriter
       (IO.Write (IO.Rewind (w ew))
          (headerText (recomputed (set_DataRecords (dataRecords ew) (hdr ew)))))
       (recomputed (set_DataRecords (dataRecords ew) (hdr ew)))
       (dataRecords ew), None).
Proof.
  unfold WriterGo.Close, CloseWith. cbv zeta.
  rewrite WriterGo_writeHeader_eq. reflexivity.
Qed.

Lemma allFit_recomputed (h : Header) : allFit (recomputed h) <-> allFit h.
Proof. reflexivity. Qed.

Lemma WriterChecked_Close_ok (ew : Writer) :
  snd (WriterChecked.Close ew) = None ->
  allFit (set_DataRecords (dataRecords ew) (hdr ew))
  /\ WriterChecked.Close ew = WriterGo.Close ew.
Proof.
  unfold WriterChecked.Close, WriterGo.Close, CloseWith. cbv zeta.
  set (ew1 := mkWriter (w ew) (set_DataRecords (dataRecords ew) (hdr ew))
                       (dataRecords ew)).
  intros H.
  assert (Hok : snd (WriterChecked.writeHeader ew1) = None).
  { destruct (WriterChecked.writeHeader ew1) as [ew' [e|]];
      [discriminate | reflexivity]. }
  apply WriterChecked_ok_allFit in Hok. split; [exact Hok|].
  now rewrite WriterChecked_writeHeader_fits.
Qed.

(** X3: [Close] may be called again: a second [Close] rewrites the same
    header over itself and leaves the store, the header and the counter as
    the first one did.  For the revised writer this holds when the first
    [Close] returned no error. *)
Theorem Close_idempotent (ew : Writer) :
  WriterGo.Close (fst (WriterGo.Close ew)) = WriterGo.Close ew
  /\ (snd (WriterChecked.Close ew) = None ->
      WriterChecked.Close (fst (WriterChecked.Close ew))
      = WriterChecked.Close ew).
Proof.
  assert (HGo : WriterGo.Close (fst (WriterGo.Close ew)) = WriterGo.Close ew).
  { rewrite (WriterGo_Close_eq ew). cbn [fst].
    rewrite WriterGo_Close_eq. cbn [w hdr dataRecords].
    rewrite recomputed_set_DataRecords, recomputed_idem, Write_Rewind_twice.
    reflexivity. }
  split; [exact HGo|].
  intros Hok. destruct (WriterChecked_Close_ok ew Hok) as [Hfit Heq].
  rewrite Heq.
  assert (H2 : WriterChecked.Close (fst (WriterGo.Close ew))
               = WriterGo.Close (fst (WriterGo.Close ew))).
  { unfold WriterChecked.Close, WriterGo.Close at 2, CloseWith. cbv zeta.
    rewrite WriterChecked_writeHeader_fits; [reflexivity|].
    rewrite WriterGo_Close_eq. cbn [fst hdr dataRecords].
    rewrite recomputed_set_DataRecords. now apply allFit_recomputed. }
  now rewrite H2.
Qed.

(** The bytes of one sample and of one record: every channel in turn,
    every sample as the little-endian 16-bit code of its digital value
    under the calibration of the channel's signal. *)
Definition sampleBytes (signal : Signal) (sample : float) : list byte :=
  int16le (convertPhysicalToDigital sample
             (PhysicalMin signal) (PhysicalMax signal)
             (DigitalMin signal) (DigitalMax signal)).

Fixpoint recordBytes (sigs : list Signal) (chans : list (list float))
    : list byte :=
  match chans, sigs with
  | ch :: chans', signal :: sigs' =>
      concat (map (sampleBytes signal) ch) ++ recordBytes sigs' chans'
  | _, _ => []
  end.

Lemma sampleBytes_length signal sample :
  length (sampleBytes signal sample) = 2%nat.
Proof. reflexivity. Qed.

Lemma channelBytes_length signal (ch : list float) :
  Z.of_nat (length (concat (map (sampleBytes signal) ch)))
  = 2 * Z.of_nat (length ch).
Proof.
  induction ch as [|x rest IH]; [reflexivity|].
  cbn [map concat]. rewrite length_app, sampleBytes_length.
  cbn [length]. lia.
Qed.

Lemma recordBytes_length sigs : forall chans,
  (length chans <= length sigs)%nat ->
  Z.of_nat (length (recordBytes sigs chans)) = 2 * sampleCount chans.
Proof.
  induction sigs as [|s sigs IH]; intros [|ch chans] Hlen;
    cbn [length] in Hlen; try reflexivity; try lia.
  cbn [recordBytes sampleCount fold_right].
  rewrite length_app, Nat2Z.inj_add, channelBytes_length.
  fold (sampleCount chans). rewrite IH by lia. lia.
Qed.

Lemma writeChannels_ok sigs : forall chans (b : IO.BufWriter),
  (length chans <= length sigs)%nat ->
  exists b',
    writeChannels sigs chans b = (b', Ok tt)
    /\ IO.flushed b' = IO.Write (IO.flushed b) (recordBytes sigs chans).
Proof.
  induction sigs as [|s sigs IH]; intros [|ch chans] b Hlen;
    cbn [length] in Hlen; try lia.
  - exists b. split; [reflexivity|]. cbn [recordBytes].
    unfold IO.flushed, IO.Flush. cbn [IO.wr].
    now rewrite Write_Write, app_nil_r.
  - exists b. split; [reflexivity|]. cbn [recordBytes].
    unfold IO.flushed, IO.Flush. cbn [IO.wr].
    now rewrite Write_Write, app_nil_r.
  - cbn [writeChannels recordBytes].
    destruct (IH chans
                (fold_left
                   (fun b sample =>
                      IO.WriteString b
                        (int16le (convertPhysicalToDigital sample
                                    (PhysicalMin s) (PhysicalMax s)
                                    (DigitalMin s) (DigitalMax s))))
                   ch b)) as (b' & E & F); [lia|].
    exists b'. split; [exact E|]. rewrite F.
    pose proof (fold_WriteString_flushed (sampleBytes s) ch b) as HF.
    unfold sampleBytes in HF at 1. rewrite HF.
    now rewrite Write_Write.
Qed.

Lemma writeChannels_panic sigs : forall chans (b : IO.BufWriter),
  (length sigs < length chans)%nat ->
  snd (writeChannels sigs chans b) = Panic.
Proof.
  induction sigs as [|s sigs IH]; intros [|ch chans] b Hlen;
    cbn [length] in Hlen; try lia.
  - reflexivity.
  - cbn [writeChannels]. apply IH. lia.
Qed.

Lemma size_check_passes (signals : list (list float)) :
  2 * sampleCount signals <= 61440 ->
  (GoInt.mul (totalSamples signals) 2 >? 61440) = false.
Proof.
  intros Hsize. pose proof (sampleCount_nonneg signals) as Hnn.
  rewrite totalSamples_exact by (unfold GoInt.maxInt; lia).
  unfold GoInt.mul. rewrite wrap64_id
    by (unfold GoInt.inInt, GoInt.minInt, GoInt.maxInt; lia).
  rewrite Z.gtb_ltb. apply Z.ltb_ge. lia.
Qed.

(** X4: a record with one channel per signal and at most 61,440 bytes of
    samples is accepted whatever the lengths of its channels: [WriteRecord]
    appends, at the store's current offset, the samples' 16-bit
    little-endian codes, channel after channel (two bytes per sample, the
    buffering in between leaves no trace), adds one to the record counter
    and keeps the header. *)
Theorem WriteRecord_appends_sample_codes
    (ew : Writer) (signals : list (list float)) :
  Z.of_nat (length signals) = SignalCount (hdr ew) ->
  (length signals <= length (Signals (hdr ew)))%nat ->
  2 * sampleCount signals <= 61440 ->
  WriteRecord ew signals
  = (mkWriter (IO.Write (w ew) (recordBytes (Signals (hdr ew)) signals))
              (hdr ew) (GoInt.add (dataRecords ew) 1), Ok tt)
  /\ Z.of_nat (length (recordBytes (Signals (hdr ew)) signals))
     = 2 * sampleCount signals.
Proof.
  intros Hcount Hsigs Hsize.
  split; [|now apply recordBytes_length].
  unfold WriteRecord. rewrite Hcount, Z.eqb_refl. cbn [negb].
  rewrite size_check_passes by assumption.
  destruct (writeChannels_ok (Signals (hdr ew)) signals (IO.NewWriter (w ew)))
    as (b' & E & F); [assumption|].
  rewrite E. f_equal. f_equal.
  change (IO.wr (IO.Flush b')) with (IO.flushed b').
  rewrite F, flushed_NewWriter, Write_Write. reflexivity.
Qed.

(** X5: [WriteRecord] indexes [hdr.Signals] up to [hdr.SignalCount]: when
    the header lists fewer signals than its count says, a record that
    passes both argument checks makes the call panic (index out of range);
    the record counter and the header stay as they were. *)
Theorem WriteRecord_panics_on_missing_signals
    (ew : Writer) (signals : list (list float)) :
  Z.of_nat (length signals) = SignalCount (hdr ew) ->
  (length (Signals (hdr ew)) < length signals)%nat ->
  2 * sampleCount signals <= 61440 ->
  snd (WriteRecord ew signals) = Panic
  /\ hdr (fst (WriteRecord ew signals)) = hdr ew
  /\ dataRecords (fst (WriteRecord ew signals)) = dataRecords ew.
Proof.
  intros Hcount Hsigs Hsize.
  unfold WriteRecord. rewrite Hcount, Z.eqb_refl. cbn [negb].
  rewrite size_check_passes by assumption.
  pose proof (writeChannels_panic (Signals (hdr ew)) signals
                (IO.NewWriter (w ew)) Hsigs) as HP.
  destruct (writeChannels _ _ _) as [b' [u|e|]]; cbn [snd] in HP;
    try discriminate.
  repeat split.
Qed.

End WriterEffects.

(** ** What [Open] accepts *)

Section OpenFacts.
Context {T : TimeRep} {L : GoLib}.

Import Strings Strconv.

(** [Open] on the bytes [stream] it reads, with the loops over the signals
    in closed form; [store] is what the reader keeps. *)
Definition decodeHeader (stream store : list byte) : result Reader :=
  if (256 <=? length stream)%nat then
    match Parse_date (TrimSpace (slice 168 176 stream)) with
    | None => Err ErrParsingStartDate
    | Some d =>
    match Parse_clock (TrimSpace (slice 176 184 stream)) with
    | None => Err ErrParsingStartTime
    | Some c =>
    match Atoi (TrimSpace (slice 184 192 stream)) with
    | None => Err ErrParsingHeaderBytes
    | Some headerBytes =>
    match Atoi (TrimSpace (slice 236 244 stream)) with
    | None => Err ErrParsingDataRecords
    | Some numDataRecords =>
    match ParseDuration (TrimSpace (slice 244 252 stream) ++ str "s") with
    | None => Err ErrParsingDuration
    | Some duration =>
    match Atoi (TrimSpace (slice 252 256 stream)) with
    | None => Err ErrParsingSignalCount
    | Some signalCount =>
        if signalCount <? 0 then Panic
        else
          let n := Z.to_nat signalCount in
          if (256 + n * 256 <=? length stream)%nat then
            Ok (mkReader store
                  (mkHeader (TrimSpace (slice 0 8 stream))
                            (TrimSpace (slice 8 88 stream))
                            (TrimSpace (slice 88 168 stream))
                            (Date_UTC (Year d) (Month d) (Day d)
                                      (Hour c) (Minute c) (Second c))
                            headerBytes duration numDataRecords signalCount
                            (map (decodeSignal n (skipn 256 stream))
                                 (seq 0 n))))
          else Err ErrReadingSignalHeaders
    end end end end end end
  else Err ErrReadingHeader.

Lemma Open_eq (f : IO.File) :
  Open f = decodeHeader (wire f) (IO.contents f).
Proof.
  unfold Open, decodeHeader, ReadFull. cbv zeta. fold (wire f).
  destruct (Nat.leb_spec 256 (length (wire f))) as [H256|]; [|reflexivity].
  cbv beta iota.
  rewrite !(slice_firstn _ _ 256) by lia.
  destruct (Parse_date _); [|reflexivity].
  destruct (Parse_clock _); [|reflexivity].
  destruct (Atoi (TrimSpace (slice 184 192 _))); [|reflexivity].
  destruct (Atoi (TrimSpace (slice 236 244 _))); [|reflexivity].
  destruct (ParseDuration _); [|reflexivity].
  destruct (Atoi (TrimSpace (slice 252 256 _))) as [sc|]; [|reflexivity].
  destruct (sc <? 0); [reflexivity|].
  rewrite readSignalHeaders_eq, length_skipn.
  destruct (Nat.leb_spec (Z.to_nat sc * 256) (length (wire f) - 256));
    destruct (Nat.leb_spec (256 + Z.to_nat sc * 256) (length (wire f)));
    try lia; reflexivity.
Qed.

Lemma Open_ok_count (f : IO.File) (rd : Reader) :
  Open f = Ok rd ->
  0 <= SignalCount (rhdr rd)
  /\ Z.of_nat (length (Signals (rhdr rd))) = SignalCount (rhdr rd)
  /\ 256 + 256 * SignalCount (rhdr rd) <= Z.of_nat (length (wire f))
  /\ r rd = IO.contents f.
Proof.
  rewrite Open_eq. unfold decodeHeader.
  destruct (256 <=? length (wire f))%nat; [|discriminate].
  destruct (Parse_date _); [|discriminate].
  destruct (Parse_clock _); [|discriminate].
  destruct (Atoi (TrimSpace (slice 184 192 _))); [|discriminate].
  destruct (Atoi (TrimSpace (slice 236 244 _))); [|discriminate].
  destruct (ParseDuration _); [|discriminate].
  destruct (Atoi (TrimSpace (slice 252 256 _))) as [sc|]; [|discriminate].
  destruct (Z.ltb_spec sc 0); [discriminate|]. cbv zeta.
  destruct (Nat.leb_spec (256 + Z.to_nat sc * 256) (length (wire f)));
    [|discriminate].
  intros Hrd; inversion Hrd; subst rd; clear Hrd.
  cbn [rhdr SignalCount Signals r].
  rewrite length_map, length_seq. repeat split; lia.
Qed.

(** X6: a header that [Open] returns has as many signals as its
    [SignalCount] says, a count that is not negative; the store holds all
    its 256 + 256 x count header bytes from the offset [Open] started at,
    and the reader keeps the whole store. *)
Theorem Open_returns_consistent_count (f : IO.File) (rd : Reader) :
  Open f = Ok rd ->
  0 <= SignalCount (rhdr rd)
  /\ Z.of_nat (length (Signals (rhdr rd))) = SignalCount (rhdr rd)
  /\ 256 + 256 * SignalCount (rhdr rd) <= Z.of_nat (length (wire f))
  /\ r rd = IO.contents f.
Proof. apply Open_ok_count. Qed.

(** The store cut [k] bytes after its current offset. *)
Definition truncated (f : IO.File) (k : nat) : IO.File :=
  IO.mkFile (firstn (IO.offset f + k) (IO.contents f)) (IO.offset f).

Lemma wire_truncated (f : IO.File) (k : nat) :
  wire (truncated f k) = firstn k (wire f).
Proof.
  unfold wire, truncated. cbn [IO.contents IO.offset].
  now rewrite firstn_skipn_comm.
Qed.

(** X7: a store that ends inside the header is refused with a read error:
    cutting a store that [Open] accepts anywhere before the end of its
    256 + 256 x count header bytes makes [Open] return an error of the
    I/O kind, never a header. *)
Theorem Open_refuses_truncated_header (f : IO.File) (rd : Reader) (k : nat) :
  Open f = Ok rd ->
  Z.of_nat k < 256 + 256 * SignalCount (rhdr rd) ->
  exists e, Open (truncated f k) = Err e /\ kindOf e = IOFailure.
Proof.
  intros HOpen Hk.
  rewrite Open_eq in *. rewrite wire_truncated.
  cbn [truncated IO.contents]. unfold decodeHeader in *.
  rewrite length_firstn.
  destruct (Nat.leb_spec 256 (length (wire f))) as [H256|]; [|discriminate].
  destruct (Nat.leb_spec 256 (Nat.min k (length (wire f)))) as [Hk256|];
    [|eexists; split; reflexivity].
  rewrite !(slice_firstn _ _ k) by lia.
  destruct (Parse_date _); [|discriminate].
  destruct (Parse_clock _); [|discriminate].
  destruct (Atoi (TrimSpace (slice 184 192 _))); [|discriminate].
  destruct (Atoi (TrimSpace (slice 236 244 _))); [|discriminate].
  destruct (ParseDuration _); [|discriminate].
  destruct (Atoi (TrimSpace (slice 252 256 _))) as [sc|]; [|discriminate].
  destruct (Z.ltb_spec sc 0); [discriminate|]. cbv zeta in *.
  destruct (Nat.leb_spec (256 + Z.to_nat sc * 256) (length (wire f)));
    [|discriminate].
  inversion HOpen; subst rd; clear HOpen.
  cbn [rhdr SignalCount] in Hk.
  destruct (Nat.leb_spec (256 + Z.to_nat sc * 256)
                         (Nat.min k (length (wire f)))); [lia|].
  eexists; split; reflexivity.
Qed.

Lemma wire_overwrite (f : IO.File) (off : nat) (t : list byte) :
  (IO.offset f <= length (IO.contents f))%nat ->
  wire (overwrite f off t) = replaceAt off t (wire f).
Proof.
  intros Ho. unfold wire, overwrite. cbn [IO.contents IO.offset].
  now apply skipn_replaceAt.
Qed.

Lemma offset_within (f : IO.File) :
  (256 <= length (wire f))%nat ->
  (IO.offset f <= length (IO.contents f))%nat.
Proof. unfold wire. rewrite length_skipn. lia. Qed.

(** X8: [Open] allocates the signals with [make([]Signal, signalCount)]
    without looking at the sign of the count: in a store that [Open]
    accepts, overwriting the 4-byte signal-count field by the text of a
    negative integer makes [Open] panic instead of returning an error. *)
Theorem Open_panics_on_negative_count
    (f : IO.File) (rd : Reader) (t : list byte) (c : Z) :
  Open f = Ok rd ->
  length t = 4%nat ->
  Atoi (TrimSpace t) = Some c ->
  c < 0 ->
  Open (overwrite f 252 t) = Panic.
Proof.
  intros HOpen Ht Hc Hneg.
  rewrite Open_eq in *. unfold decodeHeader in HOpen.
  destruct (Nat.leb_spec 256 (length (wire f))) as [H256|]; [|discriminate].
  rewrite wire_overwrite by now apply offset_within.
  unfold decodeHeader. rewrite length_replaceAt by lia.
  destruct (Nat.leb_spec 256 (length (wire f))); [|lia].
  rewrite !(slice_replace_before _ _ 252 t (wire f)) by lia.
  change 256%nat with (252 + 4)%nat at 1.
  rewrite (slice_replace_same 252 4 t (wire f)) by lia.
  rewrite Hc.
  destruct (Parse_date _); [|discriminate].
  destruct (Parse_clock _); [|discriminate].
  destruct (Atoi (TrimSpace (slice 184 192 _))); [|discriminate].
  destruct (Atoi (TrimSpace (slice 236 244 _))); [|discriminate].
  destruct (ParseDuration _); [|discriminate].
  destruct (Z.ltb_spec c 0); [reflexivity | lia].
Qed.

End OpenFacts.

(** ** Calls of [Read] in sequence *)

Section ReadCalls.
Context {T : TimeRep}.

Lemma advance_hdr (sr : SignalReader) : sr_hdr (advance sr) = sr_hdr sr.
Proof. unfold advance. now destruct (_ >=? _). Qed.

Lemma readLoop_hdr k : forall n sr data,
  sr_hdr (rs_reader (readLoop k n sr data)) = sr_hdr sr.
Proof.
  induction k as [|k IH]; intros n sr data; cbn [readLoop]; [reflexivity|].
  destruct (_ >=? _); [reflexivity|].
  destruct (_ <? _); [reflexivity|].
  destruct (IO.readAt _ _ _); [|reflexivity].
  destruct (nth_error _ _); [|reflexivity].
  rewrite IH. apply advance_hdr.
Qed.

Lemma readLoop_EOF k : forall n sr data,
  rs_err (readLoop k n sr data) = Err EOF ->
  (currentRecord (rs_reader (readLoop k n sr data))
   >=? DataRecords (sr_hdr sr)) = true.
Proof.
  induction k as [|k IH]; intros n sr data; cbn [readLoop]; [discriminate|].
  destruct (_ >=? _) eqn:E; [intros _; exact E|].
  destruct (_ <? _); [discriminate|].
  destruct (IO.readAt _ _ _); [|discriminate].
  destruct (nth_error _ _); [|discriminate].
  intros H. rewrite <- (advance_hdr sr). now apply IH.
Qed.

(** X9: once [Read] has returned [io.EOF], every later [Read] into a
    buffer with room returns 0 and [io.EOF] again and leaves the buffer and
    the reader as they are; [Read] into an empty buffer returns 0 and no
    error, at the end of the data as anywhere else. *)
Theorem Read_stays_at_EOF (sr : SignalReader) (data : list float) :
  rs_err (Read sr data) = Err EOF ->
  let sr' := rs_reader (Read sr data) in
  (forall x rest,
     Read sr' (x :: rest) = mkReadState sr' (x :: rest) 0 (Err EOF))
  /\ Read sr' [] = mkReadState sr' [] 0 (Ok tt).
Proof.
  intros HEOF sr'. split; [|reflexivity].
  intros x rest. unfold Read. cbn [length readLoop].
  pose proof (readLoop_EOF _ _ _ _ HEOF) as Hrec.
  fold (Read sr data) in Hrec. fold sr' in Hrec.
  assert (Hh : sr_hdr sr' = sr_hdr sr) by apply readLoop_hdr.
  rewrite Hh, Hrec. reflexivity.
Qed.

(** X10: a store whose header holds no positive record count reads as
    empty: for a signal reader fresh from [Signal], [Read] into a buffer
    with room returns 0 and [io.EOF] without touching the store.  This is
    what a file holds whose writer was never closed, since [Create] writes
    the count -1. *)
Theorem Read_of_unfinished_file
    (er : Reader) (index : Z) (sr : SignalReader) (x : float)
    (rest : list float) :
  Reader_Signal er index = Ok sr ->
  DataRecords (rhdr er) <= 0 ->
  Read sr (x :: rest) = mkReadState sr (x :: rest) 0 (Err EOF).
Proof.
  unfold Reader_Signal.
  destruct (_ || _); [discriminate|].
  destruct (nth_error _ _) as [signal|]; [|discriminate].
  destruct (layoutFrom _ _ _ _ _) as [rs so].
  intros H Hn. inversion H; subst sr; clear H.
  unfold Read. cbn [length readLoop currentRecord sr_hdr].
  destruct (Z.geb_spec 0 (DataRecords (rhdr er))); [reflexivity | lia].
Qed.

(** The outcome of a [Read] with its buffer extended at the end by
    [suffix], and shifted behind [prefix]. *)
Definition withSuffix (suffix : list float) (st : ReadState) : ReadState :=
  mkReadState (rs_reader st) (rs_data st ++ suffix) (rs_n st) (rs_err st).

Definition behind (prefix : list float) (st : ReadState) : ReadState :=
  mkReadState (rs_reader st) (prefix ++ rs_data st)
              (length prefix + rs_n st) (rs_err st).

Lemma setNth_app_l n v (d suffix : list float) :
  (n < length d)%nat -> setNth n v (d ++ suffix) = setNth n v d ++ suffix.
Proof.
  revert n. induction d as [|y d IH]; intros [|n] Hn; cbn [length] in Hn;
    try lia; cbn [setNth app]; [reflexivity|].
  now rewrite IH by lia.
Qed.

Lemma setNth_app_r n v (prefix d : list float) :
  setNth (length prefix + n) v (prefix ++ d) = prefix ++ setNth n v d.
Proof.
  induction prefix as [|y p IH]; [reflexivity|].
  cbn [length Nat.add app setNth]. now rewrite IH.
Qed.

Lemma readLoop_suffix k : forall n sr (d suffix : list float),
  (n + k <= length d)%nat ->
  readLoop k n sr (d ++ suffix) = withSuffix suffix (readLoop k n sr d).
Proof.
  induction k as [|k IH]; intros n sr d suffix Hlen; cbn [readLoop];
    [reflexivity|].
  destruct (_ >=? _); [reflexivity|].
  destruct (_ <? _); [reflexivity|].
  destruct (IO.readAt _ _ _); [|reflexivity].
  destruct (nth_error _ _); [|reflexivity].
  rewrite setNth_app_l by lia.
  apply IH. rewrite setNth_length. lia.
Qed.

Lemma readLoop_prefix k : forall n sr (prefix d : list float),
  readLoop k (length prefix + n) sr (prefix ++ d)
  = behind prefix (readLoop k n sr d).
Proof.
  induction k as [|k IH]; intros n sr prefix d; cbn [readLoop];
    [reflexivity|].
  destruct (_ >=? _); [reflexivity|].
  destruct (_ <? _); [reflexivity|].
  destruct (IO.readAt _ _ _); [|reflexivity].
  destruct (nth_error _ _); [|reflexivity].
  rewrite setNth_app_r, <- Nat.add_succ_r.
  apply IH.
Qed.

Lemma readLoop_split k1 : forall k2 n sr data,
  readLoop (k1 + k2) n sr data
  = let st := readLoop k1 n sr data in
    match rs_err st with
    | Ok _ => readLoop k2 (rs_n st) (rs_reader st) (rs_data st)
    | _ => st
    end.
Proof.
  induction k1 as [|k1 IH]; intros k2 n sr data; cbn [Nat.add readLoop];
    [reflexivity|].
  cbv zeta.
  destruct (_ >=? _); [reflexivity|].
  destruct (_ <? _); [reflexivity|].
  destruct (IO.readAt _ _ _); [|reflexivity].
  destruct (nth_error _ _); [|reflexivity].
  apply IH.
Qed.

Lemma readLoop_ok_count k : forall n sr data,
  rs_err (readLoop k n sr data) = Ok tt ->
  rs_n (readLoop k n sr data) = (n + k)%nat.
Proof.
  induction k as [|k IH]; intros n sr data; cbn [readLoop];
    [intros _; cbn; lia|].
  destruct (_ >=? _); [discriminate|].
  destruct (_ <? _); [discriminate|].
  destruct (IO.readAt _ _ _); [|discriminate].
  destruct (nth_error _ _); [|discriminate].
  intros H. rewrite IH by assumption. lia.
Qed.

Lemma readLoop_length k : forall n sr data,
  length (rs_data (readLoop k n sr data)) = length data.
Proof.
  induction k as [|k IH]; intros n sr data; cbn [readLoop]; [reflexivity|].
  destruct (_ >=? _); [reflexivity|].
  destruct (_ <? _); [reflexivity|].
  destruct (IO.readAt _ _ _); [|reflexivity].
  destruct (nth_error _ _); [|reflexivity].
  now rewrite IH, setNth_length.
Qed.

(** X11: reading in two calls is reading in one: when [Read] fills a
    buffer [a] without error, a following [Read] into [b] leaves the same
    samples, reader, count and error as a single [Read] into a buffer of
    both lengths. *)
Theorem Read_in_two_calls (sr : SignalReader) (a b : list float) :
  rs_err (Read sr a) = Ok tt ->
  let st1 := Read sr a in
  let st2 := Read (rs_reader st1) b in
  Read sr (a ++ b)
  = mkReadState (rs_reader st2) (rs_data st1 ++ rs_data st2)
                (length a + rs_n st2) (rs_err st2).
Proof.
  intros Hok st1 st2. unfold Read at 1. rewrite length_app, readLoop_split.
  rewrite (readLoop_suffix (length a) 0 sr a b) by lia.
  fold (Read sr a). fold st1. cbv zeta. cbn [withSuffix rs_err rs_n rs_reader rs_data].
  subst st1. rewrite Hok.
  pose proof (readLoop_ok_count _ _ _ _ Hok) as Hn. fold (Read sr a) in Hn.
  pose proof (readLoop_length (length a) 0 sr a) as Hlen.
  fold (Read sr a) in Hlen.
  rewrite Hn.
  replace (0 + length a)%nat with (length (rs_data (Read sr a)) + 0)%nat
    by lia.
  rewrite readLoop_prefix. unfold behind.
  fold (Read (rs_reader (Read sr a)) b). fold st2.
  rewrite Hlen. reflexivity.
Qed.

End ReadCalls.

(** ** The layout of a written file *)

Section FileLayout.
Context {T : TimeRep} {L : GoLib}.

Import Strings Strconv.

Lemma atoiDigits_bound ds : forall a v,
  Forall (fun c => isDigit c = true) ds -> 0 <= a ->
  atoiDigits ds a = Some v ->
  a * 10 ^ Z.of_nat (length ds) <= v < (a + 1) * 10 ^ Z.of_nat (length ds).
Proof.
  induction ds as [|c ds IH]; intros a v Hd Ha H.
  - cbn in H. inversion H. cbn. lia.
  - inversion Hd as [|? ? Hc Hds]; subst.
    cbn [atoiDigits] in H. rewrite Hc in H.
    unfold isDigit in Hc. apply andb_prop in Hc. destruct Hc as [H48 H57].
    apply Z.leb_le in H48, H57.
    apply IH in H; [|assumption|lia].
    cbn [length]. rewrite Nat2Z.inj_succ, Z.pow_succ_r by lia.
    assert (0 < 10 ^ Z.of_nat (length ds)) by (apply Z.pow_pos_nonneg; lia).
    nia.
Qed.

(** A non-negative integer whose decimal form has at most [k] digits is
    below [10^k]. *)
Lemma formatInt_short z k :
  0 <= z -> (length (formatInt z) <= k)%nat -> z < 10 ^ Z.of_nat k.
Proof.
  intros Hz Hlen. unfold formatInt in Hlen.
  destruct (Z.ltb_spec z 0); [lia|].
  destruct (formatUint_spec z Hz) as (Hd & _ & Ha & _).
  apply atoiDigits_bound in Ha; [|assumption|lia].
  assert (10 ^ Z.of_nat (length (formatUint z)) <= 10 ^ Z.of_nat k)
    by (apply Z.pow_le_mono_r; lia).
  lia.
Qed.

Lemma intOK_bound width z : 0 <= z -> intOK width z -> z < 10 ^ Z.of_nat width.
Proof.
  intros Hz [Hlen _]. apply formatInt_short; [assumption|].
  now apply fits_of_width.
Qed.

Lemma signalText_length (sigs : list Signal) :
  Forall signalOK sigs ->
  length (signalText sigs) = (length sigs * 256)%nat.
Proof.
  intros Hok. rewrite Forall_forall in Hok.
  unfold signalText. rewrite !length_app.
  rewrite (block_length _ sigs 16) by (intros s Hs; apply (Hok s Hs)).
  rewrite (block_length _ sigs 80) by (intros s Hs; apply (Hok s Hs)).
  rewrite (block_length _ sigs 8) by (intros s Hs; apply (Hok s Hs)).
  rewrite (block_length (fun s => WriterGo.formatPhysicalValue (PhysicalMin s))
             sigs 8) by (intros s Hs; apply (Hok s Hs)).
  rewrite (block_length (fun s => WriterGo.formatPhysicalValue (PhysicalMax s))
             sigs 8) by (intros s Hs; apply (Hok s Hs)).
  rewrite (block_length (fun s => padRight 8 (formatInt (DigitalMin s)))
             sigs 8) by (intros s Hs; apply (Hok s Hs)).
  rewrite (block_length (fun s => padRight 8 (formatInt (DigitalMax s)))
             sigs 8) by (intros s Hs; apply (Hok s Hs)).
  rewrite (block_length (fun s => padRight 80 (Prefiltering s))
             sigs 80) by (intros s Hs; apply (Hok s Hs)).
  rewrite (block_length (fun s => padRight 8 (formatInt (SamplesPerRecord s)))
             sigs 8) by (intros s Hs; apply (Hok s Hs)).
  rewrite (block_length (fun _ => padRight 32 []) sigs 32)
    by (intros s Hs; reflexivity).
  lia.
Qed.

Lemma topText_length (h : Header) :
  headerOK h -> intOK 8 (DataRecords h) ->
  length (topText (recomputed h)) = 256%nat.
Proof.
  intros (HV & HP & HR & (Hd8 & Hc8 & _) & HB & (Hdu8 & _) & HSC & _) HDR.
  unfold topText.
  cbn [recomputed set_HeaderBytes Version PatientID RecordingID StartTime
       HeaderBytes DataRecords DataRecordDuration SignalCount].
  rewrite !length_app.
  destruct HV as [-> _]. destruct HP as [-> _]. destruct HR as [-> _].
  rewrite Hd8, Hc8, Hdu8.
  destruct HB as [-> _]. destruct HDR as [-> _]. destruct HSC as [-> _].
  reflexivity.
Qed.

(** The text of a valid header has 256 bytes and 256 more for every
    signal, which is what its [HeaderBytes] field says. *)
Lemma headerText_length (h : Header) :
  headerOK h -> intOK 8 (DataRecords h) ->
  length (headerText (recomputed h)) = (256 + length (Signals h) * 256)%nat
  /\ HeaderBytes (recomputed h)
     = Z.of_nat (256 + length (Signals h) * 256).
Proof.
  intros Hok HDR. split.
  - unfold headerText. rewrite length_app, topText_length by assumption.
    change (Signals (recomputed h)) with (Signals h).
    rewrite signalText_length; [reflexivity|]. apply Hok.
  - destruct Hok as (_ & _ & _ & _ & _ & _ & HSC & Hcount & _).
    assert (Hn : 0 <= SignalCount h) by lia.
    pose proof (intOK_bound 4 _ Hn HSC) as Hb.
    cbn [recomputed set_HeaderBytes HeaderBytes].
    unfold GoInt.add, GoInt.mul.
    rewrite (wrap64_id (SignalCount h * 256))
      by (unfold GoInt.inInt, GoInt.minInt, GoInt.maxInt; simpl in Hb; lia).
    rewrite wrap64_id
      by (unfold GoInt.inInt, GoInt.minInt, GoInt.maxInt; simpl in Hb; lia).
    lia.
Qed.

Lemma writeChannels_ok_inv sigs chans (b b' : IO.BufWriter) u :
  writeChannels sigs chans b = (b', Ok u) ->
  (length chans <= length sigs)%nat.
Proof.
  intros H. destruct (Nat.le_gt_cases (length chans) (length sigs)) as [|Hlt];
    [assumption|].
  pose proof (writeChannels_panic sigs chans b Hlt) as HP.
  rewrite H in HP. discriminate.
Qed.

(** What a successful [WriteRecord] has done. *)
Lemma WriteRecord_ok_bytes (ew ew' : Writer) signals u :
  WriteRecord ew signals = (ew', Ok u) ->
  Z.of_nat (length signals) = SignalCount (hdr ew)
  /\ (GoInt.mul (totalSamples signals) 2 >? 61440) = false
  /\ (length signals <= length (Signals (hdr ew)))%nat
  /\ ew' = mkWriter (IO.Write (w ew) (recordBytes (Signals (hdr ew)) signals))
                    (hdr ew) (GoInt.add (dataRecords ew) 1).
Proof.
  unfold WriteRecord.
  destruct (Z.eqb_spec (Z.of_nat (length signals)) (SignalCount (hdr ew)))
    as [Hcount|]; cbn [negb]; [|discriminate].
  destruct (_ >? _) eqn:Esize; [discriminate|].
  destruct (writeChannels _ _ _) as [b' [x|e|]] eqn:E; intros H;
    try discriminate.
  pose proof (writeChannels_ok_inv _ _ _ _ _ E) as Hlen.
  destruct (writeChannels_ok (Signals (hdr ew)) signals (IO.NewWriter (w ew))
              Hlen) as (b2 & E2 & F2).
  rewrite E in E2. inversion E2; subst b2. clear E2.
  split; [assumption|]. split; [reflexivity|]. split; [assumption|].
  inversion H. f_equal.
  change (IO.Write (IO.wr b') (IO.buf b')) with (IO.flushed b').
  rewrite F2, flushed_NewWriter, Write_Write. reflexivity.
Qed.

Lemma writeAll_bytes records : forall (ew ew' : Writer) (f : IO.File) text,
  writeAll ew records = Some ew' ->
  w ew = IO.Write f text ->
  w ew' = IO.Write f (text ++ concat (map (recordBytes (Signals (hdr ew)))
                                          records))
  /\ hdr ew' = hdr ew.
Proof.
  induction records as [|signals rest IH]; intros ew ew' f text H Hw.
  - cbn in H. inversion H; subst ew'. cbn [map concat].
    rewrite app_nil_r. split; [assumption | reflexivity].
  - cbn [writeAll] in H.
    destruct (WriteRecord ew signals) as [ew1 [u|e|]] eqn:E; try discriminate.
    apply WriteRecord_ok_bytes in E. destruct E as (_ & _ & _ & ->).
    destruct (IH _ ew' f (text ++ recordBytes (Signals (hdr ew)) signals) H)
      as [Hw' Hh'].
    { cbn [w]. now rewrite Hw, Write_Write. }
    cbn [hdr] in Hw', Hh'. cbn [map concat].
    rewrite Hw', <- app_assoc. split; [reflexivity | assumption].
Qed.

Lemma contents_Write_Rewind (f : IO.File) (text : list byte) :
  IO.contents (IO.Write (IO.Rewind f) text)
  = text ++ skipn (length text) (IO.contents f).
Proof. reflexivity. Qed.

(** The store after [Create], the records and [Close]. *)
Lemma closed_file_contents
    (sink : IO.File) (h : Header) (records : list (list (list float)))
    (ew0 ewN : Writer) :
  headerOK h ->
  WriterGo.Create sink h = (w ew0, Ok ew0) ->
  writeAll ew0 records = Some ewN ->
  Z.of_nat (length records) < 100000000 ->
  let final := recomputed (set_DataRecords (Z.of_nat (length records)) h) in
  let body := concat (map (recordBytes (Signals h)) records) in
  WriterGo.Close ewN
  = (mkWriter (IO.Write (IO.Rewind (w ewN)) (headerText final)) final
              (Z.of_nat (length records)), None)
  /\ intOK 8 (Z.of_nat (length records))
  /\ IO.contents (IO.Write (IO.Rewind (w ewN)) (headerText final))
     = headerText final ++ body
       ++ skipn (length (headerText final) + length body) (IO.contents sink).
Proof.
  intros Hok HCreate Hall Hsmall final body.
  unfold WriterGo.Create, CreateWith in HCreate. cbv zeta in HCreate.
  rewrite WriterGo_writeHeader_eq in HCreate.
  cbn [w hdr dataRecords] in HCreate.
  set (first := recomputed (set_DataRecords (-1) h)) in *.
  assert (Hew0 : ew0 = mkWriter (IO.Write (IO.Rewind sink) (headerText first))
                                first 0) by congruence.
  clear HCreate.
  destruct (writeAll_count records ew0 ewN Hall) as [HhN HdN].
  { subst ew0. cbn. lia. }
  { subst ew0. cbn [dataRecords]. unfold GoInt.maxInt. lia. }
  destruct (writeAll_bytes records ew0 ewN (IO.Rewind sink) (headerText first)
              Hall) as [HwN _].
  { subst ew0. reflexivity. }
  subst ew0. cbn [hdr dataRecords] in *.
  change (Signals first) with (Signals h) in HwN. fold body in HwN.
  assert (HN : intOK 8 (Z.of_nat (length records))).
  { apply intOK_nonneg; [lia | simpl; lia | unfold GoInt.maxInt; lia]. }
  split; [|split; [exact HN|]].
  - rewrite WriterGo_Close_eq, HhN, HdN. reflexivity.
  - rewrite contents_Write_Rewind, HwN, contents_Write_Rewind.
    destruct (headerText_length (set_DataRecords (-1) h) Hok intOK_minus_one)
      as [Hlen1 _].
    destruct (headerText_length
                (set_DataRecords (Z.of_nat (length records)) h) Hok HN)
      as [Hlen2 _].
    fold first in Hlen1. fold final in Hlen2.
    cbn [Signals set_DataRecords] in Hlen1, Hlen2.
    f_equal. rewrite <- app_assoc, skipn_app.
    rewrite skipn_all2 by lia.
    replace (length (headerText final) - length (headerText first))%nat
      with 0%nat by lia.
    cbn [app skipn]. rewrite length_app.
    replace (length (headerText first)) with (length (headerText final))
      by lia.
    reflexivity.
Qed.

(** X12: the file a writer leaves behind is the header followed by the
    records in the order written, with nothing in between: after [Create]
    with a valid header, fewer than 10^8 successful [WriteRecord] calls and
    [Close], the store holds the text of the final header (256 bytes and
    256 more per signal, as its [HeaderBytes] says), then every record's
    sample codes, then whatever the store held beyond that before. *)
Theorem file_is_header_then_records
    (sink : IO.File) (h : Header) (records : list (list (list float)))
    (ew0 ewN : Writer) :
  headerOK h ->
  WriterGo.Create sink h = (w ew0, Ok ew0) ->
  writeAll ew0 records = Some ewN ->
  Z.of_nat (length records) < 100000000 ->
  let ew' := fst (WriterGo.Close ewN) in
  let body := concat (map (recordBytes (Signals h)) records) in
  IO.contents (w ew')
  = headerText (hdr ew') ++ body
    ++ skipn (length (headerText (hdr ew')) + length body) (IO.contents sink)
  /\ length (headerText (hdr ew')) = (256 + length (Signals h) * 256)%nat
  /\ HeaderBytes (hdr ew') = Z.of_nat (length (headerText (hdr ew')))
  /\ DataRecords (hdr ew') = Z.of_nat (length records).
Proof.
  intros Hok HCreate Hall Hsmall ew' body.
  destruct (closed_file_contents sink h records ew0 ewN Hok HCreate Hall Hsmall)
    as (HClose & HN & Hcontents).
  subst ew'. rewrite HClose. cbn [fst w hdr].
  destruct (headerText_length
              (set_DataRecords (Z.of_nat (length records)) h) Hok HN)
    as [Hlen HHB].
  split; [exact Hcontents|]. split; [exact Hlen|].
  split; [rewrite Hlen; exact HHB | reflexivity].
Qed.

End FileLayout.

(** ** Samples written and read back *)

(** The bytes [x] stand in [data] at offset [p]. *)
Definition holdsAt (data : list byte) (p : nat) (x : list byte) : Prop :=
  exists pre tl, data = pre ++ x ++ tl /\ length pre = p.

Section Positions.

Lemma holdsAt_here (x : list byte) : holdsAt x 0 x.
Proof. exists [], []. now rewrite app_nil_r. Qed.

Lemma holdsAt_app_l d suffix p x :
  holdsAt d p x -> holdsAt (d ++ suffix) p x.
Proof.
  intros (pre & tl & -> & Hp). exists pre, (tl ++ suffix).
  now rewrite <- !app_assoc.
Qed.

Lemma holdsAt_app_r prefix d p x :
  holdsAt d p x -> holdsAt (prefix ++ d) (length prefix + p) x.
Proof.
  intros (pre & tl & -> & Hp). exists (prefix ++ pre), tl.
  rewrite <- app_assoc, length_app. split; [reflexivity | lia].
Qed.

Lemma holdsAt_concat (chunks : list (list byte)) k : forall i c q x,
  (forall c', In c' chunks -> length c' = k) ->
  nth_error chunks i = Some c ->
  holdsAt c q x ->
  holdsAt (concat chunks) (i * k + q) x.
Proof.
  induction chunks as [|c0 chunks IH]; intros [|i] c q x Hk Hc Hx;
    cbn [nth_error] in Hc; try discriminate.
  - inversion Hc; subst c0. cbn [concat Nat.mul Nat.add].
    now apply holdsAt_app_l.
  - cbn [concat Nat.mul].
    replace (k + i * k + q)%nat with (length c0 + (i * k + q))%nat
      by (rewrite (Hk c0 (or_introl eq_refl)); lia).
    apply holdsAt_app_r.
    apply (IH i c q x); auto. intros c' Hc'. apply Hk. now right.
Qed.

Lemma holdsAt_readAt data p b0 b1 :
  holdsAt data p [b0; b1] ->
  IO.readAt data (Z.of_nat p) 2 = Some [b0; b1].
Proof.
  intros (pre & tl & -> & Hp). unfold IO.readAt.
  destruct (Z.ltb_spec (Z.of_nat p) 0); [lia|].
  rewrite Nat2Z.id, skipn_app, <- Hp, skipn_all, Nat.sub_diag.
  cbn [app skipn length Nat.leb firstn]. reflexivity.
Qed.

Lemma nth_error_concat_uniform {A} (chunks : list (list A)) k :
  forall i c q,
  (forall c', In c' chunks -> length c' = k) ->
  nth_error chunks i = Some c -> (q < k)%nat ->
  nth_error (concat chunks) (i * k + q) = nth_error c q.
Proof.
  induction chunks as [|c0 chunks IH]; intros [|i] c q Hk Hc Hq;
    cbn [nth_error] in Hc; try discriminate.
  - inversion Hc; subst c0. cbn [concat Nat.mul Nat.add].
    apply nth_error_app1. rewrite (Hk c (or_introl eq_refl)). exact Hq.
  - cbn [concat Nat.mul].
    rewrite nth_error_app2 by (rewrite (Hk c0 (or_introl eq_refl)); lia).
    rewrite (Hk c0 (or_introl eq_refl)).
    replace (k + i * k + q - k)%nat with (i * k + q)%nat by lia.
    apply (IH i c q); auto. intros c' Hc'. apply Hk. now right.
Qed.

Lemma length_concat_uniform {A} (chunks : list (list A)) k :
  (forall c', In c' chunks -> length c' = k) ->
  length (concat chunks) = (length chunks * k)%nat.
Proof.
  induction chunks as [|c0 chunks IH]; intros Hk; [reflexivity|].
  cbn [concat length Nat.mul]. rewrite length_app.
  rewrite (Hk c0 (or_introl eq_refl)), IH; [reflexivity|].
  intros c' Hc'. apply Hk. now right.
Qed.

Lemma byteVal_byteOf_mod z : byteVal (byteOf z) = z mod 256.
Proof.
  assert (H : byteOf z = byteOf (z mod 256))
    by (unfold byteOf; now rewrite Z.mod_mod by lia).
  rewrite H. apply byteVal_byteOf. apply Z.mod_pos_bound. lia.
Qed.

(** A 16-bit code read back from its two bytes. *)
Lemma decode_int16le (v : Z) (b0 b1 : byte) :
  [b0; b1] = [byteOf v; byteOf (v / 256)] ->
  GoInt.wrap16 (byteVal b0 + 256 * byteVal b1) = GoInt.wrap16 v.
Proof.
  intros H. inversion H; subst b0 b1. clear H.
  rewrite !byteVal_byteOf_mod.
  unfold GoInt.wrap16, GoInt.wrap.
  change (2 ^ (16 - 1)) with 32768. change (2 ^ 16) with 65536.
  f_equal.
  pose proof (Z.div_mod v 256 ltac:(lia)) as Hv.
  pose proof (Z.mod_pos_bound v 256 ltac:(lia)) as Hr.
  pose proof (Z.div_mod (v / 256) 256 ltac:(lia)) as Hq.
  pose proof (Z.mod_pos_bound (v / 256) 256 ltac:(lia)) as Hr2.
  set (lo := v mod 256) in *. set (hi := (v / 256) mod 256) in *.
  assert (Hv' : v = 65536 * (v / 256 / 256) + (lo + 256 * hi)) by lia.
  replace (v + 32768)
    with ((lo + 256 * hi + 32768) + (v / 256 / 256) * 65536) by lia.
  now rewrite Z.mod_add by lia.
Qed.

End Positions.

Section SampleRoundTrip.
Context {T : TimeRep} {L : GoLib}.

Import Strings Strconv.

(** A record has the header's geometry: one channel per signal, with
    [SamplesPerRecord] samples. *)
Definition recordMatches (sigs : list Signal) (chans : list (list float))
    : Prop :=
  Forall2 (fun s ch => SamplesPerRecord s = Z.of_nat (length ch)) sigs chans.

(** Channel [index] of a record. *)
Definition channel (index : nat) (chans : list (list float)) : list float :=
  nth index chans [].

(** A physical value after its trip through a 16-bit code under the
    calibration of [signal]. *)
Definition requantised (signal : Signal) (x : float) : float :=
  convertDigitalToPhysical
    (GoInt.wrap16
       (convertPhysicalToDigital x (PhysicalMin signal) (PhysicalMax signal)
                                 (DigitalMin signal) (DigitalMax signal)))
    (DigitalMin signal) (DigitalMax signal)
    (PhysicalMin signal) (PhysicalMax signal).

Lemma matches_facts sigs chans :
  recordMatches sigs chans ->
  length chans = length sigs
  /\ Forall (fun s => 0 <= SamplesPerRecord s) sigs
  /\ recSize sigs = 2 * sampleCount chans
  /\ Z.of_nat (length (recordBytes sigs chans)) = recSize sigs.
Proof.
  intros H. induction H as [|s ch sigs chans Hs H IH].
  - repeat split; constructor.
  - destruct IH as (Hlen & Hnn & Hrs & Hbytes).
    cbn [length recSize fold_right sampleCount recordBytes].
    fold (recSize sigs). fold (sampleCount chans).
    rewrite length_app, Nat2Z.inj_add, channelBytes_length.
    repeat split; try lia. constructor; [lia | assumption].
Qed.

Lemma holdsAt_channel (s : Signal) (ch : list float) i x :
  nth_error ch i = Some x ->
  holdsAt (concat (map (sampleBytes s) ch)) (i * 2) (sampleBytes s x).
Proof.
  intros Hx. rewrite <- (Nat.add_0_r (i * 2)).
  apply (holdsAt_concat _ 2 i (sampleBytes s x)).
  - intros c Hc. apply in_map_iff in Hc. destruct Hc as (y & <- & _).
    reflexivity.
  - now rewrite nth_error_map, Hx.
  - apply holdsAt_here.
Qed.

Lemma holdsAt_sample sigs chans : recordMatches sigs chans ->
  forall index s ch i x,
  nth_error sigs index = Some s ->
  nth_error chans index = Some ch ->
  nth_error ch i = Some x ->
  holdsAt (recordBytes sigs chans)
          (Z.to_nat (offsetBefore index sigs) + i * 2) (sampleBytes s x).
Proof.
  intros H. induction H as [|s0 ch0 sigs chans Hs H IH];
    intros [|index] s ch i x Hsig Hch Hx; cbn [nth_error] in Hsig, Hch;
    try discriminate.
  - inversion Hsig; inversion Hch; subst s0 ch0.
    cbn [recordBytes]. unfold offsetBefore. cbn [firstn recSize fold_right].
    cbn [Z.to_nat Nat.add]. apply holdsAt_app_l. now apply holdsAt_channel.
  - cbn [recordBytes]. unfold offsetBefore.
    cbn [firstn recSize fold_right]. fold (recSize (firstn index sigs)).
    fold (offsetBefore index sigs).
    destruct (matches_facts sigs chans H) as (_ & Hnn & _ & _).
    pose proof (recSize_firstn_le sigs index Hnn) as Hoff.
    fold (offsetBefore index sigs) in Hoff.
    pose proof (channelBytes_length s0 ch0) as Hlen0.
    replace (Z.to_nat (SamplesPerRecord s0 * 2 + offsetBefore index sigs)
             + i * 2)%nat
      with (length (concat (map (sampleBytes s0) ch0))
            + (Z.to_nat (offsetBefore index sigs) + i * 2))%nat by lia.
    apply holdsAt_app_r. now apply (IH index s ch i x).
Qed.

Lemma recSize_blank (sigs : list Signal) :
  recSize (map (set_Reserved []) sigs) = recSize sigs.
Proof.
  induction sigs as [|s sigs IH]; [reflexivity|].
  cbn [map recSize fold_right]. fold (recSize (map (set_Reserved []) sigs)).
  fold (recSize sigs). now rewrite IH.
Qed.

Lemma offsetBefore_blank index (sigs : list Signal) :
  offsetBefore index (map (set_Reserved []) sigs) = offsetBefore index sigs.
Proof. unfold offsetBefore. now rewrite firstn_map, recSize_blank. Qed.

Lemma recSize_bound (sigs : list Signal) B :
  Forall (fun s => 0 <= SamplesPerRecord s < B) sigs ->
  0 <= recSize sigs <= 2 * B * Z.of_nat (length sigs).
Proof.
  induction 1 as [|s sigs Hs H IH]; [cbn; lia|].
  cbn [recSize fold_right length]. fold (recSize sigs). lia.
Qed.

(** The size check of [WriteRecord], passed by a record with the geometry
    of a valid header, bounds the record's true size. *)
Lemma matching_record_size (h : Header) (chans : list (list float)) :
  headerOK h -> recordMatches (Signals h) chans ->
  (GoInt.mul (totalSamples chans) 2 >? 61440) = false ->
  recSize (Signals h) <= 61440.
Proof.
  intros Hok Hm Hcheck.
  destruct (matches_facts _ _ Hm) as (Hlen & Hnn & Hrs & _).
  destruct Hok as (_ & _ & _ & _ & _ & _ & HSC & Hcount & Hsigs).
  assert (Hn : Z.of_nat (length (Signals h)) < 10 ^ 4).
  { rewrite <- Hcount. apply (intOK_bound 4); [lia | exact HSC]. }
  assert (Hb : Forall (fun s => 0 <= SamplesPerRecord s < 10 ^ 8) (Signals h)).
  { rewrite Forall_forall in *. intros s Hs. split; [now apply Hnn|].
    apply (intOK_bound 8); [now apply Hnn | apply (Hsigs s Hs)]. }
  apply recSize_bound in Hb.
  assert (Hsc : sampleCount chans <= 10 ^ 12)
    by (change (10 ^ 12) with 1000000000000;
        change (10 ^ 8) with 100000000 in Hb;
        change (10 ^ 4) with 10000 in Hn; nia).
  change (10 ^ 12) with 1000000000000 in Hsc.
  rewrite totalSamples_exact in Hcheck by (unfold GoInt.maxInt; lia).
  pose proof (sampleCount_nonneg chans).
  unfold GoInt.mul in Hcheck.
  rewrite wrap64_id in Hcheck
    by (unfold GoInt.inInt, GoInt.minInt, GoInt.maxInt; lia).
  rewrite Z.gtb_ltb in Hcheck. apply Z.ltb_ge in Hcheck. lia.
Qed.

Lemma writeAll_checks records : forall (ew ew' : Writer),
  writeAll ew records = Some ew' ->
  Forall (fun chans =>
            (GoInt.mul (totalSamples chans) 2 >? 61440) = false) records.
Proof.
  induction records as [|chans rest IH]; intros ew ew' H; [constructor|].
  cbn [writeAll] in H.
  destruct (WriteRecord ew chans) as [ew1 [u|e|]] eqn:E; try discriminate.
  apply WriteRecord_ok_bytes in E. destruct E as (_ & Hcheck & _ & _).
  constructor; [assumption | eauto].
Qed.

Lemma cursorAfter_at spr (rec i : nat) (k : nat) :
  (i < k)%nat -> spr = Z.of_nat k ->
  cursorAfter spr (rec * k + i) = (Z.of_nat rec, Z.of_nat i).
Proof.
  intros Hi ->. rewrite cursorAfter_div_mod by lia. f_equal.
  - symmetry. apply (Z.div_unique_pos _ _ _ (Z.of_nat i)); lia.
  - symmetry. apply (Z.mod_unique_pos _ _ (Z.of_nat rec)); lia.
Qed.

Lemma atSample_zero (sr : SignalReader) :
  currentRecord sr = 0 -> currentSample sr = 0 -> atSample sr 0 = sr.
Proof.
  destruct sr as [data hd ix rec smp rs so spr].
  cbn [currentRecord currentSample]. intros -> ->. reflexivity.
Qed.

End SampleRoundTrip.

Section RoundTripTheorem.
Context {T : TimeRep} {L : GoLib}.

Import Strings Strconv.

Lemma matches_channel sigs chans index (s : Signal) :
  recordMatches sigs chans ->
  nth_error sigs index = Some s ->
  nth_error chans index = Some (channel index chans)
  /\ SamplesPerRecord s = Z.of_nat (length (channel index chans)).
Proof.
  intros H. revert index. induction H as [|s0 ch0 sigs chans Hs H IH];
    intros [|index] Hsig; cbn [nth_error] in Hsig; try discriminate.
  - inversion Hsig; subst s0. split; [reflexivity | exact Hs].
  - apply (IH index Hsig).
Qed.

(** [Open] on the store a closed writer leaves. *)
Lemma Open_closed_file
    (sink : IO.File) (h : Header) (records : list (list (list float)))
    (ew0 ewN : Writer) :
  headerOK h ->
  WriterGo.Create sink h = (w ew0, Ok ew0) ->
  writeAll ew0 records = Some ewN ->
  Z.of_nat (length records) < 100000000 ->
  let final := recomputed (set_DataRecords (Z.of_nat (length records)) h) in
  let body := concat (map (recordBytes (Signals h)) records) in
  let store :=
    headerText final ++ body
    ++ skipn (length (headerText final) + length body) (IO.contents sink) in
  Open (IO.Rewind (w (fst (WriterGo.Close ewN))))
  = Ok (mkReader store (blankReserved final)).
Proof.
  intros Hok HCreate Hall Hsmall final body store.
  destruct (closed_file_contents sink h records ew0 ewN Hok HCreate Hall Hsmall)
    as (HClose & HN & Hcontents).
  fold final in HClose, Hcontents. fold body in Hcontents.
  rewrite HClose. cbn [fst w]. rewrite Rewind_Write_Rewind.
  rewrite contents_Write_Rewind in Hcontents.
  apply app_inv_head in Hcontents. rewrite Hcontents.
  apply (Open_headerText (set_DataRecords (Z.of_nat (length records)) h));
    assumption.
Qed.

Lemma written_chunks (sigs : list Signal) records index signal k c :
  Forall (recordMatches sigs) records ->
  nth_error sigs index = Some signal ->
  SamplesPerRecord signal = Z.of_nat k ->
  In c (map (channel index) records) -> length c = k.
Proof.
  intros Hmatch Hsignal Hk Hc.
  apply in_map_iff in Hc. destruct Hc as (chans & <- & Hin).
  rewrite Forall_forall in Hmatch.
  destruct (matches_channel sigs chans index signal (Hmatch _ Hin) Hsignal)
    as [_ Hlen].
  lia.
Qed.

Lemma written_length (sigs : list Signal) records index signal k :
  Forall (recordMatches sigs) records ->
  nth_error sigs index = Some signal ->
  SamplesPerRecord signal = Z.of_nat k ->
  length (concat (map (channel index) records)) = (length records * k)%nat.
Proof.
  intros Hmatch Hsignal Hk.
  rewrite (length_concat_uniform _ k); [now rewrite length_map|].
  intros c. now apply (written_chunks sigs records index signal k c).
Qed.

Lemma body_chunks (sigs : list Signal) records c :
  Forall (recordMatches sigs) records ->
  In c (map (recordBytes sigs) records) ->
  length c = Z.to_nat (recSize sigs).
Proof.
  intros Hmatch Hc. apply in_map_iff in Hc. destruct Hc as (chans & <- & Hin).
  rewrite Forall_forall in Hmatch.
  destruct (matches_facts sigs chans (Hmatch _ Hin)) as (_ & _ & _ & Hlen).
  lia.
Qed.

(** The sample with number [i] of a signal: what was written there, what
    the cursor of a reader is once [i] samples are consumed, and what the
    store holds at the cursor's offset. *)
Lemma sample_position
    (sigs : list Signal) (records : list (list (list float)))
    (text left : list byte) (index : nat) (signal : Signal)
    (sr : SignalReader) (k i : nat) :
  Forall (recordMatches sigs) records ->
  nth_error sigs index = Some signal ->
  (0 < k)%nat ->
  Forall (fun s => 0 <= SamplesPerRecord s) sigs ->
  sr_r sr = text ++ concat (map (recordBytes sigs) records) ++ left ->
  HeaderBytes (sr_hdr sr) = Z.of_nat (length text) ->
  recordSize sr = recSize sigs ->
  signalOffset sr = offsetBefore index sigs ->
  samplesPerRecord sr = Z.of_nat k ->
  SamplesPerRecord signal = Z.of_nat k ->
  (i < length records * k)%nat ->
  exists x,
    nth_error (concat (map (channel index) records)) i = Some x
    /\ fst (cursorAfter (samplesPerRecord sr) i) < Z.of_nat (length records)
    /\ IO.readAt (sr_r sr) (offsetOf sr (cursorAfter (samplesPerRecord sr) i)) 2
       = Some (sampleBytes signal x).
Proof.
  intros Hmatch Hsignal Hkpos Hnn Hstore HHB HRS HSO HSPR Hk Hi.
  pose proof (Nat.div_mod_eq i k) as Hdm.
  pose proof (Nat.mod_upper_bound i k ltac:(lia)) as Hmod.
  set (rec := (i / k)%nat) in *. set (smp := (i mod k)%nat) in *.
  assert (Hrec : (rec < length records)%nat) by nia.
  destruct (nth_error records rec) as [chans|] eqn:Echans;
    [|apply nth_error_None in Echans; lia].
  assert (Hm : recordMatches sigs chans).
  { rewrite Forall_forall in Hmatch. apply Hmatch.
    eapply nth_error_In; eauto. }
  destruct (matches_channel sigs chans index signal Hm Hsignal)
    as [Hch Hlen].
  assert (Hsmp : (smp < length (channel index chans))%nat) by lia.
  destruct (nth_error (channel index chans) smp) as [x|] eqn:Ex;
    [|apply nth_error_None in Ex; lia].
  exists x.
  assert (Hi' : i = (rec * k + smp)%nat) by lia.
  rewrite HSPR, Hi'.
  rewrite (cursorAfter_at (Z.of_nat k) rec smp k Hmod eq_refl).
  cbn [fst]. split; [|split; [lia|]].
  - rewrite (nth_error_concat_uniform _ k rec (channel index chans) smp);
      [exact Ex | | | exact Hmod].
    + intros c. now apply (written_chunks sigs records index signal k c).
    + now rewrite nth_error_map, Echans.
  - unfold offsetOf. cbn [fst snd]. rewrite HHB, HRS, HSO, Hstore.
    pose proof (recSize_nonneg sigs Hnn) as Hrs0.
    pose proof (recSize_firstn_le sigs index Hnn) as Hoff.
    fold (offsetBefore index sigs) in Hoff.
    replace (Z.of_nat (length text) + Z.of_nat rec * recSize sigs
             + offsetBefore index sigs + Z.of_nat smp * 2)
      with (Z.of_nat (length text
                      + (rec * Z.to_nat (recSize sigs)
                         + (Z.to_nat (offsetBefore index sigs) + smp * 2))))
      by lia.
    unfold sampleBytes, int16le. apply holdsAt_readAt.
    apply holdsAt_app_r. apply holdsAt_app_l.
    apply (holdsAt_concat _ (Z.to_nat (recSize sigs)) rec
             (recordBytes sigs chans)).
    + intros c. now apply body_chunks.
    + now rewrite nth_error_map, Echans.
    + apply (holdsAt_sample sigs chans Hm index signal
               (channel index chans) smp x); assumption.
Qed.

Lemma cursor_within (n k i : nat) :
  (0 < k)%nat ->
  fst (cursorAfter (Z.of_nat k) i) < Z.of_nat n -> (i < n * k)%nat.
Proof.
  intros Hkpos.
  pose proof (Nat.div_mod_eq i k) as Hdm.
  pose proof (Nat.mod_upper_bound i k ltac:(lia)) as Hmod.
  rewrite Hdm at 1.
  rewrite (Nat.mul_comm k), (cursorAfter_at (Z.of_nat k) _ _ k Hmod eq_refl).
  cbn [fst]. nia.
Qed.

Lemma cursor_beyond (n k i : nat) :
  (0 < k)%nat ->
  Z.of_nat n <= fst (cursorAfter (Z.of_nat k) i) -> (n * k <= i)%nat.
Proof.
  intros Hkpos.
  pose proof (Nat.div_mod_eq i k) as Hdm.
  pose proof (Nat.mod_upper_bound i k ltac:(lia)) as Hmod.
  rewrite Hdm at 1.
  rewrite (Nat.mul_comm k), (cursorAfter_at (Z.of_nat k) _ _ k Hmod eq_refl).
  cbn [fst]. nia.
Qed.

End RoundTripTheorem.

Section RoundTripMain.
Context {T : TimeRep} {L : GoLib}.

Import Strings Strconv.

Lemma Reader_Signal_in_range (er : Reader) (index : nat) (signal : Signal) :
  nth_error (Signals (rhdr er)) index = Some signal ->
  exists rs so,
    Reader_Signal er (Z.of_nat index)
    = Ok (mkSignalReader (r er) (rhdr er) (Z.of_nat index) 0 0 rs so
                         (SamplesPerRecord signal)).
Proof.
  intros Hs. unfold Reader_Signal.
  assert (Hlt : (index < length (Signals (rhdr er)))%nat)
    by (apply nth_error_Some; congruence).
  destruct (Z.ltb_spec (Z.of_nat index) 0); [lia|].
  destruct (Z.geb_spec (Z.of_nat index)
                       (Z.of_nat (length (Signals (rhdr er))))); [lia|].
  cbn [orb]. rewrite Nat2Z.id, Hs.
  destruct (layoutFrom _ _ _ _ _) as [rs so]. eauto.
Qed.

Lemma Read_no_records (sr : SignalReader) (data : list float) :
  currentRecord sr = 0 -> DataRecords (sr_hdr sr) <= 0 ->
  Read sr data
  = mkReadState sr data 0
      (match data with [] => Ok tt | _ => Err EOF end).
Proof.
  intros Hrec Hn. destruct data as [|x rest]; [reflexivity|].
  unfold Read. cbn [length readLoop]. rewrite Hrec.
  destruct (Z.geb_spec 0 (DataRecords (sr_hdr sr))); [reflexivity | lia].
Qed.

(** X13: what is written is what is read.  After [Create] with a valid
    header, records that have the header's geometry (fewer than 10^8 of
    them), and [Close], [Open] on the rewound store succeeds, and for
    every signal with a positive [SamplesPerRecord] the reader from
    [Signal] delivers that signal's samples in the order written, record
    after record, each as the physical value of its 16-bit code: [Read]
    fills the buffer as far as the samples reach, leaves the rest of the
    buffer alone, and returns [io.EOF] exactly when the buffer is longer
    than what was written. *)
Theorem written_samples_are_read_back
    (sink : IO.File) (h : Header) (records : list (list (list float)))
    (ew0 ewN : Writer) :
  headerOK h ->
  Forall (recordMatches (Signals h)) records ->
  WriterGo.Create sink h = (w ew0, Ok ew0) ->
  writeAll ew0 records = Some ewN ->
  Z.of_nat (length records) < 100000000 ->
  exists rd,
    Open (IO.Rewind (w (fst (WriterGo.Close ewN)))) = Ok rd
    /\ forall (index : nat) (signal : Signal) (data : list float),
         nth_error (Signals h) index = Some signal ->
         0 < SamplesPerRecord signal ->
         exists sr,
           Reader_Signal rd (Z.of_nat index) = Ok sr
           /\ let st := Read sr data in
              let written := concat (map (channel index) records) in
              rs_n st = Nat.min (length data) (length written)
              /\ firstn (rs_n st) (rs_data st)
                 = map (requantised signal) (firstn (length data) written)
              /\ skipn (rs_n st) (rs_data st) = skipn (rs_n st) data
              /\ rs_err st
                 = if (length data <=? length written)%nat then Ok tt
                   else Err EOF.
Proof.
  intros Hok Hmatch HCreate Hall Hsmall.
  pose proof (Open_closed_file sink h records ew0 ewN Hok HCreate Hall Hsmall)
    as HOpen.
  cbv zeta in HOpen.
  assert (Hcase : records = [] \/ exists chans0, In chans0 records).
  { destruct records as [|chans0 rest]; [now left|].
    right. exists chans0. now left. }
  destruct Hcase as [Hnil | (chans0 & Hin0)].
  { (* no record: the count is 0 *)
    subst records. eexists. split; [exact HOpen|].
    intros index signal data Hsignal Hpos.
    match type of HOpen with _ = Ok ?x => set (rd := x) end.
    assert (Hs' : nth_error (Signals (rhdr rd)) index
                  = Some (set_Reserved [] signal)).
    { cbn. now rewrite nth_error_map, Hsignal. }
    destruct (Reader_Signal_in_range rd index _ Hs') as (rs & so & HSig).
    eexists. split; [exact HSig|].
    cbv zeta. rewrite Read_no_records by (cbn; lia).
    cbn [rs_n rs_data rs_err map concat length].
    rewrite Nat.min_0_r, firstn_nil. cbn [firstn skipn map].
    repeat split. now destruct data. }
  set (final := recomputed (set_DataRecords (Z.of_nat (length records)) h)) in *.
  set (body := concat (map (recordBytes (Signals h)) records)) in *.
  set (left := skipn (length (headerText final) + length body)
                     (IO.contents sink)) in *.
  eexists. split; [exact HOpen|].
  intros index signal data Hsignal Hpos.
  set (rd := mkReader (headerText final ++ body ++ left) (blankReserved final)).
  assert (Hs' : nth_error (Signals (rhdr rd)) index
                = Some (set_Reserved [] signal)).
  { cbn. now rewrite nth_error_map, Hsignal. }
  destruct (Reader_Signal_in_range rd index _ Hs') as (rs & so & HSig).
  eexists. split; [exact HSig|].
  set (sr := mkSignalReader _ _ _ _ _ _ _ _) in *.
  cbv zeta.
  set (written := concat (map (channel index) records)).
  assert (Hm0 : recordMatches (Signals h) chans0).
  { rewrite Forall_forall in Hmatch. now apply Hmatch. }
  destruct (matches_facts _ _ Hm0) as (_ & Hnn & _ & _).
  assert (Hsize : recSize (Signals h) <= 61440).
  { apply (matching_record_size h chans0 Hok Hm0).
    pose proof (writeAll_checks records ew0 ewN Hall) as Hchecks.
    rewrite Forall_forall in Hchecks. now apply Hchecks. }
  assert (HN : intOK 8 (Z.of_nat (length records))).
  { apply intOK_nonneg; [lia | simpl; lia | unfold GoInt.maxInt; lia]. }
  destruct (headerText_length
              (set_DataRecords (Z.of_nat (length records)) h) Hok HN)
    as [Hlen HHB].
  fold final in Hlen, HHB. cbn [Signals set_DataRecords] in Hlen, HHB.
  assert (Hn : Z.of_nat (length (Signals h)) < 10 ^ 4).
  { destruct Hok as (_ & _ & _ & _ & _ & _ & HSC & Hcount & _).
    rewrite <- Hcount. apply (intOK_bound 4); [lia | exact HSC]. }
  change (10 ^ 4) with 10000 in Hn.
  pose proof (recSize_nonneg _ Hnn) as Hrs0.
  assert (Hpl : plausible (rhdr rd)).
  { unfold plausible. cbn [rd rhdr].
    change (HeaderBytes (blankReserved final)) with (HeaderBytes final).
    change (DataRecords (blankReserved final))
      with (Z.of_nat (length records)).
    change (Signals (blankReserved final))
      with (map (set_Reserved []) (Signals h)).
    rewrite recSize_blank, HHB.
    split; [lia|]. split.
    { rewrite Forall_forall in *. intros s Hs.
      apply in_map_iff in Hs. destruct Hs as (s0 & <- & Hs0).
      cbn. now apply Hnn. }
    unfold GoInt.maxInt. repeat split; try lia. nia. }
  destruct (Reader_Signal_layout rd (Z.of_nat index) sr Hpl HSig)
    as (_ & _ & _ & _ & _ & _ & HRS & HSO & _).
  rewrite Nat2Z.id in HSO.
  change (Signals (rhdr rd)) with (map (set_Reserved []) (Signals h))
    in HRS, HSO.
  rewrite recSize_blank in HRS. rewrite offsetBefore_blank in HSO.
  set (k := Z.to_nat (SamplesPerRecord signal)).
  assert (Hk : SamplesPerRecord signal = Z.of_nat k) by lia.
  assert (Hkpos : (0 < k)%nat) by lia.
  assert (HSPR : samplesPerRecord sr = Z.of_nat k) by exact Hk.
  assert (Hwlen : length written = (length records * k)%nat)
    by (apply (written_length (Signals h) records index signal k);
        assumption).
  assert (Hposn : forall i, (i < length records * k)%nat ->
            exists x,
              nth_error written i = Some x
              /\ fst (cursorAfter (samplesPerRecord sr) i)
                 < Z.of_nat (length records)
              /\ IO.readAt (sr_r sr)
                   (offsetOf sr (cursorAfter (samplesPerRecord sr) i)) 2
                 = Some (sampleBytes signal x)).
  { intros i Hi.
    apply (sample_position (Signals h) records (headerText final) left
             index signal sr k i); try assumption; try reflexivity.
    rewrite Hlen. exact HHB. }
  assert (Hwithin : forall i,
            fst (cursorAfter (samplesPerRecord sr) i)
            < Z.of_nat (length records) -> (i < length records * k)%nat).
  { intros i. rewrite HSPR. now apply cursor_within. }
  assert (Hbeyond : forall i,
            Z.of_nat (length records)
            <= fst (cursorAfter (samplesPerRecord sr) i) ->
            (length records * k <= i)%nat).
  { intros i. rewrite HSPR. now apply cursor_beyond. }
  destruct (readLoop_spec rd (Z.of_nat index) sr (set_Reserved [] signal)
              Hpl HSig ltac:(rewrite Nat2Z.id; exact Hs')
              (length data) 0%nat 0%nat data eq_refl)
    as (j & Hj & Hcnt & _ & Hl & Hsame & Hprod & Hout).
  rewrite (atSample_zero sr eq_refl eq_refl) in *.
  fold (Read sr data) in *.
  cbn [Nat.add] in Hcnt, Hsame, Hprod, Hout.
  change (DataRecords (rhdr rd)) with (Z.of_nat (length records)) in Hout.
  (* every produced sample is within what was written *)
  assert (Hjle : (j <= length records * k)%nat).
  { destruct j as [|j']; [lia|].
    destruct (Hprod j' ltac:(lia)) as [Hrec _].
    change (DataRecords (sr_hdr sr)) with (Z.of_nat (length records)) in Hrec.
    apply Hwithin in Hrec. lia. }
  assert (Hvals : forall i, (i < j)%nat ->
            exists x, nth_error written i = Some x
                      /\ nth_error (rs_data (Read sr data)) i
                         = Some (requantised signal x)).
  { intros i Hi. destruct (Hprod i Hi) as (_ & b0 & b1 & Hread & Hv).
    destruct (Hposn i ltac:(lia)) as (x & Hx & _ & Hread').
    assert (Hb : [b0; b1] = sampleBytes signal x) by congruence.
    exists x. split; [exact Hx|]. rewrite Hv. f_equal.
    unfold requantised. cbn [set_Reserved DigitalMin DigitalMax PhysicalMin
                             PhysicalMax].
    f_equal. apply decode_int16le. exact Hb. }
  assert (Hjmin : j = Nat.min (length data) (length written)).
  { rewrite Hwlen.
    destruct Hout as [(_ & ->)|[(_ & Hlt & Hrec)|(_ & Hlt & Hrec & Hnone)]].
    - lia.
    - apply Hbeyond in Hrec. lia.
    - apply Hwithin in Hrec.
      destruct (Hposn j Hrec) as (x & _ & _ & Hread).
      rewrite Hread in Hnone. discriminate. }
  rewrite Hcnt. split; [exact Hjmin|]. split; [|split].
  - apply list_eq_nth. intros i.
    rewrite nth_error_firstn, nth_error_map, nth_error_firstn.
    destruct (Nat.ltb_spec i j) as [Hi|Hi].
    + destruct (Hvals i Hi) as (x & Hx & Hv).
      destruct (Nat.ltb_spec i (length data)); [|lia].
      now rewrite Hx, Hv.
    + destruct (Nat.ltb_spec i (length data)); [|reflexivity].
      assert (Hnone : nth_error written i = None)
        by (apply nth_error_None; lia).
      now rewrite Hnone.
  - apply list_eq_nth. intros i. rewrite !nth_error_skipn.
    apply Hsame. lia.
  - rewrite Hwlen.
    destruct Hout as [(He & ->)|[(He & Hlt & Hrec)|(_ & Hlt & Hrec & Hnone)]].
    + rewrite He. destruct (Nat.leb_spec (length data) (length records * k));
        [reflexivity | lia].
    + rewrite He. apply Hbeyond in Hrec.
      destruct (Nat.leb_spec (length data) (length records * k));
        [lia | reflexivity].
    + apply Hwithin in Hrec.
      destruct (Hposn j Hrec) as (x & _ & _ & Hread).
      rewrite Hread in Hnone. discriminate.
Qed.

End RoundTripMain.

(** ** Fields written and parsed back *)

Section FieldRoundTrips.
Context {T : TimeRep} {L : GoLib}.

Import Strings Strconv.

Lemma digits_trimmed (c : byte) (ds : list byte) :
  asciiSpace c = false ->
  Forall (fun c => isDigit c = true) ds ->
  trimmed (c :: ds).
Proof.
  intros Hc Hds. split; [exact Hc|].
  destruct ds as [|d ds']; [exact Hc|].
  rewrite Forall_forall in Hds. apply isDigit_not_space, Hds.
  destruct (exists_last (l := d :: ds') ltac:(discriminate)) as (l' & a & El).
  change (last (c :: d :: ds') c) with (last (d :: ds') c).
  rewrite El, last_last. apply in_or_app. right. now left.
Qed.

(** A negative integer above [- 10 ^ (width - 1)] is a valid integer field
    of that width. *)
Lemma intOK_neg width z :
  - 10 ^ Z.of_nat (width - 1) < z < 0 -> GoInt.minInt <= z ->
  intOK width z.
Proof.
  intros Hz Hmin.
  assert (Hw : (1 < width)%nat).
  { destruct width as [|[|w]]; [cbn in Hz; lia | cbn in Hz; lia | lia]. }
  destruct (formatUint_spec (- z) ltac:(lia)) as (Hdig & Hne & Hval & Hlen).
  unfold intOK, formatInt.
  destruct (Z.ltb_spec z 0) as [_|]; [|lia].
  set (ds := formatUint (- z)) in *.
  assert (Hminus : Utf8.isASCII "-"%char = true) by reflexivity.
  assert (Hascii : allASCII ("-"%char :: ds) = true).
  { cbn [allASCII forallb]. rewrite Hminus. cbn [andb].
    apply forallb_forall. intros c Hc.
    rewrite Forall_forall in Hdig. apply isDigit_ASCII. now apply Hdig. }
  assert (Htrim : trimmed ("-"%char :: ds))
    by (apply digits_trimmed; [reflexivity | assumption]).
  assert (Hfit : (length ("-"%char :: ds) <= width)%nat).
  { cbn [length]. specialize (Hlen (width - 1)%nat ltac:(lia) ltac:(lia)).
    lia. }
  split.
  - now apply padRight_ASCII_length.
  - rewrite TrimSpace_padRight by assumption.
    unfold Atoi. change (byteVal "-"%char) with 45. cbn [Z.eqb orb Pos.eqb].
    destruct ds as [|d ds'] eqn:E; [contradiction|].
    rewrite Hval.
    unfold GoInt.minInt, GoInt.maxInt in *.
    destruct (Z.leb_spec (- 2 ^ 63) (- - z)) as [_|]; [|lia].
    destruct (Z.leb_spec (- - z) (2 ^ 63 - 1)) as [_|]; [|lia].
    cbn [andb]. f_equal. lia.
Qed.

(** X14: an integer field comes back as written: for a field of [width]
    bytes and an [int] above [- 10 ^ (width - 1)] and below [10 ^ width],
    [fmt.Sprintf("%-*d")] gives exactly [width] bytes and [parseInt]
    returns the integer from them. *)
Theorem integer_field_roundtrip (width : nat) (z : Z) :
  (0 < width)%nat ->
  - 10 ^ Z.of_nat (width - 1) < z < 10 ^ Z.of_nat width ->
  GoInt.minInt <= z <= GoInt.maxInt ->
  length (padRight width (formatInt z)) = width
  /\ parseInt (padRight width (formatInt z)) = z.
Proof.
  intros Hw Hz Hint.
  assert (Hok : intOK width z).
  { destruct (Z.lt_ge_cases z 0).
    - apply intOK_neg; lia.
    - apply intOK_nonneg; lia. }
  destruct Hok as [Hlen Hparse]. split; [exact Hlen|].
  unfold parseInt. now rewrite Hparse.
Qed.

(** X15: a text field comes back as written: ASCII text without white
    space at either end and no longer than the field is padded to exactly
    the field's width, and [strings.TrimSpace] returns the text from the
    padded field. *)
Theorem text_field_roundtrip (width : nat) (s : list byte) :
  allASCII s = true -> trimmed s -> (length s <= width)%nat ->
  length (padRight width s) = width
  /\ TrimSpace (padRight width s) = s.
Proof.
  intros Ha Ht Hl. split.
  - now apply padRight_ASCII_length.
  - now apply TrimSpace_padRight.
Qed.

End FieldRoundTrips.

(** ** What [Open] looks at, and [Signal] after [Open] *)

Section OpenAndSignal.
Context {T : TimeRep} {L : GoLib}.

Import Strings Strconv.

Lemma slice_prefix a b m (s s' : list byte) :
  (b <= m)%nat -> firstn m s' = firstn m s -> slice a b s' = slice a b s.
Proof.
  intros Hb Heq.
  rewrite <- (slice_firstn a b m s') by assumption.
  rewrite <- (slice_firstn a b m s) by assumption.
  now rewrite Heq.
Qed.

Lemma decodeSignal_prefix n (s s' : list byte) j :
  (j < n)%nat -> firstn (n * 256) s' = firstn (n * 256) s ->
  decodeSignal n s' j = decodeSignal n s j.
Proof.
  intros Hj Heq. unfold decodeSignal, fieldAt.
  repeat match goal with
         | |- context [slice ?a ?b s'] =>
             rewrite (slice_prefix a b (n * 256) s s') by (assumption || lia)
         end.
  reflexivity.
Qed.

(** X16: [Open] looks at the header bytes only: a store that agrees with
    one [Open] accepts on the 256 + 256 x count header bytes decodes to the
    same header, whatever data follows. *)
Theorem Open_reads_only_the_header (f f' : IO.File) (rd : Reader) :
  Open f = Ok rd ->
  (let m := (256 + Z.to_nat (SignalCount (rhdr rd)) * 256)%nat in
   firstn m (wire f') = firstn m (wire f)) ->
  Open f' = Ok (mkReader (IO.contents f') (rhdr rd)).
Proof.
  intros HOpen Heq. cbv zeta in Heq.
  rewrite Open_eq in *. unfold decodeHeader in *.
  destruct (Nat.leb_spec 256 (length (wire f))) as [H256|]; [|discriminate].
  destruct (Parse_date _) as [d|] eqn:Ed; [|discriminate].
  destruct (Parse_clock _) as [c|] eqn:Ec; [|discriminate].
  destruct (Atoi (TrimSpace (slice 184 192 _))) as [hb|] eqn:Eh;
    [|discriminate].
  destruct (Atoi (TrimSpace (slice 236 244 _))) as [nr|] eqn:En;
    [|discriminate].
  destruct (ParseDuration _) as [dur|] eqn:Edur; [|discriminate].
  destruct (Atoi (TrimSpace (slice 252 256 (wire f)))) as [sc|] eqn:Es;
    [|discriminate].
  destruct (Z.ltb_spec sc 0) as [|Hsc]; [discriminate|]. cbv zeta in HOpen.
  destruct (Nat.leb_spec (256 + Z.to_nat sc * 256) (length (wire f)))
    as [Hlen|]; [|discriminate].
  remember (skipn 256 (wire f)) as rest eqn:Erest.
  injection HOpen as Hrd. subst rd.
  cbn [rhdr SignalCount] in Heq.
  set (m := (256 + Z.to_nat sc * 256)%nat) in *.
  assert (Hlen' : (m <= length (wire f'))%nat).
  { apply (f_equal (@length _)) in Heq. rewrite !length_firstn in Heq. lia. }
  destruct (Nat.leb_spec 256 (length (wire f'))); [|lia].
  rewrite !(slice_prefix _ _ m (wire f) (wire f')) by (assumption || lia).
  rewrite Ed, Ec, Eh, En, Edur, Es.
  destruct (Z.ltb_spec sc 0); [lia|]. cbv zeta. fold m.
  destruct (Nat.leb_spec m (length (wire f'))); [|lia].
  cbn [rhdr]. do 3 f_equal.
  apply map_ext_in. intros j Hj. apply in_seq in Hj.
  apply decodeSignal_prefix; [lia|].
  subst rest.
  rewrite (firstn_skipn_comm (Z.to_nat sc * 256) 256 (wire f')).
  rewrite (firstn_skipn_comm (Z.to_nat sc * 256) 256 (wire f)).
  unfold m in Heq. now rewrite Heq.
Qed.

(** X17: on a reader that [Open] returned, [Signal] succeeds for exactly
    the indices from 0 up to the decoded signal count and never panics:
    the reader it returns stands at record 0, sample 0 of the store
    [Open] read, and takes its samples per record from the signal with
    that index. *)
Theorem Signal_after_Open (f : IO.File) (rd : Reader) (index : Z) :
  Open f = Ok rd ->
  (0 <= index < SignalCount (rhdr rd) ->
   exists sr signal,
     Reader_Signal rd index = Ok sr
     /\ nth_error (Signals (rhdr rd)) (Z.to_nat index) = Some signal
     /\ sr_r sr = IO.contents f /\ sr_hdr sr = rhdr rd
     /\ signalIndex sr = index
     /\ currentRecord sr = 0 /\ currentSample sr = 0
     /\ samplesPerRecord sr = SamplesPerRecord signal)
  /\ (index < 0 \/ SignalCount (rhdr rd) <= index ->
      Reader_Signal rd index = Err ErrSignalIndex).
Proof.
  intros HOpen.
  destruct (Open_ok_count f rd HOpen) as (Hnn & Hcount & _ & Hr).
  split.
  - intros Hidx.
    destruct (nth_error (Signals (rhdr rd)) (Z.to_nat index)) as [signal|]
      eqn:Es; [|apply nth_error_None in Es; lia].
    destruct (Reader_Signal_in_range rd (Z.to_nat index) signal Es)
      as (rs & so & HSig).
    rewrite Z2Nat.id in HSig by lia.
    eexists. exists signal. split; [exact HSig|].
    cbn. repeat split. exact Hr.
  - intros Hout. unfold Reader_Signal. rewrite Hcount.
    destruct (Z.ltb_spec index 0); [reflexivity|].
    destruct (Z.geb_spec index (SignalCount (rhdr rd))); [reflexivity | lia].
Qed.

End OpenAndSignal.

(** ** A signal without samples *)

Section EmptySignal.
Context {T : TimeRep}.



End EmptySignal.

(** ** Where the package can panic *)

Section Panics.
Context {T : TimeRep} {L : GoLib}.

Import Strings Strconv.

Lemma advance_index (sr : SignalReader) : signalIndex (advance sr) = signalIndex sr.
Proof. unfold advance. now destruct (_ >=? _). Qed.

Lemma readLoop_outcome k : forall n sr data,
  nth_error (Signals (sr_hdr sr)) (Z.to_nat (signalIndex sr)) <> None ->
  let st := readLoop k n sr data in
  rs_err st <> Panic
  /\ (n <= rs_n st <= n + k)%nat
  /\ (rs_err st = Ok tt <-> rs_n st = (n + k)%nat).
Proof.
  induction k as [|k IH]; intros n sr data Hsig; cbn [readLoop].
  - cbn. repeat split; try lia; try discriminate.
  - destruct (_ >=? _);
      [cbn; repeat split; try lia; try discriminate|].
    destruct (_ <? _);
      [cbn; repeat split; try lia; try discriminate|].
    destruct (IO.readAt _ _ _);
      [|cbn; repeat split; try lia; try discriminate].
    destruct (nth_error _ _) as [signal|] eqn:Es; [|contradiction].
    destruct (IH (S n) (advance sr)
                 (setNth n
                    (convertDigitalToPhysical (decodeInt16 l)
                       (DigitalMin signal) (DigitalMax signal)
                       (PhysicalMin signal) (PhysicalMax signal)) data))
      as (HP & Hn & Hiff).
    { rewrite advance_hdr, advance_index. congruence. }
    cbv zeta in *. split; [exact HP|]. split; [lia|].
    rewrite Hiff. lia.
Qed.

(** X19: [Read] through a reader that [Signal] returned never panics,
    whatever the header and the store hold: it returns no error exactly
    when it has filled the whole buffer, and otherwise an error with the
    count of the slots filled so far; the buffer keeps its length. *)
Theorem Read_never_panics
    (er : Reader) (index : Z) (sr : SignalReader) (data : list float) :
  Reader_Signal er index = Ok sr ->
  let st := Read sr data in
  rs_err st <> Panic
  /\ (rs_n st <= length data)%nat
  /\ length (rs_data st) = length data
  /\ (rs_err st = Ok tt <-> rs_n st = length data).
Proof.
  intros HSig st.
  assert (Hsig : nth_error (Signals (sr_hdr sr)) (Z.to_nat (signalIndex sr))
                 <> None).
  { unfold Reader_Signal in HSig.
    destruct (_ || _); [discriminate|].
    destruct (nth_error _ _) as [signal|] eqn:Es; [|discriminate].
    destruct (layoutFrom _ _ _ _ _) as [rs so].
    injection HSig as <-. cbn [sr_hdr signalIndex]. congruence. }
  destruct (readLoop_outcome (length data) 0 sr data Hsig) as (HP & Hn & Hiff).
  fold (Read sr data) in HP, Hn, Hiff. fold st in HP, Hn, Hiff.
  split; [exact HP|]. split; [lia|]. split; [apply readLoop_length|].
  exact Hiff.
Qed.


End Panics.

Lemma Read_never_panics_witness :
  let st := Read Demo.signalReader (repeat 0%float 3) in
  rs_err st <> Panic
  /\ (rs_n st <= length (repeat 0%float 3))%nat
  /\ length (rs_data st) = length (repeat 0%float 3)
  /\ (rs_err st = Ok tt <-> rs_n st = length (repeat 0%float 3)).
Proof.
  assert (HSig : Reader_Signal Demo.reader 0 = Ok Demo.signalReader)
    by (vm_compute; reflexivity).
  exact (Read_never_panics Demo.reader 0 Demo.signalReader
           (repeat 0%float 3) HSig).
Defined.


(** ** Further sample data *)

Module Sample.

(** A header that announces one signal and lists none. *)
Definition miscounted : Header (T := Ref.time) :=
  mkHeader (T := Ref.time) (str "0") (str "Patient X") (str "Recording 1")
           Demo.startTime 0 60000000000 0 1 [].

Definition miscountedWriter : Writer (T := Ref.time) :=
  mkWriter (T := Ref.time) Demo.emptyFile miscounted 0.

(** The reader of signal 0 that [Signal] returns on the header [Create]
    wrote, whose record count is still -1. *)
Definition unfinished : SignalReader (T := Ref.time) :=
  mkSignalReader (T := Ref.time) (r Demo.decoded) (rhdr Demo.decoded)
                 0 0 0 512 0 256.

(** The encoded header followed by bytes that are no header. *)
Definition extended : IO.File :=
  IO.mkFile (IO.contents Demo.encoded ++ str "tail") 0.




End Sample.

Lemma checked_writeHeader_agrees_on_success_witness :
  WriterChecked.writeHeader (L := Ref.lib) Demo.writer0
  = WriterGo.writeHeader (L := Ref.lib) Demo.writer0
  /\ w (fst (WriterChecked.writeHeader (L := Ref.lib) Demo.writer0))
     = IO.Write (IO.Rewind (w Demo.writer0))
                (headerText (L := Ref.lib) (recomputed (hdr Demo.writer0))).
Proof.
  assert (Hok : snd (WriterChecked.writeHeader (L := Ref.lib) Demo.writer0)
                = None) by (vm_compute; reflexivity).
  exact (checked_writeHeader_agrees_on_success (L := Ref.lib) Demo.writer0 Hok).
Defined.

Lemma WriteRecord_appends_sample_codes_witness :
  WriteRecord (L := Ref.lib) Demo.created [Demo.ramp 0]
  = (mkWriter
       (IO.Write (w Demo.created)
          (recordBytes (L := Ref.lib) (Signals (hdr Demo.created))
                       [Demo.ramp 0]))
       (hdr Demo.created) (GoInt.add (dataRecords Demo.created) 1), Ok tt)
  /\ Z.of_nat (length (recordBytes (L := Ref.lib)
                         (Signals (hdr Demo.created)) [Demo.ramp 0]))
     = 2 * sampleCount [Demo.ramp 0].
Proof.
  assert (H1 : Z.of_nat (length [Demo.ramp 0]) = SignalCount (hdr Demo.created))
    by (vm_compute; reflexivity).
  assert (H2 : (length [Demo.ramp 0] <= length (Signals (hdr Demo.created)))%nat)
    by (apply Nat.leb_le; vm_compute; reflexivity).
  assert (H3 : 2 * sampleCount [Demo.ramp 0] <= 61440)
    by (vm_compute; discriminate).
  exact (WriteRecord_appends_sample_codes (L := Ref.lib) Demo.created
           [Demo.ramp 0] H1 H2 H3).
Defined.

Lemma WriteRecord_panics_on_missing_signals_witness :
  snd (WriteRecord (L := Ref.lib) Sample.miscountedWriter [[1%float]]) = Panic
  /\ hdr (fst (WriteRecord (L := Ref.lib) Sample.miscountedWriter [[1%float]]))
     = hdr Sample.miscountedWriter
  /\ dataRecords (fst (WriteRecord (L := Ref.lib) Sample.miscountedWriter
                         [[1%float]]))
     = dataRecords Sample.miscountedWriter.
Proof.
  assert (H1 : Z.of_nat (length [[1%float]])
               = SignalCount (hdr Sample.miscountedWriter))
    by (vm_compute; reflexivity).
  assert (H2 : (length (Signals (hdr Sample.miscountedWriter))
                < length [[1%float]])%nat)
    by (apply Nat.ltb_lt; vm_compute; reflexivity).
  assert (H3 : 2 * sampleCount [[1%float]] <= 61440)
    by (vm_compute; discriminate).
  exact (WriteRecord_panics_on_missing_signals (L := Ref.lib)
           Sample.miscountedWriter [[1%float]] H1 H2 H3).
Defined.

Lemma Demo_decodes : Open (L := Ref.lib) Demo.encoded = Ok Demo.decoded.
Proof. vm_compute. reflexivity. Qed.

Lemma Open_returns_consistent_count_witness :
  0 <= SignalCount (rhdr Demo.decoded)
  /\ Z.of_nat (length (Signals (rhdr Demo.decoded)))
     = SignalCount (rhdr Demo.decoded)
  /\ 256 + 256 * SignalCount (rhdr Demo.decoded)
     <= Z.of_nat (length (wire Demo.encoded))
  /\ r Demo.decoded = IO.contents Demo.encoded.
Proof.
  exact (Open_returns_consistent_count (L := Ref.lib) Demo.encoded
           Demo.decoded Demo_decodes).
Defined.

Lemma Open_refuses_truncated_header_witness :
  exists e,
    Open (L := Ref.lib) (truncated Demo.encoded 300) = Err e
    /\ kindOf e = IOFailure.
Proof.
  assert (Hk : Z.of_nat 300 < 256 + 256 * SignalCount (rhdr Demo.decoded))
    by (vm_compute; reflexivity).
  exact (Open_refuses_truncated_header (L := Ref.lib) Demo.encoded
           Demo.decoded 300 Demo_decodes Hk).
Defined.

Lemma Open_panics_on_negative_count_witness :
  Open (L := Ref.lib) (overwrite Demo.encoded 252 (str "-1  ")) = Panic.
Proof.
  assert (Ht : length (str "-1  ") = 4%nat) by reflexivity.
  assert (Hc : Strconv.Atoi (Strings.TrimSpace (L := Ref.lib) (str "-1  "))
               = Some (-1)) by (vm_compute; reflexivity).
  assert (Hneg : -1 < 0) by lia.
  exact (Open_panics_on_negative_count (L := Ref.lib) Demo.encoded
           Demo.decoded (str "-1  ") (-1) Demo_decodes Ht Hc Hneg).
Defined.

Lemma Read_stays_at_EOF_witness :
  let sr' := rs_reader (Read (atSample Demo.signalReader 510)
                             (repeat 0%float 4)) in
  (forall x rest,
     Read sr' (x :: rest) = mkReadState sr' (x :: rest) 0 (Err EOF))
  /\ Read sr' [] = mkReadState sr' [] 0 (Ok tt).
Proof.
  assert (HEOF : rs_err (Read (atSample Demo.signalReader 510)
                              (repeat 0%float 4)) = Err EOF)
    by (vm_compute; reflexivity).
  exact (Read_stays_at_EOF (atSample Demo.signalReader 510)
           (repeat 0%float 4) HEOF).
Defined.

Lemma Read_of_unfinished_file_witness :
  Read Sample.unfinished [0%float; 0%float]
  = mkReadState Sample.unfinished [0%float; 0%float] 0 (Err EOF).
Proof.
  assert (HSig : Reader_Signal Demo.decoded 0 = Ok Sample.unfinished)
    by (vm_compute; reflexivity).
  assert (Hn : DataRecords (rhdr Demo.decoded) <= 0)
    by (vm_compute; discriminate).
  exact (Read_of_unfinished_file Demo.decoded 0 Sample.unfinished
           0%float [0%float] HSig Hn).
Defined.

Lemma Read_in_two_calls_witness :
  let st1 := Read Demo.signalReader (repeat 0%float 2) in
  let st2 := Read (rs_reader st1) (repeat 0%float 3) in
  Read Demo.signalReader (repeat 0%float 2 ++ repeat 0%float 3)
  = mkReadState (rs_reader st2) (rs_data st1 ++ rs_data st2)
                (length (repeat 0%float 2) + rs_n st2) (rs_err st2).
Proof.
  assert (Hok : rs_err (Read Demo.signalReader (repeat 0%float 2)) = Ok tt)
    by (vm_compute; reflexivity).
  exact (Read_in_two_calls Demo.signalReader (repeat 0%float 2)
           (repeat 0%float 3) Hok).
Defined.

Lemma Demo_created : WriterGo.Create (L := Ref.lib) Demo.emptyFile Demo.header
                     = (w Demo.created, Ok Demo.created).
Proof. vm_compute. reflexivity. Qed.

Lemma Demo_written : writeAll (L := Ref.lib) Demo.created Demo.twoRecords
                     = Some Demo.written.
Proof. vm_compute. reflexivity. Qed.

Lemma Demo_few : Z.of_nat (length Demo.twoRecords) < 100000000.
Proof. vm_compute. reflexivity. Qed.

Lemma Demo_matches :
  Forall (recordMatches (Signals Demo.header)) Demo.twoRecords.
Proof.
  repeat constructor.
Qed.

Lemma file_is_header_then_records_witness :
  let ew' := fst (WriterGo.Close (L := Ref.lib) Demo.written) in
  let body := concat (map (recordBytes (L := Ref.lib) (Signals Demo.header))
                          Demo.twoRecords) in
  IO.contents (w ew')
  = headerText (L := Ref.lib) (hdr ew') ++ body
    ++ skipn (length (headerText (L := Ref.lib) (hdr ew')) + length body)
             (IO.contents Demo.emptyFile)
  /\ length (headerText (L := Ref.lib) (hdr ew'))
     = (256 + length (Signals Demo.header) * 256)%nat
  /\ HeaderBytes (hdr ew')
     = Z.of_nat (length (headerText (L := Ref.lib) (hdr ew')))
  /\ DataRecords (hdr ew') = Z.of_nat (length Demo.twoRecords).
Proof.
  exact (file_is_header_then_records (L := Ref.lib) Demo.emptyFile
           Demo.header Demo.twoRecords Demo.created Demo.written
           Demo_header_ok Demo_created Demo_written Demo_few).
Defined.

Lemma written_samples_are_read_back_witness :
  exists rd,
    Open (L := Ref.lib)
         (IO.Rewind (w (fst (WriterGo.Close (L := Ref.lib) Demo.written))))
    = Ok rd
    /\ forall (index : nat) (signal : Signal) (data : list float),
         nth_error (Signals Demo.header) index = Some signal ->
         0 < SamplesPerRecord signal ->
         exists sr,
           Reader_Signal rd (Z.of_nat index) = Ok sr
           /\ let st := Read sr data in
              let written := concat (map (channel index) Demo.twoRecords) in
              rs_n st = Nat.min (length data) (length written)
              /\ firstn (rs_n st) (rs_data st)
                 = map (requantised (L := Ref.lib) signal)
                       (firstn (length data) written)
              /\ skipn (rs_n st) (rs_data st) = skipn (rs_n st) data
              /\ rs_err st
                 = if (length data <=? length written)%nat then Ok tt
                   else Err EOF.
Proof.
  exact (written_samples_are_read_back (L := Ref.lib) Demo.emptyFile
           Demo.header Demo.twoRecords Demo.created Demo.written
           Demo_header_ok Demo_matches Demo_created Demo_written Demo_few).
Defined.

Lemma integer_field_roundtrip_witness :
  length (Strings.padRight 8 (Strconv.formatInt (-2048))) = 8%nat
  /\ parseInt (L := Ref.lib) (Strings.padRight 8 (Strconv.formatInt (-2048)))
     = -2048.
Proof.
  assert (Hw : (0 < 8)%nat) by lia.
  assert (Hz : - 10 ^ Z.of_nat (8 - 1) < -2048 < 10 ^ Z.of_nat 8)
    by (cbn; lia).
  assert (Hint : GoInt.minInt <= -2048 <= GoInt.maxInt)
    by (unfold GoInt.minInt, GoInt.maxInt; lia).
  exact (integer_field_roundtrip (L := Ref.lib) 8 (-2048) Hw Hz Hint).
Defined.

Lemma text_field_roundtrip_witness :
  length (Strings.padRight 16 (str "EEG Fpz-Cz")) = 16%nat
  /\ Strings.TrimSpace (L := Ref.lib) (Strings.padRight 16 (str "EEG Fpz-Cz"))
     = str "EEG Fpz-Cz".
Proof.
  assert (Ha : allASCII (str "EEG Fpz-Cz") = true) by reflexivity.
  assert (Ht : trimmed (str "EEG Fpz-Cz")) by (split; reflexivity).
  assert (Hl : (length (str "EEG Fpz-Cz") <= 16)%nat) by (cbn; lia).
  exact (text_field_roundtrip (L := Ref.lib) 16 (str "EEG Fpz-Cz") Ha Ht Hl).
Defined.

Lemma Open_reads_only_the_header_witness :
  Open (L := Ref.lib) Sample.extended
  = Ok (mkReader (IO.contents Sample.extended) (rhdr Demo.decoded)).
Proof.
  assert (Heq : let m := (256 + Z.to_nat (SignalCount (rhdr Demo.decoded))
                                * 256)%nat in
                firstn m (wire Sample.extended) = firstn m (wire Demo.encoded))
    by (vm_compute; reflexivity).
  exact (Open_reads_only_the_header (L := Ref.lib) Demo.encoded
           Sample.extended Demo.decoded Demo_decodes Heq).
Defined.

Lemma Signal_after_Open_witness :
  (0 <= 0 < SignalCount (rhdr Demo.decoded) ->
   exists sr signal,
     Reader_Signal Demo.decoded 0 = Ok sr
     /\ nth_error (Signals (rhdr Demo.decoded)) (Z.to_nat 0) = Some signal
     /\ sr_r sr = IO.contents Demo.encoded /\ sr_hdr sr = rhdr Demo.decoded
     /\ signalIndex sr = 0
     /\ currentRecord sr = 0 /\ currentSample sr = 0
     /\ samplesPerRecord sr = SamplesPerRecord signal)
  /\ (0 < 0 \/ SignalCount (rhdr Demo.decoded) <= 0 ->
      Reader_Signal Demo.decoded 0 = Err ErrSignalIndex).
Proof.
  exact (Signal_after_Open (L := Ref.lib) Demo.encoded Demo.decoded 0
           Demo_decodes).
Defined.


(** * The conversion range, the record count and failing sinks *)

(** ** The conversion to a 16-bit code on the reference platform *)

(** The value [digital] that [convertPhysicalToDigital] computes before
    it converts to [int16]: every operation is one of binary64. *)
Definition digitalValue (physical pmin pmax : float) (dmin dmax : Z) : float :=
  PrimFloat.add
    (PrimFloat.div
       (PrimFloat.mul (PrimFloat.sub physical pmin)
                      (GoInt.toFloat64 (GoInt.sub dmax dmin)))
       (PrimFloat.sub pmax pmin))
    (GoInt.toFloat64 dmin).







(** ** The record count in the header *)

Section RecordCount.
Context {T : TimeRep} {L : GoLib}.

Import Strings Strconv.









End RecordCount.

Section RecordCountTheorem.
Context {T : TimeRep} {L : GoLib}.

Import Strings Strconv.



End RecordCountTheorem.





(** ** What the header writer returns on a sink *)

Section OnSinkFacts.
Context {T : TimeRep} {L : GoLib}.
Context {S E : Type}.
Variable Seek0 : S -> S * option E.
Variable Write : S -> list byte -> S * nat * option E.

Import Strings Strconv.

(** [m] runs to its end only if [P] holds, and an error it builds itself
    is a field-too-long error met where [P] fails. *)
Definition guards (m : @OnSink.W S E unit) (P : Prop) : Prop :=
  forall b b' r, m b = (b', r) ->
    match r with
    | inr _ => P
    | inl (OnSink.Refused e) => kindOf e = FieldTooLong /\ ~ P
    | inl (OnSink.FromSink _) => True
    end.

Lemma guards_iff m (P Q : Prop) : guards m P -> (P <-> Q) -> guards m Q.
Proof.
  intros H HPQ b b' r Hm. specialize (H b b' r Hm).
  destruct r as [[e|e]|u]; tauto.
Qed.

Lemma guards_bind m1 m2 (P1 P2 : Prop) :
  guards m1 P1 -> guards m2 P2 ->
  guards (OnSink.bind m1 (fun _ => m2)) (P1 /\ P2).
Proof.
  intros H1 H2 b b' r. unfold OnSink.bind.
  destruct (m1 b) as [b1 [f|a]] eqn:E1; intros Hm.
  - inversion Hm; subst. specialize (H1 _ _ _ E1). cbn in H1.
    destruct f as [e|e]; tauto.
  - specialize (H1 _ _ _ E1). specialize (H2 _ _ _ Hm). cbn in H1.
    destruct r as [[e|e]|u]; tauto.
Qed.

Lemma guards_emit s (P : Prop) : P -> guards (OnSink.emit Write s) P.
Proof.
  intros HP b b' r. unfold OnSink.emit.
  destruct (OnSink.WriteString Write b s) as [b1 [e|]];
    intros Hm; inversion Hm; subst; exact I || exact HP.
Qed.

Lemma guards_writeChecked name value width :
  guards (OnSink.writeChecked Write name value width)
         (length value <= width)%nat.
Proof.
  intros b b' r. unfold OnSink.writeChecked.
  destruct (Nat.ltb_spec width (length value)) as [Hlt|Hle].
  - intros Hm; inversion Hm; subst. split; [reflexivity | lia].
  - apply guards_emit. exact Hle.
Qed.

Lemma guards_writePhysical name val i s :
  guards (OnSink.writePhysical Write name val i s) (physFits (val s)).
Proof.
  intros b b' r.
  unfold OnSink.writePhysical, WriterChecked.formatPhysicalValue, physFits.
  cbv zeta.
  destruct (Nat.ltb_spec 8 (length (Sprintf_2f (val s)))) as [H2|H2].
  - destruct (Nat.ltb_spec 8 (length (Sprintf_0f (val s)))) as [H0|H0].
    + intros Hm; inversion Hm; subst. split; [reflexivity | lia].
    + apply guards_emit. right. exact H0.
  - apply guards_emit. left. exact H2.
Qed.

Lemma guards_forSignals body (Q : Signal -> Prop) sigs :
  (forall j s, guards (body j s) (Q s)) ->
  forall i, guards (OnSink.forSignals body i sigs) (Forall Q sigs).
Proof.
  intros Hbody. induction sigs as [|s rest IH]; intros i.
  - intros b b' r Hm. inversion Hm; subst. constructor.
  - cbn [OnSink.forSignals].
    eapply guards_iff; [apply guards_bind; [apply Hbody | apply IH]|].
    split.
    + intros [H1 H2]. now constructor.
    + intros H. inversion H; subst. now split.
Qed.

Definition startFits (h : Header) : Prop :=
  (length (Version h) <= 8)%nat
  /\ (length (PatientID h) <= 80)%nat
  /\ (length (RecordingID h) <= 80)%nat
  /\ (length (Format_date (StartTime h)) <= 8)%nat
  /\ (length (Format_clock (StartTime h)) <= 8)%nat.

Definition restFits (h : Header) : Prop :=
  (length (formatInt (HeaderBytes h)) <= 8)%nat
  /\ (length (formatInt (DataRecords h)) <= 8)%nat
  /\ (length (formatInt (ceilSeconds (DataRecordDuration h))) <= 8)%nat
  /\ (length (formatInt (SignalCount h)) <= 4)%nat
  /\ Forall signalFits (Signals h).

Lemma guards_encodeStart (h : Header) :
  guards (OnSink.encodeStart Write h) (startFits h).
Proof.
  unfold OnSink.encodeStart, startFits.
  repeat apply guards_bind; apply guards_writeChecked.
Qed.

Lemma guards_encodeRest (h : Header) :
  guards (OnSink.encodeRest Write h) (restFits h).
Proof.
  unfold OnSink.encodeRest.
  eapply guards_iff.
  - repeat (apply guards_bind;
            [first [ apply guards_writeChecked
                   | apply guards_forSignals; intros j s;
                     first [ apply guards_writePhysical
                           | apply guards_writeChecked ] ] |]).
    apply guards_forSignals. intros j s. apply guards_writeChecked.
  - unfold restFits. rewrite !Forall_forall. unfold signalFits.
    cbn [length]. split.
    + intros (HB & _ & HD & Hdu & HS & F1 & F2 & F3 & F4 & F5 & F6 & F7 & F8
              & F9 & _).
      repeat (split; [assumption|]). intros s Hs.
      repeat split; auto.
    + intros (HB & HD & Hdu & HS & HF).
      repeat (split; [first [assumption | lia
                            | intros s Hs; first [lia | apply (HF s Hs)]]|]).
      intros s Hs. lia.
Qed.

Lemma fits_allFit (h : Header) :
  startFits h
  /\ restFits (set_HeaderBytes (GoInt.add 256 (GoInt.mul (SignalCount h) 256)) h)
  <-> allFit h.
Proof.
  unfold startFits, restFits, allFit.
  cbn [set_HeaderBytes HeaderBytes DataRecords DataRecordDuration SignalCount
       Signals].
  tauto.
Qed.

(** What [writeHeader] returns, on any sink. *)
Lemma writeHeader_outcome (ew : OnSink.Writer S) :
  match snd (OnSink.writeHeader Seek0 Write ew) with
  | None => allFit (OnSink.hdr ew)
  | Some (OnSink.Refused e) =>
      kindOf e = FieldTooLong /\ ~ allFit (OnSink.hdr ew)
  | Some (OnSink.FromSink _) => True
  end.
Proof.
  unfold OnSink.writeHeader.
  destruct (Seek0 (OnSink.w ew)) as [s [e|]]; [exact I|]. cbv zeta.
  destruct (OnSink.encodeStart Write _ _) as [b1 r1] eqn:E1.
  pose proof (guards_encodeStart _ _ _ _ E1) as G1.
  destruct r1 as [[e|e]|u]; cbn [snd].
  - exact I.
  - split; [tauto|]. intros H. apply fits_allFit in H. tauto.
  - destruct (OnSink.encodeRest Write _ _) as [b2 r2] eqn:E2.
    pose proof (guards_encodeRest _ _ _ _ E2) as G2.
    destruct r2 as [[e|e]|u2]; cbn [snd].
    + exact I.
    + split; [tauto|]. intros H. apply fits_allFit in H. tauto.
    + destruct (OnSink.Flush Write b2) as [b3 [e|]]; cbn [snd option_map].
      * exact I.
      * apply fits_allFit. tauto.
Qed.

(** ** A sink that accepts everything *)

Section Accepting.
Hypothesis Seek0_ok : forall s, snd (Seek0 s) = None.
Hypothesis Write_ok :
  forall s bs, exists s', Write s bs = (s', length bs, None).

Definition passes (m : @OnSink.W S E unit) : Prop :=
  forall b, OnSink.err b = None ->
  exists b', m b = (b', inr tt) /\ OnSink.err b' = None.

Lemma Flush_accepted (b : OnSink.BufWriter S E) :
  OnSink.err b = None ->
  exists b', OnSink.Flush Write b = (b', None) /\ OnSink.err b' = None.
Proof.
  intros Hb. unfold OnSink.Flush. rewrite Hb.
  destruct (OnSink.buf b) as [|c rest] eqn:Eb.
  - exists b. split; [reflexivity | exact Hb].
  - destruct (Write_ok (OnSink.wr b) (c :: rest)) as [s' Hw].
    rewrite Hw, Nat.ltb_irrefl. eexists. split; reflexivity.
Qed.

Lemma WriteStringFuel_accepted fuel :
  forall (b : OnSink.BufWriter S E) s,
  OnSink.err b = None ->
  exists b', OnSink.WriteStringFuel Write fuel b s = (b', None)
             /\ OnSink.err b' = None.
Proof.
  induction fuel as [|fuel IH]; intros b s Hb; cbn [OnSink.WriteStringFuel];
    rewrite Hb;
    destruct (length s <=? IO.bufSize - length (OnSink.buf b))%nat.
  - eexists; split; reflexivity.
  - exists b. split; [reflexivity | exact Hb].
  - eexists; split; reflexivity.
  - destruct (Flush_accepted
                (OnSink.mkBufWriter (OnSink.wr b)
                   (OnSink.buf b
                    ++ firstn (IO.bufSize - length (OnSink.buf b)) s) None)
                eq_refl) as (b1 & E1 & H1).
    rewrite E1. cbn [fst]. apply IH. exact H1.
Qed.

Lemma passes_emit s : passes (OnSink.emit Write s).
Proof.
  intros b Hb. unfold OnSink.emit, OnSink.WriteString.
  destruct (WriteStringFuel_accepted (Datatypes.S (length s)) b s Hb)
    as (b' & E1 & H1).
  rewrite E1. exists b'. split; [reflexivity | exact H1].
Qed.

Lemma passes_bind m1 m2 :
  passes m1 -> passes m2 -> passes (OnSink.bind m1 (fun _ => m2)).
Proof.
  intros H1 H2 b Hb. destruct (H1 b Hb) as (b1 & E1 & Hb1).
  unfold OnSink.bind. rewrite E1. now apply H2.
Qed.

Lemma passes_writeChecked name value width :
  (length value <= width)%nat ->
  passes (OnSink.writeChecked Write name value width).
Proof.
  intros Hfit b Hb. unfold OnSink.writeChecked.
  destruct (Nat.ltb_spec width (length value)); [lia|].
  now apply passes_emit.
Qed.

Lemma passes_writePhysical name val i s :
  physFits (val s) -> passes (OnSink.writePhysical Write name val i s).
Proof.
  intros Hfit b Hb.
  unfold OnSink.writePhysical, WriterChecked.formatPhysicalValue, physFits in *.
  cbv zeta.
  destruct (Nat.ltb_spec 8 (length (Sprintf_2f (val s)))) as [H2|H2].
  - destruct (Nat.ltb_spec 8 (length (Sprintf_0f (val s)))) as [H0|H0];
      [lia|]. now apply passes_emit.
  - now apply passes_emit.
Qed.

Lemma passes_forSignals body sigs :
  (forall j s, In s sigs -> passes (body j s)) ->
  forall i, passes (OnSink.forSignals body i sigs).
Proof.
  induction sigs as [|s rest IH]; intros Hbody i.
  - intros b Hb. exists b. split; [reflexivity | exact Hb].
  - cbn [OnSink.forSignals]. apply passes_bind.
    + apply Hbody. now left.
    + apply IH. intros j s' Hs'. apply Hbody. now right.
Qed.

Lemma passes_encodeStart (h : Header) :
  allFit h -> passes (OnSink.encodeStart Write h).
Proof.
  intros (HV & HP & HR & Hd8 & Hc8 & _).
  unfold OnSink.encodeStart.
  repeat apply passes_bind; now apply passes_writeChecked.
Qed.

Lemma passes_encodeRest (h : Header) :
  allFit h -> passes (OnSink.encodeRest Write (recomputed h)).
Proof.
  intros (_ & _ & _ & _ & _ & HB & HDR & Hdu & HSC & Hsigs).
  rewrite Forall_forall in Hsigs.
  unfold OnSink.encodeRest.
  cbn [recomputed set_HeaderBytes HeaderBytes DataRecords DataRecordDuration
       SignalCount Signals].
  repeat apply passes_bind;
    try (apply passes_writeChecked; first [assumption | cbn; lia]);
    apply passes_forSignals; intros j s Hs;
    destruct (Hsigs s Hs) as (T1 & T2 & T3 & P4 & P5 & I6 & I7 & T8 & I9);
    first [ apply passes_writeChecked; first [assumption | cbn; lia]
          | now apply passes_writePhysical ].
Qed.

Lemma writeHeader_accepted (ew : OnSink.Writer S) :
  allFit (OnSink.hdr ew) ->
  snd (OnSink.writeHeader Seek0 Write ew) = None.
Proof.
  intros Hfit. unfold OnSink.writeHeader.
  pose proof (Seek0_ok (OnSink.w ew)) as Hs.
  destruct (Seek0 (OnSink.w ew)) as [s r]. cbn [snd] in Hs. subst r.
  cbv zeta.
  destruct (passes_encodeStart _ Hfit (OnSink.NewWriter s) eq_refl)
    as (b1 & E1 & H1).
  rewrite E1. fold (recomputed (OnSink.hdr ew)).
  destruct (passes_encodeRest _ Hfit b1 H1) as (b2 & E2 & H2).
  rewrite E2.
  destruct (Flush_accepted b2 H2) as (b3 & E3 & H3).
  rewrite E3. reflexivity.
Qed.

End Accepting.

(** X1: the revised [writeHeader] on any sink.  It returns no error only
    if every value it formats is at most as long as its field.  An error
    it builds itself is of the field-too-long kind, and then some value
    is longer than its field.  An error of the sink's [Seek] is returned
    as it is, with the header and the counter untouched and nothing
    written.  On a sink whose [Seek] and [Write] never fail and whose
    [Write] takes all it is given, it returns no error exactly when every
    value fits. *)
Theorem writeHeader_errors_on_any_sink (ew : OnSink.Writer S) :
  let res := snd (OnSink.writeHeader Seek0 Write ew) in
  (res = None -> allFit (OnSink.hdr ew))
  /\ (forall e, res = Some (OnSink.Refused e) ->
                kindOf e = FieldTooLong /\ ~ allFit (OnSink.hdr ew))
  /\ (forall s e, Seek0 (OnSink.w ew) = (s, Some e) ->
        OnSink.writeHeader Seek0 Write ew
        = (OnSink.mkWriter s (OnSink.hdr ew) (OnSink.dataRecords ew),
           Some (OnSink.FromSink (OnSink.Reported e))))
  /\ ((forall s, snd (Seek0 s) = None) ->
      (forall s bs, exists s', Write s bs = (s', length bs, None)) ->
      (res = None <-> allFit (OnSink.hdr ew))).
Proof.
  intros res. pose proof (writeHeader_outcome ew) as Hout. fold res in Hout.
  split; [intros Hr; now rewrite Hr in Hout|].
  split; [intros e Hr; now rewrite Hr in Hout|].
  split.
  - intros s e Hs. unfold OnSink.writeHeader. now rewrite Hs.
  - intros Hseek Hwrite. split.
    + intros Hr. now rewrite Hr in Hout.
    + intros Hfit. now apply writeHeader_accepted.
Qed.

End OnSinkFacts.

(** ** The loop of [WriteString] ends *)

Section SinkLoop.
Context {S E : Type}.
Variable Write : S -> list byte -> S * nat * option E.

Lemma Flush_leaves (b : OnSink.BufWriter S E) :
  OnSink.err b = None ->
  OnSink.err (fst (OnSink.Flush Write b)) = None ->
  OnSink.buf (fst (OnSink.Flush Write b)) = [].
Proof.
  intros Hb. unfold OnSink.Flush. rewrite Hb.
  destruct (OnSink.buf b) as [|c rest] eqn:Eb; [intros _; exact Eb|].
  destruct (Write (OnSink.wr b) (c :: rest)) as [[s n] [e|]];
    [discriminate|].
  destruct (n <? length (c :: rest))%nat; [discriminate | reflexivity].
Qed.

Lemma WriteStringFuel_step fuel (b : OnSink.BufWriter S E) (s : gostring) :
  OnSink.WriteStringFuel Write (Datatypes.S fuel) b s
  = let avail := (IO.bufSize - length (OnSink.buf b))%nat in
    match OnSink.err b with
    | Some e => (b, Some e)
    | None =>
        if (length s <=? avail)%nat
        then (OnSink.mkBufWriter (OnSink.wr b) (OnSink.buf b ++ s) None, None)
        else OnSink.WriteStringFuel Write fuel
               (fst (OnSink.Flush Write
                       (OnSink.mkBufWriter (OnSink.wr b)
                          (OnSink.buf b ++ firstn avail s) None)))
               (skipn avail s)
    end.
Proof. reflexivity. Qed.

(** The fuel [WriteString] gives its loop is never used up: more fuel
    changes nothing. *)
Lemma WriteStringFuel_enough fuel :
  forall (b : OnSink.BufWriter S E) (s : gostring),
  (length s
   + (if (IO.bufSize - length (OnSink.buf b) =? 0)%nat then 1 else 0)
   <= fuel)%nat ->
  OnSink.WriteStringFuel Write (Datatypes.S fuel) b s
  = OnSink.WriteStringFuel Write fuel b s.
Proof.
  induction fuel as [|fuel IH]; intros b s Hfuel.
  - cbn [OnSink.WriteStringFuel].
    destruct (OnSink.err b); [reflexivity|].
    destruct (Nat.leb_spec (length s) (IO.bufSize - length (OnSink.buf b)));
      [reflexivity | lia].
  - rewrite (WriteStringFuel_step (Datatypes.S fuel)),
      (WriteStringFuel_step fuel). cbv zeta.
    destruct (OnSink.err b); [reflexivity|].
    destruct (Nat.leb_spec (length s) (IO.bufSize - length (OnSink.buf b)))
      as [Hle|Hgt]; [reflexivity|].
    set (avail := (IO.bufSize - length (OnSink.buf b))%nat) in *.
    set (b0 := OnSink.mkBufWriter (OnSink.wr b)
                 (OnSink.buf b ++ firstn avail s) None).
    destruct (OnSink.err (fst (OnSink.Flush Write b0))) as [e|] eqn:Ee.
    + rewrite WriteStringFuel_step. cbv zeta. rewrite Ee.
      destruct fuel; cbn [OnSink.WriteStringFuel]; rewrite Ee; reflexivity.
    + apply IH.
      rewrite (Flush_leaves b0 eq_refl Ee). cbn [length].
      change (IO.bufSize - 0 =? 0)%nat with false.
      rewrite length_skipn.
      destruct (Nat.eqb_spec avail 0) as [H0|H0]; lia.
Qed.

Lemma WriteString_fuel (b : OnSink.BufWriter S E) (s : gostring) extra :
  OnSink.WriteStringFuel Write (Datatypes.S (length s) + extra) b s
  = OnSink.WriteString Write b s.
Proof.
  induction extra as [|extra IH]; [now rewrite Nat.add_0_r|].
  rewrite Nat.add_succ_r, WriteStringFuel_enough; [exact IH|].
  destruct (IO.bufSize - length (OnSink.buf b) =? 0)%nat; lia.
Qed.

End SinkLoop.

(** ** The in-memory store as a sink

    [Seek] and [Write] of the in-memory store never fail, and [Write]
    takes all it is given.  On it the writer above is the revised writer
    of [WriterChecked]. *)

Section OnStore.
Context {T : TimeRep} {L : GoLib}.
Context {E : Type}.

Import Strings Strconv.

(** The two buffered writers hold the same. *)
Definition sameBuffer (bs : OnSink.BufWriter IO.File E) (bi : IO.BufWriter)
    : Prop :=
  OnSink.err bs = None
  /\ OnSink.wr bs = IO.wr bi
  /\ OnSink.buf bs = IO.buf bi
  /\ (IO.offset (IO.wr bi) <= length (IO.contents (IO.wr bi)))%nat.

Lemma Write_within (f : IO.File) (bs : list byte) :
  (IO.offset (IO.Write f bs) <= length (IO.contents (IO.Write f bs)))%nat.
Proof.
  unfold IO.Write, IO.writeAt. cbn [IO.contents IO.offset].
  rewrite !length_app, length_firstn, repeat_length. lia.
Qed.

Lemma sameBuffer_Flush bs bi :
  sameBuffer bs bi ->
  snd (OnSink.Flush storeWrite bs) = None
  /\ sameBuffer (fst (OnSink.Flush storeWrite bs)) (IO.Flush bi).
Proof.
  intros (He & Hw & Hb & Ho). unfold OnSink.Flush, IO.Flush. rewrite He.
  destruct (OnSink.buf bs) as [|c rest] eqn:Eb.
  - split; [reflexivity|]. cbn [fst]. rewrite <- Hb.
    rewrite Write_nil by exact Ho.
    unfold sameBuffer. cbn [IO.wr IO.buf]. auto.
  - unfold storeWrite. rewrite Nat.ltb_irrefl. cbn [fst snd].
    split; [reflexivity|]. unfold sameBuffer.
    cbn [OnSink.err OnSink.wr OnSink.buf IO.wr IO.buf].
    rewrite <- Hb, <- Hw.
    repeat split. apply Write_within.
Qed.

Lemma sameBuffer_WriteStringFuel fuel : forall bs bi s,
  sameBuffer bs bi ->
  snd (OnSink.WriteStringFuel storeWrite fuel bs s) = None
  /\ sameBuffer (fst (OnSink.WriteStringFuel storeWrite fuel bs s))
                (IO.WriteStringFuel fuel bi s).
Proof.
  induction fuel as [|fuel IH]; intros bs bi s Hsame;
    pose proof Hsame as (He & Hw & Hb & Ho);
    cbn [OnSink.WriteStringFuel IO.WriteStringFuel]; rewrite He, Hb;
    destruct (length s <=? IO.bufSize - length (IO.buf bi))%nat;
    cbn [fst snd].
  - split; [reflexivity|]. unfold sameBuffer.
    cbn [OnSink.err OnSink.wr OnSink.buf IO.wr IO.buf]. auto.
  - split; [reflexivity | exact Hsame].
  - split; [reflexivity|]. unfold sameBuffer.
    cbn [OnSink.err OnSink.wr OnSink.buf IO.wr IO.buf]. auto.
  - apply IH. apply sameBuffer_Flush. unfold sameBuffer.
    cbn [OnSink.err OnSink.wr OnSink.buf IO.wr IO.buf]. auto.
Qed.

(** The two computations return alike and leave the same buffers. *)
Definition alike (ms : @OnSink.W IO.File E unit) (mi : WriterChecked.W unit)
    : Prop :=
  forall bs bi, sameBuffer bs bi ->
    match ms bs, mi bi with
    | (bs', inr _), (bi', inr _) => sameBuffer bs' bi'
    | (bs', inl (OnSink.Refused e)), (bi', inl e') =>
        e = e' /\ sameBuffer bs' bi'
    | _, _ => False
    end.

Lemma alike_emit s :
  alike (OnSink.emit storeWrite s)
        (fun b => (IO.WriteString b s, inr tt)).
Proof.
  intros bs bi Hsame. unfold OnSink.emit, OnSink.WriteString, IO.WriteString.
  destruct (sameBuffer_WriteStringFuel (Datatypes.S (length s)) bs bi s Hsame)
    as [Hn Hs].
  destruct (OnSink.WriteStringFuel storeWrite _ bs s) as [b' r].
  cbn [fst snd] in *. subst r. exact Hs.
Qed.

Lemma alike_bind ms1 ms2 mi1 mi2 :
  alike ms1 mi1 -> alike ms2 mi2 ->
  alike (OnSink.bind ms1 (fun _ => ms2)) (WriterChecked.bind mi1 (fun _ => mi2)).
Proof.
  intros H1 H2 bs bi Hsame. specialize (H1 bs bi Hsame).
  unfold OnSink.bind, WriterChecked.bind.
  destruct (ms1 bs) as [bs1 [[e|e]|u]], (mi1 bi) as [bi1 [e'|u']];
    try contradiction; try exact H1.
  apply H2. exact H1.
Qed.

Lemma alike_writeChecked name value width :
  alike (OnSink.writeChecked storeWrite name value width)
        (WriterChecked.writeChecked name value width).
Proof.
  intros bs bi Hsame.
  unfold OnSink.writeChecked, WriterChecked.writeChecked.
  destruct (width <? length value)%nat.
  - split; [reflexivity | exact Hsame].
  - now apply alike_emit.
Qed.

Lemma alike_writePhysical name val i s :
  alike (OnSink.writePhysical storeWrite name val i s)
        (WriterChecked.writePhysical name val i s).
Proof.
  intros bs bi Hsame.
  unfold OnSink.writePhysical, WriterChecked.writePhysical.
  destruct (WriterChecked.formatPhysicalValue (val s)) as [e|text].
  - split; [reflexivity | exact Hsame].
  - now apply alike_emit.
Qed.

Lemma alike_forSignals bodys bodyi sigs :
  (forall j s, alike (bodys j s) (bodyi j s)) ->
  forall i, alike (OnSink.forSignals bodys i sigs)
                  (WriterChecked.forSignals bodyi i sigs).
Proof.
  intros Hbody. induction sigs as [|s rest IH]; intros i.
  - intros bs bi Hsame. exact Hsame.
  - cbn [OnSink.forSignals WriterChecked.forSignals].
    apply alike_bind; [apply Hbody | apply IH].
Qed.

Lemma alike_encodeStart (h : Header) :
  alike (OnSink.encodeStart storeWrite h) (WriterChecked.encodeStart h).
Proof.
  unfold OnSink.encodeStart, WriterChecked.encodeStart.
  repeat apply alike_bind; apply alike_writeChecked.
Qed.

Lemma alike_encodeRest (h : Header) :
  alike (OnSink.encodeRest storeWrite h) (WriterChecked.encodeRest h).
Proof.
  unfold OnSink.encodeRest, WriterChecked.encodeRest.
  repeat (apply alike_bind;
          [first [ apply alike_writeChecked
                 | apply alike_forSignals; intros j s;
                   first [ apply alike_writePhysical
                         | apply alike_writeChecked ] ] |]).
  apply alike_forSignals. intros j s. apply alike_writeChecked.
Qed.

(** The writer on a sink that stands for a writer on the store. *)
Definition onStore (ew : Writer) : OnSink.Writer IO.File :=
  OnSink.mkWriter (w ew) (hdr ew) (dataRecords ew).

(** On the in-memory store [OnSink.writeHeader] leaves the store, the
    header and the counter that [WriterChecked.writeHeader] leaves, and
    returns the error it returns. *)
Lemma writeHeader_on_store (ew : Writer) :
  OnSink.writeHeader (E := E) storeSeek0 storeWrite (onStore ew)
  = (onStore (fst (WriterChecked.writeHeader ew)),
     option_map OnSink.Refused (snd (WriterChecked.writeHeader ew))).
Proof.
  unfold OnSink.writeHeader, WriterChecked.writeHeader, storeSeek0.
  cbn [onStore OnSink.w OnSink.hdr OnSink.dataRecords]. cbv zeta.
  assert (H0 : sameBuffer (OnSink.NewWriter (IO.Rewind (w ew)))
                          (IO.NewWriter (IO.Rewind (w ew)))).
  { unfold sameBuffer. cbn. repeat split. lia. }
  pose proof (alike_encodeStart (hdr ew) _ _ H0) as H1.
  destruct (OnSink.encodeStart storeWrite (hdr ew) _) as [bs1 [[e|e]|u]],
           (WriterChecked.encodeStart (hdr ew) _) as [bi1 [e'|u']];
    try contradiction.
  - destruct H1 as (-> & _ & Hw & _). cbn [fst snd option_map onStore w hdr
      dataRecords]. now rewrite Hw.
  - pose proof (alike_encodeRest
                  (set_HeaderBytes
                     (GoInt.add 256 (GoInt.mul (SignalCount (hdr ew)) 256))
                     (hdr ew)) _ _ H1) as H2.
    destruct (OnSink.encodeRest storeWrite _ _) as [bs2 [[e|e]|u2]],
             (WriterChecked.encodeRest _ _) as [bi2 [e'|u2']];
      try contradiction.
    + destruct H2 as (-> & _ & Hw & _). cbn [fst snd option_map onStore w hdr
        dataRecords]. now rewrite Hw.
    + destruct (sameBuffer_Flush bs2 bi2 H2) as [Hn (_ & Hw & _)].
      destruct (OnSink.Flush storeWrite bs2) as [bs3 r].
      cbn [fst snd] in *. subst r.
      cbn [fst snd option_map onStore w hdr dataRecords]. now rewrite Hw.
Qed.

End OnStore.

(** ** A sink that runs full *)

(** Every value of [Demo.header] fits its field, yet on a sink that runs
    full after 300 bytes [writeHeader] returns the sink's error, with the
    first 300 bytes of the header in the sink. *)
Lemma writeHeader_on_a_full_sink :
  OnSink.writeHeader (L := Ref.lib) Full.capSeek0 (Full.capWrite 300)
                     Full.writer
  = (OnSink.mkWriter
       (firstn 300 (headerText (L := Ref.lib) (recomputed Demo.header)))
       (recomputed Demo.header) 0,
     Some (OnSink.FromSink (OnSink.Reported tt))).
Proof. vm_compute. reflexivity. Qed.
